(** * Kraken 2 classifier core (src/classify.cc): a shallow embedding

    The development follows the layout of classify.cc: the data carried by
    the classifier, the helpers [TrimPairInfo] and [AddHitlistString], the
    tree resolution [ResolveTree], the per-fragment routine
    [ClassifySequence], the per-batch loop of [ProcessFiles] and the
    ordered-output protocol that the worker threads of [ProcessFiles] run
    on the shared priority queue.

    Conventions.  Unsigned machine integers are [Z] with the wrap-around
    written out ([wrap32], [wrap64]).  Signed counters whose overflow is
    undefined in C++ ([int code_count], [int64_t minimizer_hit_groups]) are
    unbounded [Z].  [std::string] is [string]; [std::ostringstream] is the
    string written so far.  [std::vector] is [list].  A [double] is the
    rational it stands for, with the rounding of each operation written
    out ([round_double]).  The unordered map
    [taxon_counts_t] is an association list with unique keys whose order
    is the iteration order of the container. *)

From Stdlib Require Import ZArith List String Ascii Bool Lia QArith Qround.
From Stdlib Require Import Permutation DecimalString.
Import ListNotations.
Open Scope Z_scope.

(** ** Machine integers and text *)

Definition wrap32 (z : Z) : Z := z mod 2 ^ 32.
Definition wrap64 (z : Z) : Z := z mod 2 ^ 64.

(** [operator<<] on an unsigned integer: its decimal digits. *)
Definition dec (z : Z) : string :=
  NilZero.string_of_uint (N.to_uint (Z.to_N z)).

Definition TAB : string := String (ascii_of_nat 9) EmptyString.
Definition ENDL : string := String (ascii_of_nat 10) EmptyString.

Definition str_empty (s : string) : bool :=
  match s with EmptyString => true | _ => false end.

(** Last character of a string, if any. *)
Fixpoint last_char (s : string) : option ascii :=
  match s with
  | EmptyString => None
  | String c EmptyString => Some c
  | String _ s' => last_char s'
  end.

(** ** Constants of classify.cc *)

(** Modelled from the spec: kraken2_data.h is not among the sources; the
    spec fixes [taxid_t] as an unsigned integer whose maximal values are
    reserved.  The 64-bit width is taken here. *)
Definition TAXID_MAX : Z := 2 ^ 64 - 1.
Definition UINT64_MAX : Z := 2 ^ 64 - 1.

Definition NUM_FRAGMENTS_PER_THREAD : Z := 10000.
Definition MATE_PAIR_BORDER_TAXON : Z := TAXID_MAX.
Definition READING_FRAME_BORDER_TAXON : Z := TAXID_MAX - 1.
Definition AMBIGUOUS_SPAN_TAXON : Z := TAXID_MAX - 2.

(** ** Records of classify.cc (the fields the classifier core reads) *)

Record Options := mkOptions {
  report_filename : string;
  quick_mode : bool;
  use_translated_search : bool;
  print_scientific_name : bool;
  confidence_threshold : Q;
  paired_end_processing : bool;
  single_file_pairs : bool;
  minimum_quality_score : Z;
  minimum_hit_groups : Z
}.

Record ClassificationStats := mkStats {
  total_sequences : Z;
  total_bases : Z;
  total_classified : Z
}.

Record OutputData := mkOutputData {
  block_id : Z;
  kraken_str : string;
  classified_out1_str : string;
  classified_out2_str : string;
  unclassified_out1_str : string;
  unclassified_out2_str : string
}.

(** ** Collaborators declared in headers that are not among the sources *)

Inductive SequenceFormat := FORMAT_FASTA | FORMAT_FASTQ.

Record Sequence := mkSequence {
  format : SequenceFormat;
  header : string;
  seq : string;
  quals : string
}.

Record IndexOptions := mkIndexOptions {
  minimum_acceptable_hash_value : Z
}.

Record TaxonomyNode := mkNode {
  parent_id : Z;
  external_id : Z;
  name_offset : Z
}.

(** [name_at off] is the C string found at [name_data() + off]. *)
Record Taxonomy := mkTaxonomy {
  nodes : list TaxonomyNode;
  name_at : Z -> string
}.

Definition null_node : TaxonomyNode := mkNode 0 0 0.

(** [taxonomy.nodes()[i]]; an index past the end is undefined in C++ and
    reads as the zero node here. *)
Definition node_at (tax : Taxonomy) (i : Z) : TaxonomyNode :=
  nth (Z.to_nat i) (nodes tax) null_node.

(** Modelled from the spec: the per-taxon counter of reports.h
    ([read_count] and the distinct-k-mer estimator); the estimator is kept
    as the list of keys handed to [add_kmer]. *)
Record ReadCounter := mkReadCounter {
  readCount : Z;
  kmers : list Z
}.

Definition taxon_counts_t := list (Z * Z).
Definition taxon_counters_t := list (Z * ReadCounter).

(** What classify.cc calls but does not define.  [scanner_minimizers s] is
    the sequence of results of [NextMinimizer] after [LoadSequence s], each
    with the value of [is_ambiguous] at that point; [last_minimizer()] is
    the minimizer just returned. *)
Class Collaborators := mkCollaborators {
  IsAAncestorOfB : Taxonomy -> Z -> Z -> bool;
  LowestCommonAncestor : Taxonomy -> Z -> Z -> Z;
  hash_Get : Z -> Z;
  MurmurHash3 : Z -> Z;
  scanner_minimizers : string -> list (Z * bool);
  TranslateToAllFrames : string -> list string;
  Sequence_to_string : Sequence -> string
}.

(** ** TrimPairInfo (classify.cc 748-755) *)

Definition TrimPairInfo (id : string) : string :=
  let sz := String.length id in
  if (sz <=? 2)%nat then id
  else
    match String.get (sz - 2) id, String.get (sz - 1) id with
    | Some c2, Some c1 =>
        if Ascii.eqb c2 "/" && (Ascii.eqb c1 "1" || Ascii.eqb c1 "2")
        then String.substring 0 (sz - 2) id
        else id
    | _, _ => id
    end.

(** ** AddHitlistString (classify.cc 896-937) *)

(** The body of the [else] branch inside the loop: the run that just ended. *)
Definition emit_run (tax : Taxonomy) (last_code code_count : Z) : string :=
  if negb (last_code =? MATE_PAIR_BORDER_TAXON)
     && negb (last_code =? READING_FRAME_BORDER_TAXON)
  then
    if last_code =? AMBIGUOUS_SPAN_TAXON
    then ("A:" ++ dec code_count ++ " ")%string
    else (dec (external_id (node_at tax last_code)) ++ ":"
            ++ dec code_count ++ " ")%string
  else
    if last_code =? MATE_PAIR_BORDER_TAXON then "|:| "%string
    else "-:- "%string.

(** The statements after the loop: the final run. *)
Definition emit_last_run (tax : Taxonomy) (last_code code_count : Z) : string :=
  if negb (last_code =? MATE_PAIR_BORDER_TAXON)
     && negb (last_code =? READING_FRAME_BORDER_TAXON)
  then
    if last_code =? AMBIGUOUS_SPAN_TAXON
    then ("A:" ++ dec code_count ++ " ")%string
    else (dec (external_id (node_at tax last_code)) ++ ":"
            ++ dec code_count)%string
  else
    if last_code =? MATE_PAIR_BORDER_TAXON then "|:|"%string
    else "-:-"%string.

(** The [for] loop over [taxa[1..]], threading [last_code], [code_count]
    and the stream. *)
Fixpoint hitlist_loop (tax : Taxonomy) (rest : list Z)
    (last_code code_count : Z) (oss : string) : string * Z * Z :=
  match rest with
  | [] => (oss, last_code, code_count)
  | code :: rest' =>
      if code =? last_code
      then hitlist_loop tax rest' last_code (code_count + 1) oss
      else hitlist_loop tax rest' code 1
             (oss ++ emit_run tax last_code code_count)%string
  end.

(** [taxa[0]] on an empty vector is undefined; the only caller tests
    [taxa.empty()] first, and the stream is left as it is here. *)
Definition AddHitlistString (tax : Taxonomy) (oss : string) (taxa : list Z)
    : string :=
  match taxa with
  | [] => oss
  | t0 :: rest =>
      let '(oss', last_code, code_count) := hitlist_loop tax rest t0 1 oss in
      (oss' ++ emit_last_run tax last_code code_count)%string
  end.

(** The runs of a trail, as (code, length) pairs: the structure that the
    hitlist string spells out. *)
Fixpoint runs_from (rest : list Z) (last_code code_count : Z)
    : list (Z * Z) :=
  match rest with
  | [] => [(last_code, code_count)]
  | code :: rest' =>
      if code =? last_code
      then runs_from rest' last_code (code_count + 1)
      else (last_code, code_count) :: runs_from rest' code 1
  end.

Definition hitlist_runs (taxa : list Z) : list (Z * Z) :=
  match taxa with
  | [] => []
  | t0 :: rest => runs_from rest t0 1
  end.

Fixpoint render_runs (tax : Taxonomy) (rs : list (Z * Z)) : string :=
  match rs with
  | [] => EmptyString
  | [(c, n)] => emit_last_run tax c n
  | (c, n) :: rs' => (emit_run tax c n ++ render_runs tax rs')%string
  end.

(** The two border markers, which the hitlist prints without a count. *)
Definition is_border (t : Z) : bool :=
  (t =? MATE_PAIR_BORDER_TAXON) || (t =? READING_FRAME_BORDER_TAXON).

(** The three reserved values of the data model. *)
Definition is_sentinel (t : Z) : bool :=
  is_border t || (t =? AMBIGUOUS_SPAN_TAXON).



(** ** The unordered maps of the classifier *)

Fixpoint hc_get (hc : taxon_counts_t) (t : Z) : option Z :=
  match hc with
  | [] => None
  | (k, v) :: hc' => if k =? t then Some v else hc_get hc' t
  end.

(** [hit_counts[t]++]: a missing key is value-initialised to 0 first.  The
    place a new key takes in the iteration order is not specified by the
    container; it goes last here. *)
Fixpoint hc_incr (hc : taxon_counts_t) (t : Z) : taxon_counts_t :=
  match hc with
  | [] => [(t, 1)]
  | (k, v) :: hc' =>
      if k =? t then (k, wrap32 (v + 1)) :: hc' else (k, v) :: hc_incr hc' t
  end.

(** [hit_counts[t]] read as an rvalue: the value, and the map with the key
    inserted when it was missing. *)
Definition hc_subscript (hc : taxon_counts_t) (t : Z) : Z * taxon_counts_t :=
  match hc_get hc t with
  | Some v => (v, hc)
  | None => (0, hc ++ [(t, 0)])
  end.

Fixpoint counters_update (f : ReadCounter -> ReadCounter)
    (cs : taxon_counters_t) (t : Z) : taxon_counters_t :=
  match cs with
  | [] => [(t, f (mkReadCounter 0 []))]
  | (k, c) :: cs' =>
      if k =? t then (k, f c) :: cs' else (k, c) :: counters_update f cs' t
  end.

Definition add_kmer (m : Z) (c : ReadCounter) : ReadCounter :=
  mkReadCounter (readCount c) (m :: kmers c).

Definition incrementReadCount (c : ReadCounter) : ReadCounter :=
  mkReadCounter (wrap64 (readCount c + 1)) (kmers c).

(** ** ResolveTree (classify.cc 694-746) *)

Section Classifier.
Context {collab : Collaborators}.

(** Arithmetic in [double] (IEEE 754 binary64, round to nearest, ties to
    even).  A finite double is a rational number; [round_double x] is the
    double nearest to [x]: with [2^e <= |x| < 2^(e+1)] the unit in the
    last place is [2^(e-52)], and [2^-1074] in the subnormal range.  The
    result of an operation on doubles is the rounding of its exact
    result.  Values beyond the largest double round to an infinity in the
    source and are not bounded here; infinities and NaN are not
    represented: on them the conversion of line 699 is undefined. *)
Definition round_double (x : Q) : Q :=
  let n := Qnum x in
  let d := Zpos (Qden x) in
  if n =? 0 then 0%Q
  else
    let a := Z.abs n in
    let e0 := Z.log2 a - Z.log2 d in
    let e := if (if 0 <=? e0 then d * 2 ^ e0 <=? a
                 else d <=? a * 2 ^ (- e0))
             then e0 else e0 - 1 in
    let ex := Z.max (e - 52) (-1074) in
    let num := if 0 <=? ex then a else a * 2 ^ (- ex) in
    let den := if 0 <=? ex then d * 2 ^ ex else d in
    let fl := num / den in
    let r := num mod den in
    let m := if 2 * r <? den then fl
             else if den <? 2 * r then fl + 1
             else if Z.even fl then fl else fl + 1 in
    if 0 <=? ex then inject_Z (Z.sgn n * m * 2 ^ ex)
    else Qmake (Z.sgn n * m) (Z.to_pos (2 ^ (- ex))).

(** [uint32_t required_score = ceil(opts.confidence_threshold *
    total_minimizers)] (line 699).  [confidence_threshold] is kept as a
    rational; the double that the program holds is the one nearest to it
    (the number itself when it is a double, as 0 and 0.75 are).
    [total_minimizers], a [size_t], is converted to [double]; the product
    is a product of doubles; [ceil] of a double is exact.  The conversion
    of the result to [uint32_t] is defined for values in [0, 2^32) only
    and is taken modulo 2^32 elsewhere. *)
Definition required_score_of (opts : Options) (total_minimizers : Z) : Z :=
  wrap32
    (Qceiling
       (round_double
          (round_double (confidence_threshold opts)
           * round_double (inject_Z total_minimizers)))).

(** The inner [for] of phase 1: the score of [taxon] is the sum of the
    counts of the keys [taxon2] with [IsAAncestorOfB(taxon2, taxon)]. *)
Definition path_score (tax : Taxonomy) (hit_counts : taxon_counts_t)
    (taxon : Z) : Z :=
  fold_left
    (fun score kv2 =>
       if IsAAncestorOfB tax (fst kv2) taxon
       then wrap32 (score + snd kv2) else score)
    hit_counts 0.

(** One turn of the outer [for] of phase 1 on the pair
    [(max_taxon, max_score)]. *)
Definition phase1_step (tax : Taxonomy) (hit_counts : taxon_counts_t)
    (st : Z * Z) (kv : Z * Z) : Z * Z :=
  let '(max_taxon, max_score) := st in
  let taxon := fst kv in
  let score := path_score tax hit_counts taxon in
  if max_score <? score then (taxon, score)
  else if score =? max_score
       then (LowestCommonAncestor tax max_taxon taxon, max_score)
       else st.

Definition phase1_over (tax : Taxonomy) (hit_counts : taxon_counts_t)
    (order : list (Z * Z)) (st : Z * Z) : Z * Z :=
  fold_left (phase1_step tax hit_counts) order st.

Definition phase1 (tax : Taxonomy) (hit_counts : taxon_counts_t) : Z * Z :=
  phase1_over tax hit_counts hit_counts (0, 0).

(** The values [max_taxon] takes after each turn of the outer loop. *)
Fixpoint phase1_trace_from (tax : Taxonomy) (hit_counts : taxon_counts_t)
    (order : list (Z * Z)) (st : Z * Z) : list Z :=
  match order with
  | [] => []
  | kv :: order' =>
      let st' := phase1_step tax hit_counts st kv in
      fst st' :: phase1_trace_from tax hit_counts order' st'
  end.

Definition phase1_trace (tax : Taxonomy) (hit_counts : taxon_counts_t)
    : list Z :=
  phase1_trace_from tax hit_counts hit_counts (0, 0).

(** The [for] inside the [while] of phase 2: hits in [max_taxon]'s clade. *)
Definition clade_score (tax : Taxonomy) (hit_counts : taxon_counts_t)
    (max_taxon : Z) : Z :=
  fold_left
    (fun max_score kv =>
       if IsAAncestorOfB tax max_taxon (fst kv)
       then wrap32 (max_score + snd kv) else max_score)
    hit_counts 0.

(** The [while] of phase 2.  The loop need not end (a parent chain may
    cycle), so it runs on fuel: [None] says the fuel did not suffice. *)
Fixpoint climb (fuel : nat) (tax : Taxonomy) (hit_counts : taxon_counts_t)
    (required_score max_taxon max_score : Z) : option Z :=
  if negb (max_taxon =? 0) && (max_score <? required_score) then
    match fuel with
    | O => None
    | S fuel' =>
        let max_score' := clade_score tax hit_counts max_taxon in
        if required_score <=? max_score' then Some max_taxon
        else climb fuel' tax hit_counts required_score
               (parent_id (node_at tax max_taxon)) max_score'
    end
  else Some max_taxon.

Definition ResolveTree (fuel : nat) (hit_counts : taxon_counts_t)
    (tax : Taxonomy) (total_minimizers : Z) (opts : Options) : option Z :=
  let required_score := required_score_of opts total_minimizers in
  let '(max_taxon, _) := phase1 tax hit_counts in
  let '(count, hit_counts') := hc_subscript hit_counts max_taxon in
  climb fuel tax hit_counts' required_score max_taxon (wrap32 count).

(** ** ClassifySequence (classify.cc 757-894) *)

(** The variables the three nested loops share.  [finished_searching] is
    set when the [goto] is taken. *)
Record ScanState := mkScan {
  taxa : list Z;
  hit_counts : taxon_counts_t;
  minimizer_hit_groups : Z;
  curr_taxon_counts : taxon_counters_t;
  call : Z;
  finished_searching : bool
}.

Definition push_taxon (t : Z) (st : ScanState) : ScanState :=
  mkScan (taxa st ++ [t]) (hit_counts st) (minimizer_hit_groups st)
         (curr_taxon_counts st) (call st) (finished_searching st).

(** A database hit on a minimizer that differs from the last one. *)
Definition new_hit_group (opts : Options) (m taxon : Z) (st : ScanState)
    : ScanState :=
  mkScan (taxa st) (hit_counts st) (minimizer_hit_groups st + 1)
         (if str_empty (report_filename opts) then curr_taxon_counts st
          else counters_update (add_kmer m) (curr_taxon_counts st) taxon)
         (call st) (finished_searching st).

Definition count_hit (taxon : Z) (st : ScanState) : ScanState :=
  mkScan (taxa st) (hc_incr (hit_counts st) taxon) (minimizer_hit_groups st)
         (curr_taxon_counts st) (call st) (finished_searching st).

Definition quick_exit (taxon : Z) (st : ScanState) : ScanState :=
  mkScan (taxa st) (hit_counts st) (minimizer_hit_groups st)
         (curr_taxon_counts st) taxon true.

(** The [while] over the minimizers of one loaded sequence. *)
Fixpoint minimizer_loop (idx_opts : IndexOptions) (opts : Options)
    (minimizers : list (Z * bool)) (last_minimizer last_taxon : Z)
    (st : ScanState) : ScanState :=
  match minimizers with
  | [] => st
  | (m, is_ambiguous) :: rest =>
      if is_ambiguous then
        minimizer_loop idx_opts opts rest last_minimizer last_taxon
          (push_taxon AMBIGUOUS_SPAN_TAXON st)
      else
        let '(taxon, last_minimizer', last_taxon', st1) :=
          if negb (m =? last_minimizer) then
            let skip_lookup :=
              negb (minimum_acceptable_hash_value idx_opts =? 0)
              && (MurmurHash3 m <? minimum_acceptable_hash_value idx_opts) in
            let taxon := if skip_lookup then 0 else hash_Get m in
            (taxon, m, taxon,
             if negb (taxon =? 0) then new_hit_group opts m taxon st else st)
          else (last_taxon, last_minimizer, last_taxon, st) in
        if negb (taxon =? 0) then
          if quick_mode opts
             && (minimum_hit_groups opts <=? minimizer_hit_groups st1)
          then quick_exit taxon st1
          else minimizer_loop idx_opts opts rest last_minimizer' last_taxon'
                 (push_taxon taxon (count_hit taxon st1))
        else minimizer_loop idx_opts opts rest last_minimizer' last_taxon'
               (push_taxon taxon st1)
  end.

(** The sequences loaded into the scanner for one mate, by [frame_idx]. *)
Definition frames_of (opts : Options) (s : string) : list string :=
  if use_translated_search opts
  then map (fun i => nth i (TranslateToAllFrames s) EmptyString)
           (List.seq 0 6)
  else [s].

(** The [for] over [frame_idx]. *)
Fixpoint frame_loop (idx_opts : IndexOptions) (opts : Options)
    (frames : list string) (frame_idx : Z) (st : ScanState) : ScanState :=
  match frames with
  | [] => st
  | f :: frames' =>
      let st1 :=
        minimizer_loop idx_opts opts (scanner_minimizers f)
          UINT64_MAX TAXID_MAX st in
      if finished_searching st1 then st1
      else
        let st2 :=
          if use_translated_search opts && negb (frame_idx =? 5)
          then push_taxon READING_FRAME_BORDER_TAXON st1 else st1 in
        frame_loop idx_opts opts frames' (frame_idx + 1) st2
  end.

(** The [for] over [mate_num], up to the label [finished_searching]. *)
Definition mate_loop (idx_opts : IndexOptions) (opts : Options)
    (dna dna2 : Sequence) (curr_taxon_counts0 : taxon_counters_t)
    : ScanState :=
  let st0 := mkScan [] [] 0 curr_taxon_counts0 0 false in
  let st1 := frame_loop idx_opts opts (frames_of opts (seq dna)) 0 st0 in
  if finished_searching st1 then st1
  else if paired_end_processing opts then
    frame_loop idx_opts opts (frames_of opts (seq dna2)) 0
      (push_taxon MATE_PAIR_BORDER_TAXON st1)
  else st1.

(** [total_kmers], a [size_t], after the two adjustments. *)
Definition total_kmers_of (opts : Options) (taxa : list Z) : Z :=
  let t0 := Z.of_nat (List.length taxa) in
  let t1 := if paired_end_processing opts then wrap64 (t0 - 1) else t0 in
  if use_translated_search opts
  then wrap64 (t1 - (if paired_end_processing opts then 4 else 2))
  else t1.

(** The text written to [koss] from the C/U flag to the end of the line. *)
Definition kraken_line (tax : Taxonomy) (opts : Options)
    (dna dna2 : Sequence) (call : Z) (taxa : list Z) : string :=
  let called := negb (call =? 0) in
  let ext_call := external_id (node_at tax call) in
  let size1 := dec (Z.of_nat (String.length (seq dna))) in
  let size2 := dec (Z.of_nat (String.length (seq dna2))) in
  ((if called then "C" ++ TAB else "U" ++ TAB)
   ++ (if negb (paired_end_processing opts) then header dna
       else TrimPairInfo (header dna)) ++ TAB
   ++ (if print_scientific_name opts
       then (if called
             then name_at tax (name_offset (node_at tax call))
             else "unclassified")
            ++ " (taxid " ++ dec ext_call ++ ")"
       else dec ext_call)
   ++ TAB
   ++ (if negb (paired_end_processing opts)
       then size1 ++ TAB
       else size1 ++ "|" ++ size2 ++ TAB)
   ++ (if quick_mode opts then dec ext_call ++ ":Q"
       else match taxa with
            | [] => "0:0"
            | _ => AddHitlistString tax EmptyString taxa
            end)
   ++ ENDL)%string.

Record Classified := mkClassified {
  c_call : Z;
  c_koss : string;
  c_stats : ClassificationStats;
  c_taxa : list Z;
  c_hit_groups : Z;
  c_taxon_counts : taxon_counters_t
}.

Definition ClassifySequence (fuel : nat) (dna dna2 : Sequence)
    (koss : string) (tax : Taxonomy) (idx_opts : IndexOptions)
    (opts : Options) (stats : ClassificationStats)
    (curr_taxon_counts0 : taxon_counters_t) : option Classified :=
  let st := mate_loop idx_opts opts dna dna2 curr_taxon_counts0 in
  let total_kmers := total_kmers_of opts (taxa st) in
  match ResolveTree fuel (hit_counts st) tax total_kmers opts with
  | None => None
  | Some resolved =>
      let call :=
        if negb (resolved =? 0)
           && (minimizer_hit_groups st <? minimum_hit_groups opts)
        then 0 else resolved in
      let stats' :=
        if negb (call =? 0)
        then mkStats (total_sequences stats) (total_bases stats)
                     (wrap64 (total_classified stats + 1))
        else stats in
      let counts' :=
        if negb (call =? 0) && negb (str_empty (report_filename opts))
        then counters_update incrementReadCount (curr_taxon_counts st) call
        else curr_taxon_counts st in
      Some (mkClassified call
              (koss ++ kraken_line tax opts dna dna2 call (taxa st))%string
              stats' (taxa st) (minimizer_hit_groups st) counts')
  end.

End Classifier.

(** ** MaskLowQualityBases (classify.cc 1007-1017) *)

(** A [char] promoted to [int] (signed, as on x86-64). *)
Definition char_to_int (c : ascii) : Z :=
  let n := Z.of_N (N_of_ascii c) in
  if n <? 128 then n else n - 256.

Fixpoint mask_bases (s q : string) (minimum_quality_score : Z) : string :=
  match s, q with
  | String b s', String c q' =>
      String (if char_to_int c - 33 <? minimum_quality_score
              then "x"%char else b)
             (mask_bases s' q' minimum_quality_score)
  | _, _ => s
  end.

(** [None] is the [errx] exit on a quality string of the wrong length. *)
Definition MaskLowQualityBases (dna : Sequence) (minimum_quality_score : Z)
    : option Sequence :=
  match format dna with
  | FORMAT_FASTA => Some dna
  | FORMAT_FASTQ =>
      if negb (String.length (seq dna) =? String.length (quals dna))%nat
      then None
      else Some (mkSequence (format dna) (header dna)
                   (mask_bases (seq dna) (quals dna) minimum_quality_score)
                   (quals dna))
  end.

(** ** ProcessFiles: the loop over the fragments of one batch
       (classify.cc 532-591) *)

Inductive Run (A : Type) : Type :=
| Finished (a : A)      (* ran to the end *)
| Exited                (* the process left through [errx] *)
| OutOfFuel.            (* [ResolveTree] was given too little fuel *)
Arguments Finished {A} a.
Arguments Exited {A}.
Arguments OutOfFuel {A}.

Definition run_bind {A B : Type} (r : Run A) (k : A -> Run B) : Run B :=
  match r with
  | Finished a => k a
  | Exited => Exited
  | OutOfFuel => OutOfFuel
  end.

(** The per-batch buffers and counters of a worker thread. *)
Record BlockState := mkBlock {
  kraken_oss : string;
  c1_oss : string;
  c2_oss : string;
  u1_oss : string;
  u2_oss : string;
  thread_stats : ClassificationStats;
  thread_taxon_counters : taxon_counters_t
}.

Definition empty_sequence : Sequence :=
  mkSequence FORMAT_FASTA EmptyString EmptyString EmptyString.

Definition add_header (s : Sequence) (suffix : string) : Sequence :=
  mkSequence (format s) (header s ++ suffix)%string (seq s) (quals s).

Section Batch.
Context {collab : Collaborators}.

(** Lines 555-559: masking of both mates. *)
Definition mask_fragment (opts : Options) (seq1 seq2 : Sequence)
    : Run (Sequence * Sequence) :=
  if 0 <? minimum_quality_score opts then
    match MaskLowQualityBases seq1 (minimum_quality_score opts) with
    | None => Exited
    | Some seq1' =>
        if paired_end_processing opts then
          match MaskLowQualityBases seq2 (minimum_quality_score opts) with
          | None => Exited
          | Some seq2' => Finished (seq1', seq2')
          end
        else Finished (seq1', seq2)
    end
  else Finished (seq1, seq2).

(** Lines 554-590: the body of the loop for a valid fragment.  [seq2] is
    only read in paired mode. *)
Definition process_fragment (fuel : nat) (tax : Taxonomy)
    (idx_opts : IndexOptions) (opts : Options) (seq1 seq2 : Sequence)
    (bs : BlockState) : Run BlockState :=
  let stats1 :=
    mkStats (wrap64 (total_sequences (thread_stats bs) + 1))
            (total_bases (thread_stats bs))
            (total_classified (thread_stats bs)) in
  run_bind (mask_fragment opts seq1 seq2) (fun '(seq1, seq2) =>
    let dna2 := if paired_end_processing opts then seq2 else empty_sequence in
    match ClassifySequence fuel seq1 dna2 (kraken_oss bs) tax idx_opts opts
            stats1 (thread_taxon_counters bs) with
    | None => OutOfFuel
    | Some r =>
        let paired := paired_end_processing opts in
        let buffer :=
          (" kraken:taxid|"
             ++ dec (external_id (node_at tax (c_call r))))%string in
        let called := negb (c_call r =? 0) in
        let c1 := if called
                  then (c1_oss bs
                          ++ Sequence_to_string (add_header seq1 buffer))%string
                  else c1_oss bs in
        let c2 := if called && paired
                  then (c2_oss bs
                          ++ Sequence_to_string (add_header seq2 buffer))%string
                  else c2_oss bs in
        let u1 := if called then u1_oss bs
                  else (u1_oss bs ++ Sequence_to_string seq1)%string in
        let u2 := if negb called && paired
                  then (u2_oss bs ++ Sequence_to_string seq2)%string
                  else u2_oss bs in
        let bases1 :=
          wrap64 (total_bases (c_stats r)
                  + Z.of_nat (String.length (seq seq1))) in
        let bases2 :=
          if paired
          then wrap64 (bases1 + Z.of_nat (String.length (seq seq2)))
          else bases1 in
        Finished
          (mkBlock (c_koss r) c1 c2 u1 u2
             (mkStats (total_sequences (c_stats r)) bases2
                      (total_classified (c_stats r)))
             (c_taxon_counts r))
    end).

(** Lines 540-591.  [reader1] and [reader2] are the sequences the two
    readers still hold for this batch; [NextSequence] takes the head and
    returns [NULL] on the empty list. *)
Fixpoint batch_loop (fuel : nat) (tax : Taxonomy) (idx_opts : IndexOptions)
    (opts : Options) (reader1 reader2 : list Sequence) (bs : BlockState)
    : Run BlockState :=
  match reader1 with
  | [] => Finished bs
  | seq1 :: reader1' =>
      if paired_end_processing opts then
        if single_file_pairs opts then
          match reader1' with
          | [] => Finished bs
          | seq2 :: reader1'' =>
              run_bind (process_fragment fuel tax idx_opts opts seq1 seq2 bs)
                (batch_loop fuel tax idx_opts opts reader1'' reader2)
          end
        else
          match reader2 with
          | [] => Finished bs
          | seq2 :: reader2' =>
              run_bind (process_fragment fuel tax idx_opts opts seq1 seq2 bs)
                (batch_loop fuel tax idx_opts opts reader1' reader2')
          end
      else
        run_bind
          (process_fragment fuel tax idx_opts opts seq1 empty_sequence bs)
          (batch_loop fuel tax idx_opts opts reader1' reader2)
  end.

(** Lines 532-538: what a worker starts every batch from. *)
Definition fresh_block : BlockState :=
  mkBlock EmptyString EmptyString EmptyString EmptyString EmptyString
          (mkStats 0 0 0) [].

End Batch.

(** ** ProcessFiles: the ordered-output protocol (classify.cc 471-477,
       500-530, 619-677)

    The worker threads of the parallel region share the priority queue,
    the two block counters, the critical section named [output_queue] and
    the lock [output_lock].  Each thread is a small state machine over
    these; the system is their interleaving.  A [critical] region runs
    alone among the regions of its name, so a region that cannot block is
    one step; the drain region can block in [omp_set_lock] and is split
    there. *)

Module OutputOrder.

(** [std::priority_queue] with the comparator [a.block_id > b.block_id]:
    [top] is an element of least [block_id]. *)
Fixpoint pq_top (q : list OutputData) : option OutputData :=
  match q with
  | [] => None
  | d :: q' =>
      match pq_top q' with
      | None => Some d
      | Some m => if block_id d <=? block_id m then Some d else Some m
      end
  end.

Fixpoint pq_remove (b : Z) (q : list OutputData) : list OutputData :=
  match q with
  | [] => []
  | d :: q' => if block_id d =? b then q' else d :: pq_remove b q'
  end.

Definition pq_pop (q : list OutputData) : list OutputData :=
  match pq_top q with
  | None => q
  | Some m => pq_remove (block_id m) q
  end.

(** Where a worker stands.  The five sinks are numbered in the order the
    source writes them: kraken_output, classified_output1,
    classified_output2, unclassified_output1, unclassified_output2. *)
Inductive Pc :=
| AtRead                          (* top of [while (true)], before [seqread] *)
| Classifying (b : Z)             (* owns [block_id = b], fills its buffers *)
| AtDrain                         (* top of [while (output_loop)] *)
| WaitLock (d : OutputData)       (* popped [d], inside [omp_set_lock] *)
| Writing (d : OutputData) (k : nat)  (* holds the lock, sinks < k written *)
| Left.                           (* broke out of [while (true)] *)

Record State := mkState {
  output_queue : list OutputData;
  next_input_block_id : Z;
  next_output_block_id : Z;
  output_lock : option nat;        (* the thread that set the lock *)
  in_critical : option nat;        (* the thread inside [critical(output_queue)] *)
  sink_log : nat -> list Z;        (* block ids written to each sink, in order *)
  pc : nat -> Pc
}.

Definition upd {A : Type} (f : nat -> A) (i : nat) (a : A) : nat -> A :=
  fun j => if Nat.eqb j i then a else f j.

Definition initial : State :=
  mkState [] 0 0 None None (fun _ => []) (fun _ => AtRead).

Section Protocol.

(** Which of the five output streams are non-null after
    [InitializeOutputs]. *)
Variable sink_open : nat -> bool.

Definition write_sink (s : State) (k : nat) (d : OutputData)
    : nat -> list Z :=
  if sink_open k then upd (sink_log s) k (sink_log s k ++ [block_id d])
  else sink_log s.

(** The state after each kind of move of thread [t]. *)
Definition set_pc (s : State) (t : nat) (p : Pc) : State :=
  mkState (output_queue s) (next_input_block_id s) (next_output_block_id s)
    (output_lock s) (in_critical s) (sink_log s) (upd (pc s) t p).

Definition after_read (s : State) (t : nat) (p : Pc) : State :=
  mkState (output_queue s) (wrap64 (next_input_block_id s + 1))
    (next_output_block_id s) (output_lock s) (in_critical s) (sink_log s)
    (upd (pc s) t p).

Definition after_push (s : State) (t : nat) (d : OutputData) : State :=
  mkState (d :: output_queue s) (next_input_block_id s)
    (next_output_block_id s) (output_lock s) (in_critical s) (sink_log s)
    (upd (pc s) t AtDrain).

Definition after_pop (s : State) (t : nat) (d : OutputData) : State :=
  mkState (pq_pop (output_queue s)) (next_input_block_id s)
    (next_output_block_id s) (output_lock s) (Some t) (sink_log s)
    (upd (pc s) t (WaitLock d)).

Definition after_lock (s : State) (t : nat) (d : OutputData) : State :=
  mkState (output_queue s) (next_input_block_id s)
    (wrap64 (next_output_block_id s + 1)) (Some t) None (sink_log s)
    (upd (pc s) t (Writing d 0)).

Definition after_write (s : State) (t : nat) (d : OutputData) (k : nat)
    : State :=
  mkState (output_queue s) (next_input_block_id s) (next_output_block_id s)
    (output_lock s) (in_critical s) (write_sink s k d)
    (upd (pc s) t (Writing d (S k))).

Definition after_unlock (s : State) (t : nat) : State :=
  mkState (output_queue s) (next_input_block_id s) (next_output_block_id s)
    None (in_critical s) (sink_log s) (upd (pc s) t AtDrain).

Inductive step : State -> State -> Prop :=
(* lines 507-530: a batch was read; the thread takes the next block id *)
| step_read : forall s t,
    pc s t = AtRead ->
    step s (after_read s t (Classifying (next_input_block_id s)))
(* lines 507-530: nothing was read; the id is taken and the thread leaves *)
| step_eof : forall s t,
    pc s t = AtRead ->
    step s (after_read s t Left)
(* lines 612-622: the block is pushed *)
| step_push : forall s t b d,
    pc s t = Classifying b ->
    in_critical s = None ->
    block_id d = b ->
    step s (after_push s t d)
(* lines 636, 664: the queue is empty *)
| step_drain_empty : forall s t,
    pc s t = AtDrain ->
    in_critical s = None ->
    output_queue s = [] ->
    step s (set_pc s t AtRead)
(* lines 645, 653-654: the head is not the next block *)
| step_drain_later : forall s t d,
    pc s t = AtDrain ->
    in_critical s = None ->
    pq_top (output_queue s) = Some d ->
    block_id d <> next_output_block_id s ->
    step s (set_pc s t AtRead)
(* lines 645-648: the head is the next block; it is popped *)
| step_drain_pop : forall s t d,
    pc s t = AtDrain ->
    in_critical s = None ->
    pq_top (output_queue s) = Some d ->
    block_id d = next_output_block_id s ->
    step s (after_pop s t d)
(* lines 651-652: the lock is obtained, the counter moves on *)
| step_lock : forall s t d,
    pc s t = WaitLock d ->
    output_lock s = None ->
    step s (after_lock s t d)
(* lines 666-675: one of the five streams *)
| step_write : forall s t d k,
    pc s t = Writing d k ->
    (k < 5)%nat ->
    step s (after_write s t d k)
(* line 676: [omp_unset_lock] *)
| step_unlock : forall s t d,
    pc s t = Writing d 5 ->
    step s (after_unlock s t).

Inductive reachable : State -> Prop :=
| reach_initial : reachable initial
| reach_step : forall s s', reachable s -> step s s' -> reachable s'.

(** The block ids 0, 1, ..., n-1 as the 64-bit counter produces them. *)
Definition ids (n : nat) : list Z :=
  map (fun i => wrap64 (Z.of_nat i)) (List.seq 0 n).

Definition log_is (s : State) (k n : nat) : Prop :=
  sink_log s k = if (k <? 5)%nat && sink_open k then ids n else [].

(** A thread that neither waits for the lock nor holds it. *)
Definition quiet (p : Pc) : Prop :=
  match p with
  | WaitLock _ | Writing _ _ => False
  | _ => True
  end.

(** The invariant: [n] blocks have been taken off the queue for writing. *)
Definition inv (s : State) (n : nat) : Prop :=
  next_output_block_id s = wrap64 (Z.of_nat n)
  /\ (forall t d, pc s t = WaitLock d ->
        in_critical s = Some t /\ block_id d = next_output_block_id s)
  /\ (forall t, in_critical s = Some t -> exists d, pc s t = WaitLock d)
  /\ (forall t d k, pc s t = Writing d k ->
        output_lock s = Some t /\ (k <= 5)%nat)
  /\ match output_lock s with
     | None => forall k, log_is s k n
     | Some t =>
         exists d k m, pc s t = Writing d k /\ n = S m
           /\ block_id d = wrap64 (Z.of_nat m)
           /\ forall j, if (j <? k)%nat then log_is s j n else log_is s j m
     end.

End Protocol.
End OutputOrder.

(** ** The taxonomy oracle (taxonomy.cc is not among the sources) *)

(** Modelled from the spec: the parent chain of a node, from the node
    itself up to the root; 0 is not a node and ends the chain.  A chain of
    a well-formed taxonomy is no longer than the node table, which bounds
    the walk. *)
Fixpoint parent_chain (tax : Taxonomy) (fuel : nat) (t : Z) : list Z :=
  match fuel with
  | O => []
  | S fuel' =>
      if t =? 0 then []
      else t :: parent_chain tax fuel' (parent_id (node_at tax t))
  end.

Definition ancestors (tax : Taxonomy) (t : Z) : list Z :=
  parent_chain tax (List.length (nodes tax)) t.

Definition mem (x : Z) (l : list Z) : bool := existsb (Z.eqb x) l.

(** Modelled from the spec: [is_ancestor(a, b)] of the taxonomy oracle,
    true iff [a] lies on the parent chain of [b], [b] included; 0 is never
    an ancestor. *)
Definition spec_IsAAncestorOfB (tax : Taxonomy) (a b : Z) : bool :=
  mem a (ancestors tax b).

(** Modelled from the spec: [lowest_common_ancestor(a, b)] of the taxonomy
    oracle, the deepest node shared by the two chains; if either is 0 the
    other is returned. *)
Definition spec_LowestCommonAncestor (tax : Taxonomy) (a b : Z) : Z :=
  if a =? 0 then b
  else if b =? 0 then a
  else match find (fun x => mem x (ancestors tax b)) (ancestors tax a) with
       | Some c => c
       | None => 0
       end.

(** A taxonomy is well formed when node 0 is the null node, every parent
    index is inside the table and smaller chains are complete: every chain
    reaches 0 within the bound and ends in the same root. *)
Definition in_table (tax : Taxonomy) (t : Z) : bool :=
  (0 <=? t) && (t <? Z.of_nat (List.length (nodes tax))).

Definition chain_complete (tax : Taxonomy) (t : Z) : bool :=
  match
    list_eq_dec Z.eq_dec
      (parent_chain tax (List.length (nodes tax)) t)
      (parent_chain tax (S (List.length (nodes tax))) t)
  with
  | left _ => true
  | right _ => false
  end.

Definition rooted_at (tax : Taxonomy) (root t : Z) : bool :=
  (t =? 0) || mem root (ancestors tax t).

Definition wf_taxonomy (tax : Taxonomy) (root : Z) : bool :=
  forallb
    (fun i =>
       let t := Z.of_nat i in
       in_table tax (parent_id (node_at tax t))
       && chain_complete tax t
       && rooted_at tax root t)
    (List.seq 0 (List.length (nodes tax))).

(** The nodes a well-formed taxonomy speaks about. *)
Definition valid_taxon (tax : Taxonomy) (t : Z) : Prop :=
  0 < t < Z.of_nat (List.length (nodes tax)).

(** ** Small instances used to run the definitions *)

Module Examples.

(** A root (node 1) with every other node as its child; the external id
    of a node is its index. *)
Definition star_nodes (n : nat) : list TaxonomyNode :=
  map (fun i => mkNode (if Z.of_nat i <=? 1 then 0 else 1) (Z.of_nat i) 0)
      (List.seq 0 n).

Definition star : Taxonomy :=
  mkTaxonomy (star_nodes 43) (fun _ => "taxon"%string).

(** Node 1 is the root, 2 and 3 its children, 4 and 5 the children of 2,
    6 the child of 3. *)
Definition small_tree : Taxonomy :=
  mkTaxonomy
    [mkNode 0 0 0; mkNode 0 1 0; mkNode 1 2 0; mkNode 1 3 0;
     mkNode 2 4 0; mkNode 2 5 0; mkNode 3 6 0]
    (fun _ => "taxon"%string).

(** A toy scanner: every character gives one minimizer, its character
    code; the character N is an ambiguous span. *)
Definition toy_minimizers (s : string) : list (Z * bool) :=
  map (fun c => (Z.of_N (N_of_ascii c), Ascii.eqb c "N"))
      (list_ascii_of_string s).

(** A toy index: A (65) maps to taxon 10, C (67) to 20, G (71) to 42, and
    T (84) to 30. *)
Definition toy_Get (m : Z) : Z :=
  if m =? 65 then 10 else if m =? 67 then 20
  else if m =? 71 then 42 else if m =? 84 then 30 else 0.

Definition toy_frames (s : string) : list string := [s; s; s; s; s; s].

Definition toy_to_string (s : Sequence) : string :=
  (header s ++ ENDL ++ seq s ++ ENDL)%string.

Definition toy : Collaborators :=
  mkCollaborators spec_IsAAncestorOfB spec_LowestCommonAncestor
    toy_Get (fun m => m) toy_minimizers toy_frames toy_to_string.

Definition fasta (h s : string) : Sequence :=
  mkSequence FORMAT_FASTA h s EmptyString.

Definition idx0 : IndexOptions := mkIndexOptions 0.

Definition plain_opts : Options :=
  mkOptions EmptyString false false false 0 false false 0 0.

Definition with_quick (o : Options) (g : Z) : Options :=
  mkOptions (report_filename o) true (use_translated_search o)
    (print_scientific_name o) (confidence_threshold o)
    (paired_end_processing o) (single_file_pairs o)
    (minimum_quality_score o) g.

Definition with_groups (o : Options) (g : Z) : Options :=
  mkOptions (report_filename o) (quick_mode o) (use_translated_search o)
    (print_scientific_name o) (confidence_threshold o)
    (paired_end_processing o) (single_file_pairs o)
    (minimum_quality_score o) g.

Definition with_threshold (o : Options) (q : Q) : Options :=
  mkOptions (report_filename o) (quick_mode o) (use_translated_search o)
    (print_scientific_name o) q
    (paired_end_processing o) (single_file_pairs o)
    (minimum_quality_score o) (minimum_hit_groups o).

Definition paired_opts (single_file : bool) : Options :=
  mkOptions EmptyString false false false 0 true single_file 0 0.


Definition stats0 : ClassificationStats := mkStats 0 0 0.

(** One worker reads block 0, pushes it, pops it, takes the lock and
    writes the first stream. *)
Definition all_open : nat -> bool := fun _ => true.
Definition block0 : OutputData :=
  mkOutputData 0 "line"%string EmptyString EmptyString EmptyString
    EmptyString.
Definition run1 : OutputOrder.State :=
  OutputOrder.after_read OutputOrder.initial 0
    (OutputOrder.Classifying 0).
Definition run2 : OutputOrder.State := OutputOrder.after_push run1 0 block0.
Definition run3 : OutputOrder.State := OutputOrder.after_pop run2 0 block0.
Definition run4 : OutputOrder.State := OutputOrder.after_lock run3 0 block0.
Definition run5 : OutputOrder.State :=
  OutputOrder.after_write all_open run4 0 block0 0.

End Examples.

(** ** The claims of the specification that the code does not meet, as
       the specification words them *)

Definition ends_with (suffix s : string) : bool :=
  (String.length suffix <=? String.length s)%nat
  && String.eqb
       (String.substring (String.length s - String.length suffix)
          (String.length suffix) s)
       suffix.

Definition has_pair_mark (id : string) : bool :=
  ends_with "/1" id || ends_with "/2" id.

Definition without_last_two (id : string) : string :=
  String.substring 0 (String.length id - 2) id.

(** The read-id rule as the specification states it: an id that ends with
    /1 or /2 loses its last two characters, any other id is unchanged. *)
Definition trims_as_specified (id : string) : Prop :=
  TrimPairInfo id = if has_pair_mark id then without_last_two id else id.







(** The [n]-th node up the parent chain of [t]. *)
Fixpoint nth_parent (tax : Taxonomy) (n : nat) (t : Z) : Z :=
  match n with
  | O => t
  | S n' => nth_parent tax n' (parent_id (node_at tax t))
  end.

(** The records of a single-file batch that holds the given mate pairs. *)
Fixpoint interleaved (pairs : list (Sequence * Sequence)) : list Sequence :=
  match pairs with
  | [] => []
  | (s1, s2) :: pairs' => s1 :: s2 :: interleaved pairs'
  end.

(** The order the specification asks [ResolveTree] to visit the
    candidates in: by increasing taxon id. *)
Fixpoint insert_by_taxid (kv : Z * Z) (l : list (Z * Z)) : list (Z * Z) :=
  match l with
  | [] => [kv]
  | kv' :: l' =>
      if fst kv <=? fst kv' then kv :: l else kv' :: insert_by_taxid kv l'
  end.

Definition sort_by_taxid (l : list (Z * Z)) : list (Z * Z) :=
  fold_right insert_by_taxid [] l.

(** C9's premise as the specification states it: the winners that phase 1
    goes through are those of a visit of the candidates sorted by id. *)
Definition visits_sorted {collab : Collaborators} (tax : Taxonomy)
    (hit_counts : taxon_counts_t) : Prop :=
  phase1_trace tax hit_counts
  = phase1_trace_from tax hit_counts (sort_by_taxid hit_counts) (0, 0).

(** A running winner of phase 1: no taxon yet, or a node of [V]. *)
Definition winner_in (V : Z -> Prop) (st : Z * Z) : Prop :=
  fst st = 0 \/ V (fst st).

(** [c] is the deepest node on the chains of both [a] and [b]. *)
Definition deepest_shared (tax : Taxonomy) (a b c : Z) : Prop :=
  valid_taxon tax c
  /\ In c (ancestors tax a) /\ In c (ancestors tax b)
  /\ forall x, In x (ancestors tax a) -> In x (ancestors tax b) ->
               In x (ancestors tax c).


(** ** Further notions used to state properties of the code *)

(** The trail a list of runs stands for. *)
Definition expand_runs (rs : list (Z * Z)) : list Z :=
  flat_map (fun r => repeat (fst r) (Z.to_nat (snd r))) rs.

(** No two neighbouring runs carry the same code. *)
Fixpoint runs_maximal (rs : list (Z * Z)) : Prop :=
  match rs with
  | r1 :: ((r2 :: _) as rs') => fst r1 <> fst r2 /\ runs_maximal rs'
  | _ => True
  end.

(** The runs with the length of every border run forgotten. *)
Definition forget_border_counts (rs : list (Z * Z)) : list (Z * Z) :=
  map (fun r => if is_border (fst r) then (fst r, 1) else r) rs.

(** [hit_counts[t]] without the insertion: 0 for a missing key. *)
Definition hc_count (hc : taxon_counts_t) (t : Z) : Z :=
  match hc_get hc t with
  | Some v => v
  | None => 0
  end.

(** How often [t] occurs in a trail. *)
Definition occurrences (t : Z) (taxa : list Z) : Z :=
  Z.of_nat (count_occ Z.eq_dec taxa t).

(** The test of lines 796-800: the lookup of [m] is skipped. *)
Definition lookup_skipped {collab : Collaborators} (idx_opts : IndexOptions)
    (m : Z) : bool :=
  negb (minimum_acceptable_hash_value idx_opts =? 0)
  && (MurmurHash3 m <? minimum_acceptable_hash_value idx_opts).

(** [hit_counts] agrees with the trail: no key is 0, keys are unique, and
    a taxon that is neither 0 nor reserved is counted as often as it
    stands in the trail (in 32 bits). *)
Definition hits_match_trail (hc : taxon_counts_t) (taxa : list Z) : Prop :=
  NoDup (map fst hc)
  /\ ~ In 0 (map fst hc)
  /\ forall t, t <> 0 -> is_sentinel t = false ->
       hc_count hc t = wrap32 (occurrences t taxa).

(** Nothing was found so far: what the loops have done leaves no hit. *)
Definition no_hit_state (counts0 : taxon_counters_t) (st : ScanState)
    : Prop :=
  hit_counts st = []
  /\ minimizer_hit_groups st = 0
  /\ curr_taxon_counts st = counts0
  /\ finished_searching st = false
  /\ Forall (fun t => t = 0 \/ is_sentinel t = true) (taxa st).

(** The sequences that [ClassifySequence] loads into the scanner for a
    fragment: the frames of the first mate and, in paired mode, those of
    the second. *)
Definition fragment_frames {collab : Collaborators} (opts : Options)
    (dna dna2 : Sequence) : list string :=
  frames_of opts (seq dna)
  ++ (if paired_end_processing opts then frames_of opts (seq dna2) else []).

(** No minimizer of the fragment is found: its lookup is skipped by the
    hash filter or the index returns 0; and none is the all-ones word. *)
Definition nothing_found {collab : Collaborators} (idx_opts : IndexOptions)
    (opts : Options) (dna dna2 : Sequence) : Prop :=
  forall f m amb,
    In f (fragment_frames opts dna dna2) ->
    In (m, amb) (scanner_minimizers f) ->
    m <> UINT64_MAX
    /\ (lookup_skipped idx_opts m = true \/ hash_Get m = 0).

(** The fragments the loop of lines 540-591 takes out of a batch: single
    reads, or the pairs formed from one or from two readers. *)
Fixpoint fragments (opts : Options) (reader1 reader2 : list Sequence)
    : list (Sequence * Sequence) :=
  match reader1 with
  | [] => []
  | seq1 :: reader1' =>
      if paired_end_processing opts then
        if single_file_pairs opts then
          match reader1' with
          | [] => []
          | seq2 :: reader1'' => (seq1, seq2) :: fragments opts reader1'' reader2
          end
        else
          match reader2 with
          | [] => []
          | seq2 :: reader2' => (seq1, seq2) :: fragments opts reader1' reader2'
          end
      else (seq1, empty_sequence) :: fragments opts reader1' reader2
  end.

(** The bases of a fragment as [total_bases] counts them. *)
Definition fragment_bases (opts : Options) (f : Sequence * Sequence) : Z :=
  Z.of_nat (String.length (seq (fst f)))
  + (if paired_end_processing opts
     then Z.of_nat (String.length (seq (snd f))) else 0).

Definition batch_bases (opts : Options) (fs : list (Sequence * Sequence))
    : Z :=
  fold_right (fun f acc => fragment_bases opts f + acc) 0 fs.

(** A record that [MaskLowQualityBases] accepts: FASTA, or FASTQ with as
    many qualities as bases. *)
Definition record_maskable (s : Sequence) : Prop :=
  format s = FORMAT_FASTA \/ String.length (seq s) = String.length (quals s).

(** The masking of lines 555-559 does not leave the process on this
    fragment. *)
Definition fragment_maskable (opts : Options) (f : Sequence * Sequence)
    : Prop :=
  0 < minimum_quality_score opts ->
  record_maskable (fst f)
  /\ (paired_end_processing opts = true -> record_maskable (snd f)).

(** The index belongs to the taxonomy: what a lookup returns is 0 or a
    node of the table. *)
Definition index_in_taxonomy {collab : Collaborators} (tax : Taxonomy)
    : Prop :=
  forall m, hash_Get m = 0 \/ valid_taxon tax (hash_Get m).

(** Every key of [hit_counts] is a node of the taxonomy. *)
Definition keys_valid (tax : Taxonomy) (hc : taxon_counts_t) : Prop :=
  Forall (fun kv => valid_taxon tax (fst kv)) hc.

(** ** Runs of the output protocol that end at end of input

    A run of the workers in which, once a read has failed, no later read
    succeeds (the readers stay at end of input).  [run r e s]: the state
    [s] is reached after [r] batches were read, and [e] tells whether a
    read has failed. *)
Inductive run (sink_open : nat -> bool)
    : nat -> bool -> OutputOrder.State -> Prop :=
| run_initial : run sink_open 0 false OutputOrder.initial
| run_read : forall r s t,
    run sink_open r false s ->
    OutputOrder.pc s t = OutputOrder.AtRead ->
    run sink_open (S r) false
      (OutputOrder.after_read s t
         (OutputOrder.Classifying (OutputOrder.next_input_block_id s)))
| run_eof : forall r e s t,
    run sink_open r e s ->
    OutputOrder.pc s t = OutputOrder.AtRead ->
    run sink_open r true (OutputOrder.after_read s t OutputOrder.Left)
| run_push : forall r e s t b d,
    run sink_open r e s ->
    OutputOrder.pc s t = OutputOrder.Classifying b ->
    OutputOrder.in_critical s = None ->
    block_id d = b ->
    run sink_open r e (OutputOrder.after_push s t d)
| run_drain_empty : forall r e s t,
    run sink_open r e s ->
    OutputOrder.pc s t = OutputOrder.AtDrain ->
    OutputOrder.in_critical s = None ->
    OutputOrder.output_queue s = [] ->
    run sink_open r e (OutputOrder.set_pc s t OutputOrder.AtRead)
| run_drain_later : forall r e s t d,
    run sink_open r e s ->
    OutputOrder.pc s t = OutputOrder.AtDrain ->
    OutputOrder.in_critical s = None ->
    OutputOrder.pq_top (OutputOrder.output_queue s) = Some d ->
    block_id d <> OutputOrder.next_output_block_id s ->
    run sink_open r e (OutputOrder.set_pc s t OutputOrder.AtRead)
| run_drain_pop : forall r e s t d,
    run sink_open r e s ->
    OutputOrder.pc s t = OutputOrder.AtDrain ->
    OutputOrder.in_critical s = None ->
    OutputOrder.pq_top (OutputOrder.output_queue s) = Some d ->
    block_id d = OutputOrder.next_output_block_id s ->
    run sink_open r e (OutputOrder.after_pop s t d)
| run_lock : forall r e s t d,
    run sink_open r e s ->
    OutputOrder.pc s t = OutputOrder.WaitLock d ->
    OutputOrder.output_lock s = None ->
    run sink_open r e (OutputOrder.after_lock s t d)
| run_write : forall r e s t d k,
    run sink_open r e s ->
    OutputOrder.pc s t = OutputOrder.Writing d k ->
    (k < 5)%nat ->
    run sink_open r e (OutputOrder.after_write sink_open s t d k)
| run_unlock : forall r e s t d,
    run sink_open r e s ->
    OutputOrder.pc s t = OutputOrder.Writing d 5 ->
    run sink_open r e (OutputOrder.after_unlock s t).

(** Blocks taken off the queue so far, when [n] of them were given the
    lock: one more while a thread waits for the lock. *)
Definition taken_off (s : OutputOrder.State) (n : nat) : nat :=
  match OutputOrder.in_critical s with
  | Some _ => S n
  | None => n
  end.

Definition queue_ids (s : OutputOrder.State) : list Z :=
  map block_id (OutputOrder.output_queue s).

(** A thread that still has a block to hand over or to write, or that
    will look at the queue again. *)
Definition busy (p : OutputOrder.Pc) : Prop :=
  match p with
  | OutputOrder.AtRead | OutputOrder.Left => False
  | _ => True
  end.

(** Every block read and not yet taken off the queue is in the queue or
    with the thread that classifies it, once; and somebody will look at a
    non-empty queue. *)
Definition blocks_accounted (r : nat) (e : bool) (s : OutputOrder.State)
    (n : nat) : Prop :=
  (e = false -> OutputOrder.next_input_block_id s = Z.of_nat r)
  /\ (taken_off s n <= r)%nat
  /\ (forall b, In b (queue_ids s) ->
        exists i, b = Z.of_nat i /\ (taken_off s n <= i < r)%nat)
  /\ NoDup (queue_ids s)
  /\ (forall t b, OutputOrder.pc s t = OutputOrder.Classifying b ->
        ~ In b (queue_ids s)
        /\ exists i, b = Z.of_nat i /\ (taken_off s n <= i < r)%nat)
  /\ (forall t t' b,
        OutputOrder.pc s t = OutputOrder.Classifying b ->
        OutputOrder.pc s t' = OutputOrder.Classifying b -> t = t')
  /\ (forall i, (taken_off s n <= i < r)%nat ->
        In (Z.of_nat i) (queue_ids s)
        \/ exists t,
             OutputOrder.pc s t = OutputOrder.Classifying (Z.of_nat i))
  /\ (OutputOrder.output_queue s <> [] ->
      exists t, busy (OutputOrder.pc s t)).

(** The run of [Examples.run5] carried on: the other four streams are
    written, the lock is released and the worker finds the queue empty. *)
Module RunExample.
Definition run6 : OutputOrder.State :=
  OutputOrder.after_write Examples.all_open Examples.run5 0 Examples.block0 1.
Definition run7 : OutputOrder.State :=
  OutputOrder.after_write Examples.all_open run6 0 Examples.block0 2.
Definition run8 : OutputOrder.State :=
  OutputOrder.after_write Examples.all_open run7 0 Examples.block0 3.
Definition run9 : OutputOrder.State :=
  OutputOrder.after_write Examples.all_open run8 0 Examples.block0 4.
Definition run10 : OutputOrder.State := OutputOrder.after_unlock run9 0.
Definition run11 : OutputOrder.State :=
  OutputOrder.set_pc run10 0 OutputOrder.AtRead.
End RunExample.

(** ** ProcessFiles: the pool of spare output buffers (classify.cc 482,
       631-662)

    [buffers] is a vector of spare [OutputData] objects shared by the
    workers and touched only inside [critical(output_queue)].  A worker
    that has pushed its block takes a spare from the pool when it leaves
    the drain loop without having popped anything, and hands the block it
    has written back before it looks at the queue again.  Every field of
    [out_data] is assigned at lines 612-617 before the object is used, so
    of the vector only its size is kept. *)

Module BufferPool.

Record Pool := mkPool {
  shared : OutputOrder.State;
  buffers_size : nat;                (* [buffers.size()] *)
  borrowed_buffer : nat -> bool      (* the flag of each worker *)
}.

Section Workers.
Variable sink_open : nat -> bool.
(** [omp_get_max_threads()] *)
Variable max_threads : nat.

(** Line 482. *)
Definition initial : Pool :=
  mkPool OutputOrder.initial (max_threads * 2) (fun _ => false).

(** Lines 640-642: a worker that holds a written block hands it back
    when the queue is not empty. *)
Definition returned (s : Pool) (t : nat) : nat :=
  if borrowed_buffer s t then S (buffers_size s) else buffers_size s.

(** Lines 655-660: [back()] and [pop_back()] under the guard
    [buffers.size() > 0]. *)
Definition take_guarded (n : nat) : nat :=
  if (0 <? n)%nat then (n - 1)%nat else n.

Inductive step : Pool -> Pool -> Prop :=
(* lines 507-530 *)
| pool_read : forall s t,
    OutputOrder.pc (shared s) t = OutputOrder.AtRead ->
    step s
      (mkPool
         (OutputOrder.after_read (shared s) t
            (OutputOrder.Classifying
               (OutputOrder.next_input_block_id (shared s))))
         (buffers_size s) (borrowed_buffer s))
| pool_eof : forall s t,
    OutputOrder.pc (shared s) t = OutputOrder.AtRead ->
    step s
      (mkPool (OutputOrder.after_read (shared s) t OutputOrder.Left)
         (buffers_size s) (borrowed_buffer s))
(* lines 612-622 and 631-632: the block is pushed, the flag starts false *)
| pool_push : forall s t b d,
    OutputOrder.pc (shared s) t = OutputOrder.Classifying b ->
    OutputOrder.in_critical (shared s) = None ->
    block_id d = b ->
    step s
      (mkPool (OutputOrder.after_push (shared s) t d)
         (buffers_size s) (OutputOrder.upd (borrowed_buffer s) t false))
(* lines 636-639, 664: the queue is empty; a worker that has not popped
   anything takes [buffers.back()], with no guard *)
| pool_drain_empty : forall s t,
    OutputOrder.pc (shared s) t = OutputOrder.AtDrain ->
    OutputOrder.in_critical (shared s) = None ->
    OutputOrder.output_queue (shared s) = [] ->
    step s
      (mkPool (OutputOrder.set_pc (shared s) t OutputOrder.AtRead)
         (if borrowed_buffer s t then buffers_size s
          else (buffers_size s - 1)%nat)
         (borrowed_buffer s))
(* lines 640-645, 653-661: the head is not the next block *)
| pool_drain_later : forall s t d,
    OutputOrder.pc (shared s) t = OutputOrder.AtDrain ->
    OutputOrder.in_critical (shared s) = None ->
    OutputOrder.pq_top (OutputOrder.output_queue (shared s)) = Some d ->
    block_id d <> OutputOrder.next_output_block_id (shared s) ->
    step s
      (mkPool (OutputOrder.set_pc (shared s) t OutputOrder.AtRead)
         (take_guarded (returned s t)) (borrowed_buffer s))
(* lines 640-648: the head is the next block *)
| pool_drain_pop : forall s t d,
    OutputOrder.pc (shared s) t = OutputOrder.AtDrain ->
    OutputOrder.in_critical (shared s) = None ->
    OutputOrder.pq_top (OutputOrder.output_queue (shared s)) = Some d ->
    block_id d = OutputOrder.next_output_block_id (shared s) ->
    step s
      (mkPool (OutputOrder.after_pop (shared s) t d)
         (returned s t) (OutputOrder.upd (borrowed_buffer s) t true))
(* lines 651-652 *)
| pool_lock : forall s t d,
    OutputOrder.pc (shared s) t = OutputOrder.WaitLock d ->
    OutputOrder.output_lock (shared s) = None ->
    step s
      (mkPool (OutputOrder.after_lock (shared s) t d)
         (buffers_size s) (borrowed_buffer s))
(* lines 666-675 *)
| pool_write : forall s t d k,
    OutputOrder.pc (shared s) t = OutputOrder.Writing d k ->
    (k < 5)%nat ->
    step s
      (mkPool (OutputOrder.after_write sink_open (shared s) t d k)
         (buffers_size s) (borrowed_buffer s))
(* line 676 *)
| pool_unlock : forall s t d,
    OutputOrder.pc (shared s) t = OutputOrder.Writing d 5 ->
    step s
      (mkPool (OutputOrder.after_unlock (shared s) t)
         (buffers_size s) (borrowed_buffer s)).

Inductive reachable : Pool -> Prop :=
| reach_initial : reachable initial
| reach_step : forall s s', reachable s -> step s s' -> reachable s'.

(** A worker that has pushed its block and has not yet looked at the
    queue, or has looked and popped nothing so far. *)
Definition empty_handed (s : Pool) (t : nat) : Prop :=
  OutputOrder.pc (shared s) t = OutputOrder.AtDrain
  /\ borrowed_buffer s t = false.

(** The worker [t] is about to run lines 638-639: it is at the top of the
    drain loop with the flag false, the region is free and the queue is
    empty. *)
Definition takes_unguarded (s : Pool) (t : nat) : Prop :=
  empty_handed s t
  /\ OutputOrder.in_critical (shared s) = None
  /\ OutputOrder.output_queue (shared s) = [].

(** The spare buffers and the queued blocks together are at least the
    initial pool and one more for each empty-handed worker in [ws]. *)
Definition pool_inv (s : Pool) (ws : list nat) : Prop :=
  NoDup ws
  /\ (forall t, In t ws <-> empty_handed s t)
  /\ (forall t d, OutputOrder.pc (shared s) t = OutputOrder.WaitLock d ->
        borrowed_buffer s t = true)
  /\ (forall t d k, OutputOrder.pc (shared s) t = OutputOrder.Writing d k ->
        borrowed_buffer s t = true)
  /\ (max_threads * 2 + List.length ws
      <= buffers_size s
         + List.length (OutputOrder.output_queue (shared s)))%nat.

End Workers.
End BufferPool.

(** Two workers and a pool of two spares: worker 0 pushes block 0 and is
    overtaken by worker 1, which pushes block 1, writes block 0, hands it
    back and pops block 1.  Worker 0 then finds the queue empty. *)
Module PoolExample.
Definition block1 : OutputData :=
  mkOutputData 1 "more"%string EmptyString EmptyString EmptyString
    EmptyString.
Definition on (s : BufferPool.Pool) (o : OutputOrder.State)
    : BufferPool.Pool :=
  BufferPool.mkPool o (BufferPool.buffers_size s)
    (BufferPool.borrowed_buffer s).
Definition pool0 : BufferPool.Pool := BufferPool.initial 1.
Definition pool1 : BufferPool.Pool :=
  on pool0
    (OutputOrder.after_read (BufferPool.shared pool0) 0
       (OutputOrder.Classifying 0)).
Definition pool2 : BufferPool.Pool :=
  BufferPool.mkPool
    (OutputOrder.after_push (BufferPool.shared pool1) 0 Examples.block0)
    (BufferPool.buffers_size pool1)
    (OutputOrder.upd (BufferPool.borrowed_buffer pool1) 0 false).
Definition pool3 : BufferPool.Pool :=
  on pool2
    (OutputOrder.after_read (BufferPool.shared pool2) 1
       (OutputOrder.Classifying 1)).
Definition pool4 : BufferPool.Pool :=
  BufferPool.mkPool
    (OutputOrder.after_push (BufferPool.shared pool3) 1 block1)
    (BufferPool.buffers_size pool3)
    (OutputOrder.upd (BufferPool.borrowed_buffer pool3) 1 false).
Definition pool5 : BufferPool.Pool :=
  BufferPool.mkPool
    (OutputOrder.after_pop (BufferPool.shared pool4) 1 Examples.block0)
    (BufferPool.returned pool4 1)
    (OutputOrder.upd (BufferPool.borrowed_buffer pool4) 1 true).
Definition pool6 : BufferPool.Pool :=
  on pool5
    (OutputOrder.after_lock (BufferPool.shared pool5) 1 Examples.block0).
Definition written (s : BufferPool.Pool) (k : nat) : BufferPool.Pool :=
  on s
    (OutputOrder.after_write Examples.all_open (BufferPool.shared s) 1
       Examples.block0 k).
Definition pool11 : BufferPool.Pool :=
  written (written (written (written (written pool6 0) 1) 2) 3) 4.
Definition pool12 : BufferPool.Pool :=
  on pool11 (OutputOrder.after_unlock (BufferPool.shared pool11) 1).
Definition pool13 : BufferPool.Pool :=
  BufferPool.mkPool
    (OutputOrder.after_pop (BufferPool.shared pool12) 1 block1)
    (BufferPool.returned pool12 1)
    (OutputOrder.upd (BufferPool.borrowed_buffer pool12) 1 true).
Definition pool14 : BufferPool.Pool :=
  on pool13 (OutputOrder.after_lock (BufferPool.shared pool13) 1 block1).
End PoolExample.

(** ** classify: the loop over the input files (classify.cc 278-295)

    [ProcessFiles] is taken as it is called: with the two file names
    ([nullptr] as [None]) and the state it updates through its reference
    arguments (statistics, output streams, taxon counters); it may leave
    the process.  The indices are [size_t] values bounded by the size of
    the vector and are kept as [nat]. *)
Section Files.
Variable St : Type.
Variable ProcessFiles : option string -> option string -> St -> Run St.

(** Lines 284-294, from index [i] on.  The loop runs at most once per
    file name, which bounds the fuel. *)
Fixpoint file_loop (fuel : nat) (opts : Options) (filenames : list string)
    (i : nat) (st : St) : Run St :=
  match fuel with
  | O => OutOfFuel
  | S fuel' =>
      if (i <? List.length filenames)%nat then
        if paired_end_processing opts && negb (single_file_pairs opts) then
          if (i + 1 =? List.length filenames)%nat then Exited
          else
            run_bind
              (ProcessFiles (Some (nth i filenames EmptyString))
                 (Some (nth (i + 1) filenames EmptyString)) st)
              (file_loop fuel' opts filenames (i + 1 + 1))
        else
          run_bind
            (ProcessFiles (Some (nth i filenames EmptyString)) None st)
            (file_loop fuel' opts filenames (i + 1))
      else Finished st
  end.

(** Lines 278-295. *)
Definition classify_files (opts : Options) (filenames : list string)
    (st : St) : Run St :=
  match filenames with
  | [] =>
      if paired_end_processing opts && negb (single_file_pairs opts)
      then Exited
      else ProcessFiles None None st
  | _ :: _ => file_loop (S (List.length filenames)) opts filenames 0 st
  end.

(** One call after the other, as long as each returns. *)
Definition process_all (calls : list (option string * option string))
    (st : St) : Run St :=
  fold_left (fun r c => run_bind r (ProcessFiles (fst c) (snd c)))
    calls (Finished st).

End Files.

(** The file names of a list of pairs, in order. *)
Fixpoint flatten_pairs (ps : list (string * string)) : list string :=
  match ps with
  | [] => []
  | (a, b) :: ps' => a :: b :: flatten_pairs ps'
  end.

Definition option_list {A : Type} (o : option A) : list A :=
  match o with
  | None => []
  | Some a => [a]
  end.

(** A stand-in for [ProcessFiles] that records the file names it is
    called with. *)
Module FilesExample.
Definition Calls : Type := list (option string * option string).
Definition log_call (f1 f2 : option string) (log : Calls) : Run Calls :=
  Finished (log ++ [(f1, f2)]).
End FilesExample.

(** ** Options::reset and ParseCommandLine (classify.cc 39-89, 1019-1114)

    [struct Options] with all its fields; the nine that the classifier
    reads are the record [Options] above, kept here as [core].  What
    leaves a function other than its return is kept apart: [exit] with
    its status (from [usage] and [errx]) and an exception that nothing
    catches. *)

Inductive Proc (A : Type) : Type :=
| Ret (a : A)
| Exit (status : Z)
| Throw.
Arguments Ret {A} a.
Arguments Exit {A} status.
Arguments Throw {A}.

Definition proc_bind {A B : Type} (p : Proc A) (k : A -> Proc B) : Proc B :=
  match p with
  | Ret a => k a
  | Exit status => Exit status
  | Throw => Throw
  end.

(** sysexits.h *)
Definition EX_USAGE : Z := 64.

Module CommandLine.

Record CommandOptions := mkCommand {
  core : Options;
  index_filename : string;
  taxonomy_filename : string;
  options_filename : string;
  classified_output_filename : string;
  unclassified_output_filename : string;
  kraken_output_filename : string;
  mpa_style_report : bool;
  report_kmer_data : bool;
  report_zero_counts : bool;
  num_threads : Z;
  use_memory_mapping : bool;
  match_input_order : bool;
  filenames : list string;
  daemon_mode : bool
}.

(** Lines 64-88.  [match_input_order] is not assigned. *)
Definition reset (o : CommandOptions) : CommandOptions :=
  mkCommand (mkOptions EmptyString false false false 0 false false 0 0)
    EmptyString EmptyString EmptyString EmptyString EmptyString EmptyString
    false false false 1 false (match_input_order o) [] false.

(** Assignments to one member. *)
Definition set_core (o : CommandOptions) (c : Options) : CommandOptions :=
  mkCommand c (index_filename o) (taxonomy_filename o) (options_filename o)
    (classified_output_filename o) (unclassified_output_filename o)
    (kraken_output_filename o) (mpa_style_report o) (report_kmer_data o)
    (report_zero_counts o) (num_threads o) (use_memory_mapping o)
    (match_input_order o) (filenames o) (daemon_mode o).

Definition set_report_filename (o : CommandOptions) (v : string)
    : CommandOptions :=
  let c := core o in
  set_core o
    (mkOptions v (quick_mode c) (use_translated_search c)
       (print_scientific_name c) (confidence_threshold c)
       (paired_end_processing c) (single_file_pairs c)
       (minimum_quality_score c) (minimum_hit_groups c)).

Definition set_quick_mode (o : CommandOptions) (v : bool) : CommandOptions :=
  let c := core o in
  set_core o
    (mkOptions (report_filename c) v (use_translated_search c)
       (print_scientific_name c) (confidence_threshold c)
       (paired_end_processing c) (single_file_pairs c)
       (minimum_quality_score c) (minimum_hit_groups c)).

Definition set_print_scientific_name (o : CommandOptions) (v : bool)
    : CommandOptions :=
  let c := core o in
  set_core o
    (mkOptions (report_filename c) (quick_mode c) (use_translated_search c)
       v (confidence_threshold c)
       (paired_end_processing c) (single_file_pairs c)
       (minimum_quality_score c) (minimum_hit_groups c)).

Definition set_confidence_threshold (o : CommandOptions) (v : Q)
    : CommandOptions :=
  let c := core o in
  set_core o
    (mkOptions (report_filename c) (quick_mode c) (use_translated_search c)
       (print_scientific_name c) v
       (paired_end_processing c) (single_file_pairs c)
       (minimum_quality_score c) (minimum_hit_groups c)).

Definition set_paired_end_processing (o : CommandOptions) (v : bool)
    : CommandOptions :=
  let c := core o in
  set_core o
    (mkOptions (report_filename c) (quick_mode c) (use_translated_search c)
       (print_scientific_name c) (confidence_threshold c)
       v (single_file_pairs c)
       (minimum_quality_score c) (minimum_hit_groups c)).

Definition set_single_file_pairs (o : CommandOptions) (v : bool)
    : CommandOptions :=
  let c := core o in
  set_core o
    (mkOptions (report_filename c) (quick_mode c) (use_translated_search c)
       (print_scientific_name c) (confidence_threshold c)
       (paired_end_processing c) v
       (minimum_quality_score c) (minimum_hit_groups c)).

Definition set_minimum_quality_score (o : CommandOptions) (v : Z)
    : CommandOptions :=
  let c := core o in
  set_core o
    (mkOptions (report_filename c) (quick_mode c) (use_translated_search c)
       (print_scientific_name c) (confidence_threshold c)
       (paired_end_processing c) (single_file_pairs c)
       v (minimum_hit_groups c)).

Definition set_minimum_hit_groups (o : CommandOptions) (v : Z)
    : CommandOptions :=
  let c := core o in
  set_core o
    (mkOptions (report_filename c) (quick_mode c) (use_translated_search c)
       (print_scientific_name c) (confidence_threshold c)
       (paired_end_processing c) (single_file_pairs c)
       (minimum_quality_score c) v).

Definition set_index_filename (o : CommandOptions) (v : string)
    : CommandOptions :=
  mkCommand (core o) v (taxonomy_filename o) (options_filename o)
    (classified_output_filename o) (unclassified_output_filename o)
    (kraken_output_filename o) (mpa_style_report o) (report_kmer_data o)
    (report_zero_counts o) (num_threads o) (use_memory_mapping o)
    (match_input_order o) (filenames o) (daemon_mode o).

Definition set_taxonomy_filename (o : CommandOptions) (v : string)
    : CommandOptions :=
  mkCommand (core o) (index_filename o) v (options_filename o)
    (classified_output_filename o) (unclassified_output_filename o)
    (kraken_output_filename o) (mpa_style_report o) (report_kmer_data o)
    (report_zero_counts o) (num_threads o) (use_memory_mapping o)
    (match_input_order o) (filenames o) (daemon_mode o).

Definition set_options_filename (o : CommandOptions) (v : string)
    : CommandOptions :=
  mkCommand (core o) (index_filename o) (taxonomy_filename o) v
    (classified_output_filename o) (unclassified_output_filename o)
    (kraken_output_filename o) (mpa_style_report o) (report_kmer_data o)
    (report_zero_counts o) (num_threads o) (use_memory_mapping o)
    (match_input_order o) (filenames o) (daemon_mode o).

Definition set_classified_output_filename (o : CommandOptions) (v : string)
    : CommandOptions :=
  mkCommand (core o) (index_filename o) (taxonomy_filename o)
    (options_filename o) v (unclassified_output_filename o)
    (kraken_output_filename o) (mpa_style_report o) (report_kmer_data o)
    (report_zero_counts o) (num_threads o) (use_memory_mapping o)
    (match_input_order o) (filenames o) (daemon_mode o).

Definition set_unclassified_output_filename (o : CommandOptions)
    (v : string) : CommandOptions :=
  mkCommand (core o) (index_filename o) (taxonomy_filename o)
    (options_filename o) (classified_output_filename o) v
    (kraken_output_filename o) (mpa_style_report o) (report_kmer_data o)
    (report_zero_counts o) (num_threads o) (use_memory_mapping o)
    (match_input_order o) (filenames o) (daemon_mode o).

Definition set_kraken_output_filename (o : CommandOptions) (v : string)
    : CommandOptions :=
  mkCommand (core o) (index_filename o) (taxonomy_filename o)
    (options_filename o) (classified_output_filename o)
    (unclassified_output_filename o) v (mpa_style_report o)
    (report_kmer_data o) (report_zero_counts o) (num_threads o)
    (use_memory_mapping o) (match_input_order o) (filenames o)
    (daemon_mode o).

Definition set_mpa_style_report (o : CommandOptions) (v : bool)
    : CommandOptions :=
  mkCommand (core o) (index_filename o) (taxonomy_filename o)
    (options_filename o) (classified_output_filename o)
    (unclassified_output_filename o) (kraken_output_filename o) v
    (report_kmer_data o) (report_zero_counts o) (num_threads o)
    (use_memory_mapping o) (match_input_order o) (filenames o)
    (daemon_mode o).

Definition set_report_kmer_data (o : CommandOptions) (v : bool)
    : CommandOptions :=
  mkCommand (core o) (index_filename o) (taxonomy_filename o)
    (options_filename o) (classified_output_filename o)
    (unclassified_output_filename o) (kraken_output_filename o)
    (mpa_style_report o) v (report_zero_counts o) (num_threads o)
    (use_memory_mapping o) (match_input_order o) (filenames o)
    (daemon_mode o).

Definition set_report_zero_counts (o : CommandOptions) (v : bool)
    : CommandOptions :=
  mkCommand (core o) (index_filename o) (taxonomy_filename o)
    (options_filename o) (classified_output_filename o)
    (unclassified_output_filename o) (kraken_output_filename o)
    (mpa_style_report o) (report_kmer_data o) v (num_threads o)
    (use_memory_mapping o) (match_input_order o) (filenames o)
    (daemon_mode o).

Definition set_num_threads (o : CommandOptions) (v : Z) : CommandOptions :=
  mkCommand (core o) (index_filename o) (taxonomy_filename o)
    (options_filename o) (classified_output_filename o)
    (unclassified_output_filename o) (kraken_output_filename o)
    (mpa_style_report o) (report_kmer_data o) (report_zero_counts o) v
    (use_memory_mapping o) (match_input_order o) (filenames o)
    (daemon_mode o).

Definition set_use_memory_mapping (o : CommandOptions) (v : bool)
    : CommandOptions :=
  mkCommand (core o) (index_filename o) (taxonomy_filename o)
    (options_filename o) (classified_output_filename o)
    (unclassified_output_filename o) (kraken_output_filename o)
    (mpa_style_report o) (report_kmer_data o) (report_zero_counts o)
    (num_threads o) v (match_input_order o) (filenames o) (daemon_mode o).

Definition set_filenames (o : CommandOptions) (v : list string)
    : CommandOptions :=
  mkCommand (core o) (index_filename o) (taxonomy_filename o)
    (options_filename o) (classified_output_filename o)
    (unclassified_output_filename o) (kraken_output_filename o)
    (mpa_style_report o) (report_kmer_data o) (report_zero_counts o)
    (num_threads o) (use_memory_mapping o) (match_input_order o) v
    (daemon_mode o).

Definition set_daemon_mode (o : CommandOptions) (v : bool)
    : CommandOptions :=
  mkCommand (core o) (index_filename o) (taxonomy_filename o)
    (options_filename o) (classified_output_filename o)
    (unclassified_output_filename o) (kraken_output_filename o)
    (mpa_style_report o) (report_kmer_data o) (report_zero_counts o)
    (num_threads o) (use_memory_mapping o) (match_input_order o)
    (filenames o) v.

Section Parse.
(** [std::stod] on an option argument: the value, or [None] when it
    throws.  The threshold is a rational as in [Options]. *)
Variable stod : string -> option Q.
(** [atoi] *)
Variable atoi : string -> Z.

Definition opt_is (opt : ascii) (c : ascii) : bool := Ascii.eqb opt c.

(** Lines 1023-1093: the [switch] on what [getopt] returned, with
    [optarg]. *)
Definition on_option (opt : ascii) (optarg : string) (o : CommandOptions)
    : Proc CommandOptions :=
  if opt_is opt "h" || opt_is opt "?" then Exit 0
  else if opt_is opt "H" then Ret (set_index_filename o optarg)
  else if opt_is opt "t" then Ret (set_taxonomy_filename o optarg)
  else if opt_is opt "T" then
    match stod optarg with
    | None => Throw
    | Some q =>
        if negb (Qle_bool 0 q) || negb (Qle_bool q 1) then Exit EX_USAGE
        else Ret (set_confidence_threshold o q)
    end
  else if opt_is opt "o" then Ret (set_options_filename o optarg)
  else if opt_is opt "q" then Ret (set_quick_mode o true)
  else if opt_is opt "p" then
    if atoi optarg <? 1 then Exit EX_USAGE
    else Ret (set_num_threads o (atoi optarg))
  else if opt_is opt "g" then Ret (set_minimum_hit_groups o (atoi optarg))
  else if opt_is opt "P" then Ret (set_paired_end_processing o true)
  else if opt_is opt "S" then
    Ret (set_single_file_pairs (set_paired_end_processing o true) true)
  else if opt_is opt "m" then Ret (set_mpa_style_report o true)
  else if opt_is opt "K" then Ret (set_report_kmer_data o true)
  else if opt_is opt "R" then Ret (set_report_filename o optarg)
  else if opt_is opt "z" then Ret (set_report_zero_counts o true)
  else if opt_is opt "C" then Ret (set_classified_output_filename o optarg)
  else if opt_is opt "U" then Ret (set_unclassified_output_filename o optarg)
  else if opt_is opt "O" then Ret (set_kraken_output_filename o optarg)
  else if opt_is opt "n" then Ret (set_print_scientific_name o true)
  else if opt_is opt "Q" then Ret (set_minimum_quality_score o (atoi optarg))
  else if opt_is opt "M" then Ret (set_use_memory_mapping o true)
  else if opt_is opt "D" then Ret (set_daemon_mode o true)
  else Ret o.

(** Line 1022: the loop, over what the calls of [getopt] return until
    -1. *)
Fixpoint option_loop (found : list (ascii * string)) (o : CommandOptions)
    : Proc CommandOptions :=
  match found with
  | [] => Ret o
  | (opt, optarg) :: found' =>
      proc_bind (on_option opt optarg o) (option_loop found')
  end.

(** Lines 1019-1114.  [getopt] is taken by what it returns: the option
    letters with their arguments in [found], and in [operands] the
    arguments from [optind] on. *)
Definition ParseCommandLine (found : list (ascii * string))
    (operands : list string) (opts : CommandOptions)
    : Proc CommandOptions :=
  proc_bind (option_loop found opts) (fun o =>
    if str_empty (index_filename o) || str_empty (taxonomy_filename o)
       || str_empty (options_filename o)
    then Exit EX_USAGE
    else if mpa_style_report o && str_empty (report_filename (core o))
    then Exit EX_USAGE
    else Ret (set_filenames o (filenames o ++ operands))).

End Parse.

(** The letter [c] is among the options found. *)
Definition given (c : ascii) (found : list (ascii * string)) : bool :=
  existsb (fun a => opt_is (fst a) c) found.

End CommandLine.

(** What one option changes of the members the later checks and the
    classifier depend on. *)
Definition option_effect (c : ascii) (o o' : CommandLine.CommandOptions)
    : Prop :=
  single_file_pairs (CommandLine.core o')
  = single_file_pairs (CommandLine.core o) || CommandLine.opt_is c "S"
  /\ paired_end_processing (CommandLine.core o')
     = paired_end_processing (CommandLine.core o)
       || CommandLine.opt_is c "P" || CommandLine.opt_is c "S"
  /\ (1 <= CommandLine.num_threads o -> 1 <= CommandLine.num_threads o')
  /\ use_translated_search (CommandLine.core o')
     = use_translated_search (CommandLine.core o)
  /\ CommandLine.filenames o' = CommandLine.filenames o
  /\ (CommandLine.opt_is c "H" = false ->
      CommandLine.index_filename o' = CommandLine.index_filename o)
  /\ (CommandLine.opt_is c "t" = false ->
      CommandLine.taxonomy_filename o' = CommandLine.taxonomy_filename o)
  /\ (CommandLine.opt_is c "o" = false ->
      CommandLine.options_filename o' = CommandLine.options_filename o)
  /\ CommandLine.opt_is c "h" = false
  /\ CommandLine.opt_is c "?" = false.

(** Side conditions of the invariant of the buffer pool at a concrete
    move. *)
Ltac pool_side :=
  unfold BufferPool.empty_handed, BufferPool.take_guarded,
         BufferPool.returned in *;
  simpl;
  try match goal with
      | B : BufferPool.borrowed_buffer _ _ = _ |- _ => rewrite ?B
      end;
  first
    [ assumption
    | reflexivity
    | discriminate
    | split; assumption
    | intros [? ?]; congruence
    | intros; congruence
    | intros; eauto; fail
    | let t' := fresh "t" in
      intros t'; unfold OutputOrder.upd;
      match goal with
      | |- context [Nat.eqb t' ?t] =>
          destruct (Nat.eqb_spec t' t); subst; congruence
      end
    | simpl; lia
    | match goal with
      | |- context [(0 <? ?n)%nat] => destruct (Nat.ltb_spec 0 n); lia
      end
    | idtac ].

(** The command line [-H hash.k2d -t taxo.k2d -o opts.k2d -S -p 4
    reads.fq], with stand-ins for the two conversions. *)
Module ParseExample.
Definition toy_stod (_ : string) : option Q := Some (1 # 2).
Definition toy_atoi (_ : string) : Z := 4.
Definition blank : CommandLine.CommandOptions :=
  CommandLine.mkCommand
    (mkOptions EmptyString false false false 0 false false 0 0)
    EmptyString EmptyString EmptyString EmptyString EmptyString EmptyString
    false false false 0 false false [] false.
Definition found : list (ascii * string) :=
  [("H"%char, "hash.k2d"%string); ("t"%char, "taxo.k2d"%string);
   ("o"%char, "opts.k2d"%string); ("S"%char, EmptyString);
   ("p"%char, "4"%string)].
Definition operands : list string := ["reads.fq"%string].
Definition parsed : CommandLine.CommandOptions :=
  CommandLine.mkCommand
    (mkOptions EmptyString false false false 0 true true 0 0)
    "hash.k2d"%string "taxo.k2d"%string "opts.k2d"%string
    EmptyString EmptyString EmptyString
    false false false 4 false false ["reads.fq"%string] false.
End ParseExample.

(** ** TokenizeString (classify.cc 314-331)

    [strtok] with the separator [" "], as the C library defines it: a
    call skips the separators at the saved position; at the end of the
    string it returns [NULL]; otherwise the token runs up to the next
    separator, which is overwritten by the terminator, and the position
    after it is saved (the end of the string, if there was none). *)

Definition is_sep (c : ascii) : bool := Ascii.eqb c " ".

Fixpoint skip_seps (s : string) : string :=
  match s with
  | EmptyString => EmptyString
  | String c s' => if is_sep c then skip_seps s' else s
  end.

(** The token at the head of [s] and the position saved after it. *)
Fixpoint take_token (s : string) : string * string :=
  match s with
  | EmptyString => (EmptyString, EmptyString)
  | String c s' =>
      if is_sep c then (EmptyString, s')
      else let (token, saved) := take_token s' in (String c token, saved)
  end.

Definition strtok (saved : string) : option (string * string) :=
  match skip_seps saved with
  | EmptyString => None
  | s => Some (take_token s)
  end.

(** Lines 321-328: one copy of every token is pushed.  Each call of
    [strtok] moves the saved position on, which bounds the fuel. *)
Fixpoint tokenize_loop (fuel : nat) (saved : string) (argv : list string)
    : option (list string) :=
  match fuel with
  | O => None
  | S fuel' =>
      match strtok saved with
      | None => Some argv
      | Some (token, saved') => tokenize_loop fuel' saved' (argv ++ [token])
      end
  end.

(** Lines 314-331; [argv.resize(0)] empties the vector first. *)
Definition TokenizeString (str : string) : option (list string) :=
  tokenize_loop (S (String.length str)) str [].

(** A non-empty string without a separator. *)
Fixpoint no_sep (w : string) : bool :=
  match w with
  | EmptyString => true
  | String c w' => negb (is_sep c) && no_sep w'
  end.

Definition is_word (w : string) : bool := negb (str_empty w) && no_sep w.

(** [s] without its separators. *)
Fixpoint drop_seps (s : string) : string :=
  match s with
  | EmptyString => EmptyString
  | String c s' => if is_sep c then drop_seps s' else String c (drop_seps s')
  end.

Fixpoint seps (n : nat) : string :=
  match n with
  | O => EmptyString
  | S n' => String " " (seps n')
  end.

(** A line of words: each is preceded by [fst] further separators and
    followed by one. *)
Fixpoint line_of (ws : list (nat * string)) : string :=
  match ws with
  | [] => EmptyString
  | (n, w) :: ws' => (seps n ++ w ++ String " " (line_of ws'))%string
  end.

(** ** ReportStats (classify.cc 431-461): the elapsed time and the count
       of unclassified sequences

    [struct timeval] with its two signed members.  The differences of
    two times of day are far from the bounds of the member types and are
    taken in [Z]. *)
Record timeval := mkTimeval {
  tv_sec : Z;
  tv_usec : Z
}.

(** Lines 434-439: [time2] after the subtraction and the borrow. *)
Definition ReportStats_elapsed (time1 time2 : timeval) : timeval :=
  let usec := tv_usec time2 - tv_usec time1 in
  let sec := tv_sec time2 - tv_sec time1 in
  if usec <? 0 then mkTimeval (sec - 1) (usec + 1000000)
  else mkTimeval sec usec.

(** Line 444, in [uint64_t]. *)
Definition ReportStats_unclassified (stats : ClassificationStats) : Z :=
  wrap64 (total_sequences stats - total_classified stats).

(** A time of day in microseconds. *)
Definition microseconds (t : timeval) : Z := tv_sec t * 1000000 + tv_usec t.

(** Worker 0 writes block 0 while worker 1 has popped block 1 and waits
    for the lock. *)
Module ExclusionExample.
Definition both1 : OutputOrder.State :=
  OutputOrder.after_read OutputOrder.initial 0 (OutputOrder.Classifying 0).
Definition both2 : OutputOrder.State :=
  OutputOrder.after_read both1 1 (OutputOrder.Classifying 1).
Definition both3 : OutputOrder.State :=
  OutputOrder.after_push both2 0 Examples.block0.
Definition both4 : OutputOrder.State :=
  OutputOrder.after_push both3 1 PoolExample.block1.
Definition both5 : OutputOrder.State :=
  OutputOrder.after_pop both4 0 Examples.block0.
Definition both6 : OutputOrder.State :=
  OutputOrder.after_lock both5 0 Examples.block0.
Definition both7 : OutputOrder.State :=
  OutputOrder.after_pop both6 1 PoolExample.block1.
End ExclusionExample.

(** * Properties *)

(** ** Text *)

Lemma last_char_app (s t : string) :
  t <> EmptyString -> last_char (s ++ t) = last_char t.
Proof.
  intros Ht. induction s as [|c s IH]; simpl; [reflexivity|].
  rewrite IH. destruct (s ++ t)%string eqn:E; [|reflexivity].
  destruct s; simpl in E; [congruence | discriminate].
Qed.

Lemma append_assoc (a b c : string) :
  ((a ++ b) ++ c = a ++ (b ++ c))%string.
Proof. induction a; simpl; congruence. Qed.

Lemma append_nil_r (a : string) : (a ++ "")%string = a.
Proof. induction a; simpl; congruence. Qed.

(** ** TrimPairInfo *)

Lemma get_pair_substring (n : nat) (s : string) :
  (n + 2 <= String.length s)%nat ->
  exists c2 c1,
    String.get n s = Some c2 /\ String.get (S n) s = Some c1
    /\ String.substring n 2 s = String c2 (String c1 EmptyString).
Proof.
  revert s. induction n as [|n IH]; intros s Hlen.
  - destruct s as [|c2 [|c1 s]]; simpl in Hlen; try lia.
    exists c2, c1. repeat split. simpl. destruct s; reflexivity.
  - destruct s as [|c s]; simpl in Hlen; [lia|].
    destruct (IH s) as (c2 & c1 & G2 & G1 & Sub); [lia|].
    exists c2, c1. simpl. rewrite Sub. auto.
Qed.

Lemma pair_mark_test (c2 c1 : ascii) :
  Ascii.eqb c2 "/" && (Ascii.eqb c1 "1" || Ascii.eqb c1 "2")
  = String.eqb (String c2 (String c1 EmptyString)) "/1"
    || String.eqb (String c2 (String c1 EmptyString)) "/2".
Proof.
  simpl. destruct (Ascii.eqb c2 "/"); simpl; [|reflexivity].
  destruct (Ascii.eqb c1 "1"), (Ascii.eqb c1 "2"); reflexivity.
Qed.

Lemma TrimPairInfo_long (id : string) :
  (2 < String.length id)%nat ->
  TrimPairInfo id = if has_pair_mark id then without_last_two id else id.
Proof.
  intros Hlen. unfold TrimPairInfo, has_pair_mark, ends_with, without_last_two.
  destruct (Nat.leb_spec (String.length id) 2) as [H|_]; [lia|].
  destruct (get_pair_substring (String.length id - 2) id)
    as (c2 & c1 & G2 & G1 & Sub); [lia|].
  replace (String.length id - 1)%nat with (S (String.length id - 2)) by lia.
  rewrite G2, G1, pair_mark_test.
  change (String.length "/1") with 2%nat.
  change (String.length "/2") with 2%nat.
  rewrite Sub.
  destruct (Nat.leb_spec 2 (String.length id)) as [_|H]; [|lia].
  reflexivity.
Qed.

Lemma TrimPairInfo_short (id : string) :
  (String.length id <= 2)%nat -> TrimPairInfo id = id.
Proof.
  intros Hlen. unfold TrimPairInfo.
  destruct (Nat.leb_spec (String.length id) 2); [reflexivity | lia].
Qed.

(** C8, as stated, fails: the two-character id "/1" ends with /1 and is
    emitted whole, not with its last two characters removed. *)
Lemma TrimPairInfo_keeps_bare_mark : ~ trims_as_specified "/1".
Proof. unfold trims_as_specified. vm_compute. discriminate. Qed.

(** C8, amended: an id longer than two characters that ends with /1 or /2
    loses its last two characters; every other id, the two-character ids
    "/1" and "/2" among them, is unchanged; and this is the read-id column
    of a paired line. *)
Theorem TrimPairInfo_spec :
  (forall id,
     TrimPairInfo id =
     if (2 <? String.length id)%nat && has_pair_mark id
     then without_last_two id else id)
  /\ (forall (collab : Collaborators) tax opts dna dna2 call taxa,
        exists flag rest,
          kraken_line tax opts dna dna2 call taxa
          = (flag ++ TAB
             ++ (if paired_end_processing opts
                 then TrimPairInfo (header dna) else header dna)
             ++ TAB ++ rest)%string).
Proof.
  split.
  - intros id. destruct (Nat.ltb_spec 2 (String.length id)) as [H|H]; simpl.
    + apply TrimPairInfo_long; exact H.
    + apply TrimPairInfo_short; exact H.
  - intros collab tax opts dna dna2 call taxa. unfold kraken_line.
    destruct (call =? 0), (paired_end_processing opts); simpl;
      [exists "U"%string | exists "U"%string
      | exists "C"%string | exists "C"%string];
      eexists; reflexivity.
Qed.

(** ** AddHitlistString *)

Lemma runs_from_nonempty (rest : list Z) (lc cc : Z) :
  runs_from rest lc cc <> [].
Proof.
  revert lc cc. induction rest as [|code rest IH]; intros lc cc; simpl.
  - discriminate.
  - destruct (code =? lc); [apply IH | discriminate].
Qed.

Lemma render_runs_cons (tax : Taxonomy) (c n : Z) (rs : list (Z * Z)) :
  rs <> [] ->
  render_runs tax ((c, n) :: rs) = (emit_run tax c n ++ render_runs tax rs)%string.
Proof. destruct rs; [congruence | reflexivity]. Qed.

(** The loop writes the runs one after the other. *)
Lemma hitlist_loop_runs (tax : Taxonomy) (rest : list Z) :
  forall lc cc oss,
    let '(oss', lc', cc') := hitlist_loop tax rest lc cc oss in
    (oss' ++ emit_last_run tax lc' cc')%string
    = (oss ++ render_runs tax (runs_from rest lc cc))%string.
Proof.
  induction rest as [|code rest IH]; intros lc cc oss; simpl.
  - reflexivity.
  - destruct (code =? lc).
    + apply IH.
    + specialize (IH code 1 (oss ++ emit_run tax lc cc)%string).
      destruct (hitlist_loop tax rest code 1 (oss ++ emit_run tax lc cc))
        as [[oss' lc'] cc'].
      rewrite IH, render_runs_cons by apply runs_from_nonempty.
      apply append_assoc.
Qed.

Lemma AddHitlistString_runs (tax : Taxonomy) (oss : string) (taxa : list Z) :
  AddHitlistString tax oss taxa
  = (oss ++ render_runs tax (hitlist_runs taxa))%string.
Proof.
  destruct taxa as [|t0 rest]; simpl.
  - symmetry. apply append_nil_r.
  - pose proof (hitlist_loop_runs tax rest t0 1 oss) as H.
    destruct (hitlist_loop tax rest t0 1 oss) as [[oss' lc'] cc'].
    exact H.
Qed.

Lemma last_cons_default (A : Type) (x : A) (l : list A) (d d' : A) :
  last (x :: l) d = last (x :: l) d'.
Proof.
  revert x. induction l as [|y l IH]; intros x; [reflexivity|].
  change (last (y :: l) d = last (y :: l) d'). apply IH.
Qed.

(** After the loop [last_code] is the last entry of the trail. *)
Lemma hitlist_loop_last (tax : Taxonomy) (rest : list Z) :
  forall lc cc oss,
    snd (fst (hitlist_loop tax rest lc cc oss)) = last rest lc.
Proof.
  induction rest as [|code rest IH]; intros lc cc oss.
  - reflexivity.
  - simpl hitlist_loop.
    destruct (Z.eqb_spec code lc) as [->|Hne]; rewrite IH.
    + destruct rest; reflexivity.
    + destruct rest as [|z rest'];
        [reflexivity | exact (last_cons_default _ z rest' code lc)].
Qed.

Lemma emit_last_run_ambiguous (tax : Taxonomy) (cc : Z) :
  emit_last_run tax AMBIGUOUS_SPAN_TAXON cc = ("A:" ++ dec cc ++ " ")%string.
Proof. reflexivity. Qed.

(** C6 fails on the code: when the last run of the trail is an ambiguous
    span, the statements after the loop write "A:<count> " with the space
    of the in-loop branch, so the hitlist ends with a space; as for the
    trail made of one ambiguous span, which is written "A:1 ". *)
Theorem AddHitlistString_trailing_space :
  AddHitlistString Examples.star EmptyString [AMBIGUOUS_SPAN_TAXON]
  = "A:1 "%string
  /\ forall tax oss taxa,
       last_char (AddHitlistString tax oss (taxa ++ [AMBIGUOUS_SPAN_TAXON]))
       = Some " "%char.
Proof.
  split; [reflexivity|].
  intros tax oss taxa.
  assert (exists t0 rest,
            taxa ++ [AMBIGUOUS_SPAN_TAXON] = t0 :: rest
            /\ last rest t0 = AMBIGUOUS_SPAN_TAXON) as (t0 & rest & E & L).
  { destruct taxa as [|t0 taxa]; simpl.
    - exists AMBIGUOUS_SPAN_TAXON, []. split; reflexivity.
    - exists t0, (taxa ++ [AMBIGUOUS_SPAN_TAXON]). split; [reflexivity|].
      apply last_last. }
  rewrite E. unfold AddHitlistString.
  pose proof (hitlist_loop_last tax rest t0 1 oss) as Hl.
  destruct (hitlist_loop tax rest t0 1 oss) as [[oss' lc'] cc'].
  simpl in Hl. rewrite Hl, L, emit_last_run_ambiguous.
  assert (forall b : string, (b ++ " ")%string <> EmptyString) as Hne
    by (intros [|c b]; simpl; discriminate).
  rewrite last_char_app by apply (Hne ("A:" ++ dec cc')%string).
  rewrite (last_char_app "A:") by apply Hne.
  rewrite last_char_app by (simpl; discriminate).
  reflexivity.
Qed.



(** ** ClassifySequence: the three loops *)

Section ScanFacts.
Context {collab : Collaborators}.
Variables (idx_opts : IndexOptions) (opts : Options).

(** [minimizer_hit_groups] only grows. *)
Lemma minimizer_loop_groups (minimizers : list (Z * bool)) :
  forall lm lt st,
    minimizer_hit_groups st
    <= minimizer_hit_groups (minimizer_loop idx_opts opts minimizers lm lt st).
Proof.
  induction minimizers as [|[m amb] rest IH]; intros lm lt st; simpl.
  - lia.
  - destruct amb.
    + etransitivity; [|apply IH]. simpl. lia.
    + destruct (negb (m =? lm)).
      * set (taxon := if _ && _ then 0 else hash_Get m).
        destruct (negb (taxon =? 0)).
        -- destruct (quick_mode opts && _).
           ++ simpl. lia.
           ++ etransitivity; [|apply IH]. simpl. lia.
        -- etransitivity; [|apply IH]. simpl. lia.
      * destruct (negb (lt =? 0)).
        -- destruct (quick_mode opts && _).
           ++ simpl. lia.
           ++ etransitivity; [|apply IH]. simpl. lia.
        -- etransitivity; [|apply IH]. simpl. lia.
Qed.

Lemma frame_loop_groups (frames : list string) :
  forall idx st,
    minimizer_hit_groups st
    <= minimizer_hit_groups (frame_loop idx_opts opts frames idx st).
Proof.
  induction frames as [|f frames IH]; intros idx st; simpl.
  - lia.
  - pose proof (minimizer_loop_groups (scanner_minimizers f)
                  UINT64_MAX TAXID_MAX st) as H.
    destruct (finished_searching _); [exact H|].
    etransitivity; [exact H|]. etransitivity; [|apply IH].
    destruct (use_translated_search opts && _); simpl; lia.
Qed.

Lemma mate_loop_groups (dna dna2 : Sequence) (counts0 : taxon_counters_t) :
  0 <= minimizer_hit_groups (mate_loop idx_opts opts dna dna2 counts0).
Proof.
  unfold mate_loop.
  set (st0 := mkScan [] [] 0 counts0 0 false).
  pose proof (frame_loop_groups (frames_of opts (seq dna)) 0 st0) as H1.
  simpl in H1.
  destruct (finished_searching _); [exact H1|].
  destruct (paired_end_processing opts); [|exact H1].
  etransitivity; [exact H1|]. etransitivity; [|apply frame_loop_groups].
  simpl. lia.
Qed.




(** The index holds no reserved border value, and the scanner never
    returns the all-ones word (a minimizer has at most 62 bits). *)
Hypothesis index_unreserved : forall m, is_border (hash_Get m) = false.
Hypothesis minimizers_proper :
  forall s m amb, In (m, amb) (scanner_minimizers s) -> m <> UINT64_MAX.


Lemma frame_loop_single (f : string) (idx : Z) (st : ScanState) :
  use_translated_search opts = false ->
  frame_loop idx_opts opts [f] idx st
  = minimizer_loop idx_opts opts (scanner_minimizers f)
      UINT64_MAX TAXID_MAX st.
Proof.
  intros Htr. simpl. rewrite Htr. simpl.
  destruct (finished_searching _); reflexivity.
Qed.


End ScanFacts.



(** ** The hitlist invariant *)


Lemma toy_minimizers_proper (s : string) (m : Z) (amb : bool) :
  In (m, amb) (Examples.toy_minimizers s) -> m <> UINT64_MAX.
Proof.
  unfold Examples.toy_minimizers. intros H.
  apply in_map_iff in H. destruct H as (c & E & _).
  inversion E; subst. pose proof (N_ascii_bounded c) as B.
  unfold UINT64_MAX. lia.
Qed.





(** ** ClassifySequence: quick mode and the hit-group floor *)

Lemma climb_null {collab : Collaborators} (fuel : nat) (tax : Taxonomy)
    (hc : taxon_counts_t) (required score : Z) :
  climb fuel tax hc required 0 score = Some 0.
Proof. destruct fuel; reflexivity. Qed.

Lemma ResolveTree_no_hits {collab : Collaborators} (fuel : nat)
    (tax : Taxonomy) (total : Z) (opts : Options) :
  ResolveTree fuel [] tax total opts = Some 0.
Proof. unfold ResolveTree. simpl. apply climb_null. Qed.

(** C1 fails on the code: the quick-mode branch assigns [call = taxon] and
    jumps to [finished_searching], but the label stands before the call of
    [ResolveTree], which overwrites [call]; the hit that triggers the exit
    is not in [hit_counts].  When the first lookup of a read hits and
    [minimum_hit_groups <= 1], [hit_counts] is empty, the call is 0 and the
    line starts with U. *)
Theorem quick_mode_first_hit_unclassified
    (collab : Collaborators) (fuel : nat) (dna dna2 : Sequence)
    (koss : string) (tax : Taxonomy) (idx_opts : IndexOptions)
    (opts : Options) (stats : ClassificationStats)
    (counts0 : taxon_counters_t) (m : Z) (rest : list (Z * bool)) :
  quick_mode opts = true ->
  use_translated_search opts = false ->
  minimum_hit_groups opts <= 1 ->
  minimum_acceptable_hash_value idx_opts = 0 ->
  scanner_minimizers (seq dna) = (m, false) :: rest ->
  m <> UINT64_MAX ->
  hash_Get m <> 0 ->
  exists r,
    ClassifySequence fuel dna dna2 koss tax idx_opts opts stats counts0
      = Some r
    /\ call (mate_loop idx_opts opts dna dna2 counts0) = hash_Get m
    /\ c_call r = 0
    /\ total_classified (c_stats r) = total_classified stats
    /\ c_koss r = (koss ++ kraken_line tax opts dna dna2 0 [])%string.
Proof.
  intros Hq Htr Hg Hh Hscan Hm Hhit.
  set (st0 := mkScan [] [] 0 counts0 0 false).
  assert (Hscan1 :
            minimizer_loop idx_opts opts ((m, false) :: rest)
              UINT64_MAX TAXID_MAX st0
            = quick_exit (hash_Get m)
                (new_hit_group opts m (hash_Get m) st0)).
  { assert (E1 : (m =? UINT64_MAX) = false) by (apply Z.eqb_neq; exact Hm).
    assert (E2 : (hash_Get m =? 0) = false) by (apply Z.eqb_neq; exact Hhit).
    assert (E3 : (minimum_hit_groups opts
                  <=? minimizer_hit_groups
                        (new_hit_group opts m (hash_Get m) st0)) = true)
      by (apply Z.leb_le; simpl; lia).
    cbn [minimizer_loop]. rewrite E1, Hh. cbn [negb andb Z.eqb].
    rewrite E2. cbn [negb]. rewrite Hq, E3. reflexivity. }
  assert (Hst : mate_loop idx_opts opts dna dna2 counts0
                = quick_exit (hash_Get m)
                    (new_hit_group opts m (hash_Get m) st0)).
  { unfold mate_loop, frames_of. rewrite Htr.
    rewrite frame_loop_single by exact Htr.
    fold st0. rewrite Hscan, Hscan1. reflexivity. }
  unfold ClassifySequence. rewrite Hst. simpl.
  rewrite ResolveTree_no_hits. simpl.
  eexists. repeat split.
Qed.

Lemma quick_mode_first_hit_unclassified_witness :
  exists r,
    @ClassifySequence Examples.toy 10 (Examples.fasta "read1" "GATTACA")
      empty_sequence EmptyString Examples.star Examples.idx0
      (Examples.with_quick Examples.plain_opts 1) Examples.stats0 []
    = Some r
    /\ Examples.toy_Get 71 = 42
    /\ c_call r = 0
    /\ c_koss r
       = ("U" ++ TAB ++ "read1" ++ TAB ++ "0" ++ TAB ++ "7" ++ TAB ++ "0:Q"
          ++ ENDL)%string.
Proof.
  destruct (quick_mode_first_hit_unclassified Examples.toy 10
              (Examples.fasta "read1" "GATTACA") empty_sequence EmptyString
              Examples.star Examples.idx0
              (Examples.with_quick Examples.plain_opts 1) Examples.stats0 []
              71 (Examples.toy_minimizers "ATTACA"))
    as (r & E & _ & C & _ & K).
  - reflexivity.
  - reflexivity.
  - simpl; lia.
  - reflexivity.
  - reflexivity.
  - vm_compute; discriminate.
  - vm_compute; discriminate.
  - exists r. repeat split; [exact E | exact C | rewrite K; reflexivity].
Defined.

(** C5: with the taxon [resolved] that [ResolveTree] returns, the call is
    voided when [resolved] is non-zero and fewer than [minimum_hit_groups]
    hit groups were seen: the routine returns 0, the line starts with U and
    [total_classified] is left alone; otherwise the call is [resolved]; and
    with [minimum_hit_groups = 0] the call is always [resolved]. *)
Theorem minimum_hit_groups_voiding
    (collab : Collaborators) (fuel : nat) (dna dna2 : Sequence)
    (koss : string) (tax : Taxonomy) (idx_opts : IndexOptions)
    (opts : Options) (stats : ClassificationStats)
    (counts0 : taxon_counters_t) (resolved : Z) :
  let st := mate_loop idx_opts opts dna dna2 counts0 in
  ResolveTree fuel (hit_counts st) tax (total_kmers_of opts (taxa st)) opts
    = Some resolved ->
  exists r,
    ClassifySequence fuel dna dna2 koss tax idx_opts opts stats counts0
      = Some r
    /\ c_hit_groups r = minimizer_hit_groups st
    /\ (resolved <> 0 -> c_hit_groups r < minimum_hit_groups opts ->
        c_call r = 0
        /\ (exists rest, c_koss r = (koss ++ "U" ++ TAB ++ rest)%string)
        /\ c_stats r = stats)
    /\ (minimum_hit_groups opts <= c_hit_groups r -> c_call r = resolved)
    /\ (minimum_hit_groups opts = 0 -> c_call r = resolved).
Proof.
  intros st Hres. unfold ClassifySequence. fold st. rewrite Hres.
  eexists. split; [reflexivity|]. simpl.
  pose proof (mate_loop_groups idx_opts opts dna dna2 counts0) as Hpos.
  fold st in Hpos.
  split; [reflexivity|]. split; [|split].
  - intros Hnz Hlt.
    destruct (Z.eqb_spec resolved 0) as [|_]; [contradiction|].
    destruct (Z.ltb_spec (minimizer_hit_groups st) (minimum_hit_groups opts))
      as [_|]; [|lia].
    simpl. split; [reflexivity|]. split; [|reflexivity].
    unfold kraken_line. simpl. eexists. reflexivity.
  - intros Hge.
    destruct (Z.ltb_spec (minimizer_hit_groups st) (minimum_hit_groups opts));
      [lia|].
    rewrite andb_false_r. reflexivity.
  - intros Hz.
    destruct (Z.ltb_spec (minimizer_hit_groups st) (minimum_hit_groups opts));
      [lia|].
    rewrite andb_false_r. reflexivity.
Qed.

Lemma minimum_hit_groups_voiding_witness :
  exists r,
    @ClassifySequence Examples.toy 10 (Examples.fasta "read1" "GA")
      empty_sequence EmptyString Examples.star Examples.idx0
      (Examples.with_groups Examples.plain_opts 3) Examples.stats0 []
    = Some r
    /\ c_hit_groups r = 2
    /\ c_call r = 0
    /\ c_stats r = Examples.stats0.
Proof.
  destruct (minimum_hit_groups_voiding Examples.toy 10
              (Examples.fasta "read1" "GA") empty_sequence EmptyString
              Examples.star Examples.idx0
              (Examples.with_groups Examples.plain_opts 3) Examples.stats0 []
              1)
    as (r & E & G & V & _).
  - vm_compute; reflexivity.
  - destruct V as (C & _ & S).
    + discriminate.
    + rewrite G. vm_compute; reflexivity.
    + exists r. repeat split; [exact E | rewrite G; reflexivity
                              | exact C | exact S].
Defined.

(** ** ResolveTree *)

Lemma Permutation_length_3_inv (A : Type) (a b c : A) (l : list A) :
  Permutation [a; b; c] l ->
  l = [a; b; c] \/ l = [a; c; b] \/ l = [b; a; c]
  \/ l = [b; c; a] \/ l = [c; a; b] \/ l = [c; b; a].
Proof.
  intros HP.
  pose proof (Permutation_length HP) as Hlen.
  destruct l as [|x [|y [|z [|w l]]]]; try discriminate Hlen.
  assert (Hx : In x [a; b; c])
    by (eapply Permutation_in; [apply Permutation_sym; exact HP | left; auto]).
  destruct Hx as [<-|[<-|[<-|[]]]].
  - apply Permutation_cons_inv, Permutation_length_2 in HP.
    destruct HP as [[-> ->]|[-> ->]]; auto.
  - assert (HP' : Permutation (b :: [a; c]) (b :: [y; z]))
      by (etransitivity; [apply perm_swap | exact HP]).
    apply Permutation_cons_inv, Permutation_length_2 in HP'.
    destruct HP' as [[-> ->]|[-> ->]]; auto 10.
  - assert (HP' : Permutation (c :: [a; b]) (c :: [y; z])).
    { etransitivity; [|exact HP].
      etransitivity; [apply perm_swap|].
      apply perm_skip, perm_swap. }
    apply Permutation_cons_inv, Permutation_length_2 in HP'.
    destruct HP' as [[-> ->]|[-> ->]]; auto 10.
Qed.

Section ResolveFacts.
Context {collab : Collaborators}.
Variable tax : Taxonomy.

Lemma wrap32_nonneg (z : Z) : 0 <= wrap32 z.
Proof. unfold wrap32. apply Z.mod_pos_bound. lia. Qed.

Lemma climb_enough (fuel : nat) (hc : taxon_counts_t)
    (required max_taxon max_score : Z) :
  required <= max_score ->
  climb fuel tax hc required max_taxon max_score = Some max_taxon.
Proof.
  intros H.
  assert (E : (max_score <? required) = false) by (apply Z.ltb_ge; exact H).
  destruct fuel; simpl; rewrite E, andb_false_r; reflexivity.
Qed.

Lemma climb_step (fuel : nat) (hc : taxon_counts_t)
    (required max_taxon max_score : Z) :
  max_taxon <> 0 -> max_score < required ->
  climb (S fuel) tax hc required max_taxon max_score
  = if required <=? clade_score tax hc max_taxon then Some max_taxon
    else climb fuel tax hc required (parent_id (node_at tax max_taxon))
           (clade_score tax hc max_taxon).
Proof.
  intros Hnz Hlt.
  assert (E1 : (max_taxon =? 0) = false) by (apply Z.eqb_neq; exact Hnz).
  assert (E2 : (max_score <? required) = true) by (apply Z.ltb_lt; exact Hlt).
  simpl. rewrite E1, E2. reflexivity.
Qed.

Lemma required_score_zero (opts : Options) (total : Z) :
  confidence_threshold opts == 0 -> required_score_of opts total = 0.
Proof.
  intros H. unfold required_score_of.
  assert (E : Qnum (confidence_threshold opts) = 0)
    by (unfold Qeq in H; simpl in H; lia).
  assert (R : round_double (confidence_threshold opts) = 0%Q)
    by (unfold round_double; rewrite E; reflexivity).
  rewrite R. reflexivity.
Qed.

(** With enough fuel for the parent chain to reach 0 the climb returns. *)
Lemma climb_returns (n : nat) (hc : taxon_counts_t) (required : Z) :
  forall fuel max_taxon max_score,
    nth_parent tax n max_taxon = 0 -> (n <= fuel)%nat ->
    exists r, climb fuel tax hc required max_taxon max_score = Some r.
Proof.
  induction n as [|n IH]; intros fuel w s Hn Hfuel.
  - simpl in Hn. subst w. exists 0. apply climb_null.
  - destruct fuel as [|fuel]; [lia|].
    destruct (Z.eq_dec w 0) as [->|Hw]; [exists 0; apply climb_null|].
    destruct (Z.lt_ge_cases s required) as [Hs|Hs];
      [|exists w; apply climb_enough; exact Hs].
    rewrite climb_step by assumption.
    destruct (required <=? clade_score tax hc w); [eauto|].
    apply IH; [exact Hn | lia].
Qed.

(** A taxon that the climb returns has the required support, unless the
    climb ran off the root. *)
Lemma climb_supported (fuel : nat) (hc : taxon_counts_t) (required : Z) :
  forall max_taxon max_score r,
    climb fuel tax hc required max_taxon max_score = Some r ->
    r = 0
    \/ (r = max_taxon /\ required <= max_score)
    \/ required <= clade_score tax hc r.
Proof.
  induction fuel as [|fuel IH]; intros w s r H.
  - simpl in H. destruct (negb (w =? 0) && (s <? required)) eqn:E;
      [discriminate|].
    injection H as <-. apply andb_false_iff in E.
    destruct E as [E|E].
    + left. apply negb_false_iff, Z.eqb_eq in E. exact E.
    + right; left. split; [reflexivity|]. apply Z.ltb_ge; exact E.
  - destruct (Z.eq_dec w 0) as [->|Hw].
    { rewrite climb_null in H. injection H as <-. left; reflexivity. }
    destruct (Z.lt_ge_cases s required) as [Hs|Hs].
    + rewrite climb_step in H by assumption.
      destruct (Z.leb_spec required (clade_score tax hc w)) as [Hc|Hc].
      * injection H as <-. right; right; exact Hc.
      * apply IH in H. destruct H as [H|[[-> H]|H]]; auto; lia.
    + rewrite climb_enough in H by exact Hs. injection H as <-.
      right; left. split; [reflexivity | exact Hs].
Qed.

End ResolveFacts.

(** C3: in phase 1 a taxon whose score equals the running maximum replaces
    the winner with the LCA of the winner and that taxon; with a threshold
    of 0 the required score is 0, the [while] of phase 2 is never entered
    and [ResolveTree] returns the winner of phase 1, whatever the fuel; for
    two unrelated taxa A and B with 3 hits each and LCA P, in either
    iteration order, it returns P. *)
Theorem ResolveTree_tie_break (collab : Collaborators) (tax : Taxonomy) :
  (forall hc max_taxon max_score kv,
     path_score tax hc (fst kv) = max_score ->
     phase1_step tax hc (max_taxon, max_score) kv
     = (LowestCommonAncestor tax max_taxon (fst kv), max_score))
  /\ (forall fuel hc total opts,
        confidence_threshold opts == 0 ->
        ResolveTree fuel hc tax total opts = Some (fst (phase1 tax hc)))
  /\ (forall fuel hc total opts A B P,
        confidence_threshold opts == 0 ->
        IsAAncestorOfB tax A A = true -> IsAAncestorOfB tax B B = true ->
        IsAAncestorOfB tax A B = false -> IsAAncestorOfB tax B A = false ->
        LowestCommonAncestor tax A B = P ->
        LowestCommonAncestor tax B A = P ->
        Permutation [(A, 3); (B, 3)] hc ->
        ResolveTree fuel hc tax total opts = Some P).
Proof.
  assert (Hzero : forall fuel hc total opts,
            confidence_threshold opts == 0 ->
            ResolveTree fuel hc tax total opts = Some (fst (phase1 tax hc))).
  { intros fuel hc total opts Hthr. unfold ResolveTree.
    rewrite required_score_zero by exact Hthr.
    destruct (phase1 tax hc) as [w s].
    destruct (hc_subscript hc w) as [count hc'].
    apply climb_enough, wrap32_nonneg. }
  split; [|split; [exact Hzero|]].
  - intros hc w s kv <-. unfold phase1_step.
    rewrite Z.ltb_irrefl, Z.eqb_refl. reflexivity.
  - intros fuel hc total opts A B P Hthr HAA HBB HAB HBA HP HP' Hperm.
    rewrite Hzero by exact Hthr. f_equal.
    apply Permutation_length_2_inv in Hperm.
    destruct Hperm as [->| ->]; unfold phase1, phase1_over, phase1_step,
      path_score; simpl; rewrite ?HAA, ?HBB, ?HAB, ?HBA; simpl;
      [exact HP | exact HP'].
Qed.

Lemma ResolveTree_tie_break_witness :
  @ResolveTree Examples.toy 0 [(3, 3); (2, 3)] Examples.star 6
    Examples.plain_opts = Some 1.
Proof.
  apply (proj2 (proj2 (ResolveTree_tie_break Examples.toy Examples.star))
           0%nat [(3, 3); (2, 3)] 6 Examples.plain_opts 2 3 1).
  - reflexivity.
  - vm_compute; reflexivity.
  - vm_compute; reflexivity.
  - vm_compute; reflexivity.
  - vm_compute; reflexivity.
  - vm_compute; reflexivity.
  - vm_compute; reflexivity.
  - apply perm_swap.
Defined.

(** C4: the required score is the ceiling of threshold times
    [total_minimizers], the product being a product of doubles (so that
    a threshold of 0.07 and 100 minimizers require 8 hits, 0.1 and 10
    require 1, 0.75 and 4 require 3); while the winner is a node and its
    score is below the required one, the hits of the winner's clade are
    summed: the winner is returned as soon as that sum reaches the
    required score, otherwise its parent becomes the winner; 0 is returned
    once the chain has run off the root.  The walk returns whenever the
    parent chain reaches 0 within the fuel, and a node it returns has the
    required support.  For hits A:2, B:1, C:1 on three unrelated children
    of P, 4 minimizers and a threshold of 3/4, the required score is 3 and
    P is returned. *)
Theorem ResolveTree_climb (collab : Collaborators) (tax : Taxonomy) :
  (forall fuel hc total opts,
     ResolveTree fuel hc tax total opts
     = climb fuel tax (snd (hc_subscript hc (fst (phase1 tax hc))))
         (required_score_of opts total)
         (fst (phase1 tax hc))
         (wrap32 (fst (hc_subscript hc (fst (phase1 tax hc)))))
     /\ required_score_of opts total
        = wrap32
            (Qceiling
               (round_double
                  (round_double (confidence_threshold opts)
                   * round_double (inject_Z total)))))
  /\ (forall opts,
        (confidence_threshold opts = 7 # 100 ->
         required_score_of opts 100 = 8)
        /\ (confidence_threshold opts = 1 # 10 ->
            required_score_of opts 10 = 1)
        /\ (confidence_threshold opts = 3 # 4 ->
            required_score_of opts 4 = 3)
        /\ (confidence_threshold opts == 0 ->
            forall total, required_score_of opts total = 0))
  /\ (forall fuel hc required w s,
        w <> 0 -> s < required ->
        climb (S fuel) tax hc required w s
        = if required <=? clade_score tax hc w then Some w
          else climb fuel tax hc required (parent_id (node_at tax w))
                 (clade_score tax hc w))
  /\ (forall fuel hc required w s,
        required <= s -> climb fuel tax hc required w s = Some w)
  /\ (forall fuel hc required s, climb fuel tax hc required 0 s = Some 0)
  /\ (forall n fuel hc required w s,
        nth_parent tax n w = 0 -> (n <= fuel)%nat ->
        exists r, climb fuel tax hc required w s = Some r)
  /\ (forall fuel hc required w s r,
        climb fuel tax hc required w s = Some r ->
        r = 0 \/ (r = w /\ required <= s)
        \/ required <= clade_score tax hc r)
  /\ (forall fuel hc opts A B C P,
        confidence_threshold opts = 3 # 4 ->
        A <> 0 -> P <> 0 ->
        parent_id (node_at tax A) = P ->
        IsAAncestorOfB tax A A = true -> IsAAncestorOfB tax B B = true ->
        IsAAncestorOfB tax C C = true ->
        IsAAncestorOfB tax A B = false -> IsAAncestorOfB tax A C = false ->
        IsAAncestorOfB tax B A = false -> IsAAncestorOfB tax B C = false ->
        IsAAncestorOfB tax C A = false -> IsAAncestorOfB tax C B = false ->
        IsAAncestorOfB tax P A = true -> IsAAncestorOfB tax P B = true ->
        IsAAncestorOfB tax P C = true ->
        Permutation [(A, 2); (B, 1); (C, 1)] hc ->
        required_score_of opts 4 = 3
        /\ ResolveTree (S (S fuel)) hc tax 4 opts = Some P).
Proof.
  split; [|split; [|split; [|split; [|split; [|split; [|split]]]]]].
  - intros fuel hc total opts. split; [|reflexivity]. unfold ResolveTree.
    destruct (phase1 tax hc) as [w s]. cbn [fst].
    destruct (hc_subscript hc w) as [count hc']. reflexivity.
  - intros opts. split; [|split; [|split]].
    + intros H. unfold required_score_of. rewrite H.
      vm_compute; reflexivity.
    + intros H. unfold required_score_of. rewrite H.
      vm_compute; reflexivity.
    + intros H. unfold required_score_of. rewrite H.
      vm_compute; reflexivity.
    + intros H total. apply required_score_zero; exact H.
  - intros. apply climb_step; assumption.
  - intros. apply climb_enough; assumption.
  - intros. apply climb_null.
  - intros. eapply climb_returns; eassumption.
  - intros. eapply climb_supported; eassumption.
  - intros fuel hc opts A B C P Hthr HA HP Hpar HAA HBB HCC HAB HAC HBA HBC
      HCA HCB HPA HPB HPC Hperm.
    assert (Hreq : required_score_of opts 4 = 3)
      by (unfold required_score_of; rewrite Hthr; vm_compute; reflexivity).
    split; [exact Hreq|].
    assert (HAB' : A <> B) by (intros ->; congruence).
    assert (HAC' : A <> C) by (intros ->; congruence).
    assert (EA : (A =? A) = true) by apply Z.eqb_refl.
    assert (EBA : (B =? A) = false) by (apply Z.eqb_neq; congruence).
    assert (ECA : (C =? A) = false) by (apply Z.eqb_neq; congruence).
    assert (Hphase1 : fst (phase1 tax hc) = A).
    { apply Permutation_length_3_inv in Hperm.
      destruct Hperm as [->|[->|[->|[->|[->| ->]]]]];
        unfold phase1, phase1_over, phase1_step, path_score; simpl;
        rewrite ?HAA, ?HBB, ?HCC, ?HAB, ?HAC, ?HBA, ?HBC, ?HCA, ?HCB;
        reflexivity. }
    assert (Hcount : hc_subscript hc A = (2, hc)).
    { apply Permutation_length_3_inv in Hperm.
      destruct Hperm as [->|[->|[->|[->|[->| ->]]]]];
        unfold hc_subscript; simpl; rewrite ?EA, ?EBA, ?ECA; reflexivity. }
    assert (HcladeA : clade_score tax hc A = 2).
    { apply Permutation_length_3_inv in Hperm.
      destruct Hperm as [->|[->|[->|[->|[->| ->]]]]];
        unfold clade_score; simpl; rewrite ?HAA, ?HAB, ?HAC; reflexivity. }
    assert (HcladeP : clade_score tax hc P = 4).
    { apply Permutation_length_3_inv in Hperm.
      destruct Hperm as [->|[->|[->|[->|[->| ->]]]]];
        unfold clade_score; simpl; rewrite ?HPA, ?HPB, ?HPC; reflexivity. }
    unfold ResolveTree. rewrite Hreq.
    destruct (phase1 tax hc) as [w s]. simpl in Hphase1. subst w.
    rewrite Hcount.
    rewrite climb_step by (try assumption; vm_compute; reflexivity).
    rewrite HcladeA, Hpar.
    change (3 <=? 2) with false. cbv iota.
    rewrite climb_step by (try assumption; lia).
    rewrite HcladeP. reflexivity.
Qed.

Lemma ResolveTree_climb_witness :
  @ResolveTree Examples.toy 2 [(3, 1); (2, 2); (4, 1)] Examples.star 4
    (Examples.with_threshold Examples.plain_opts (3 # 4)) = Some 1.
Proof.
  apply (proj2 (proj2 (proj2 (proj2 (proj2 (proj2 (proj2
           (ResolveTree_climb Examples.toy Examples.star)))))))
           0%nat [(3, 1); (2, 2); (4, 1)]
           (Examples.with_threshold Examples.plain_opts (3 # 4)) 2 3 4 1);
    try (vm_compute; reflexivity); try discriminate.
  apply perm_swap.
Defined.

(** ** ProcessFiles: the batch loop *)

Lemma run_bind_ext (A B : Type) (r : Run A) (k k' : A -> Run B) :
  (forall a, k a = k' a) -> run_bind r k = run_bind r k'.
Proof. intros H. destruct r; simpl; auto. Qed.

(** C10: in paired mode a first mate without a second mate ends the loop
    over the batch before anything is done for it: the buffers of the five
    streams, the counters of the thread (among them [total_sequences] and
    [total_bases]) and the per-taxon counters are those of the batch
    without that record, so [ClassifySequence] was not run on it.  This
    holds for mates interleaved in one file and for mates in two files. *)
Theorem batch_loop_drops_lone_mate (collab : Collaborators) (fuel : nat)
    (tax : Taxonomy) (idx_opts : IndexOptions) (opts : Options)
    (lone : Sequence) :
  paired_end_processing opts = true ->
  (single_file_pairs opts = true ->
   forall pairs reader2 bs,
     batch_loop fuel tax idx_opts opts (interleaved pairs ++ [lone])
       reader2 bs
     = batch_loop fuel tax idx_opts opts (interleaved pairs) reader2 bs)
  /\ (single_file_pairs opts = false ->
      forall reader1 reader2 bs,
        List.length reader1 = List.length reader2 ->
        batch_loop fuel tax idx_opts opts (reader1 ++ [lone]) reader2 bs
        = batch_loop fuel tax idx_opts opts reader1 reader2 bs)
  /\ (forall reader2 bs,
        (single_file_pairs opts = true \/ reader2 = []) ->
        batch_loop fuel tax idx_opts opts [lone] reader2 bs = Finished bs).
Proof.
  intros Hp. split; [|split].
  - intros Hs pairs. induction pairs as [|[s1 s2] pairs IH]; intros reader2 bs.
    + simpl. rewrite Hp, Hs. reflexivity.
    + simpl. rewrite Hp, Hs. apply run_bind_ext. intros bs'. apply IH.
  - intros Hs reader1.
    induction reader1 as [|s1 reader1 IH]; intros [|s2 reader2] bs Hlen;
      try discriminate Hlen.
    + simpl. rewrite Hp, Hs. reflexivity.
    + simpl. rewrite Hp, Hs. apply run_bind_ext. intros bs'. apply IH.
      simpl in Hlen. congruence.
  - intros reader2 bs [Hs| ->]; simpl; rewrite Hp.
    + rewrite Hs. reflexivity.
    + destruct (single_file_pairs opts); reflexivity.
Qed.

Lemma batch_loop_drops_lone_mate_witness :
  let opts := Examples.paired_opts true in
  let r1 := Examples.fasta "r1/1" "GATT" in
  let r2 := Examples.fasta "r1/2" "ACA" in
  let lone := Examples.fasta "r2/1" "GGGG" in
  @batch_loop Examples.toy 10 Examples.star Examples.idx0 opts
    (interleaved [(r1, r2)] ++ [lone]) [] fresh_block
  = @batch_loop Examples.toy 10 Examples.star Examples.idx0 opts
      (interleaved [(r1, r2)]) [] fresh_block.
Proof.
  cbv zeta.
  apply (proj1 (batch_loop_drops_lone_mate Examples.toy 10 Examples.star
                  Examples.idx0 (Examples.paired_opts true)
                  (Examples.fasta "r2/1" "GGGG") eq_refl) eq_refl).
Defined.

(** ** ProcessFiles: ordered output *)

Section OrderedOutput.
Import OutputOrder.
Variable sink_open : nat -> bool.

Lemma pq_top_In (q : list OutputData) (d : OutputData) :
  pq_top q = Some d -> In d q.
Proof.
  revert d. induction q as [|x q IH]; intros d; simpl; [discriminate|].
  destruct (pq_top q) as [m|].
  - destruct (block_id x <=? block_id m); intros H; injection H as <-;
      [left; reflexivity | right; apply IH; reflexivity].
  - intros H; injection H as <-. left; reflexivity.
Qed.

Lemma pq_top_min (q : list OutputData) (d : OutputData) :
  pq_top q = Some d -> forall d', In d' q -> block_id d <= block_id d'.
Proof.
  revert d. induction q as [|x q IH]; intros d; simpl; [discriminate|].
  destruct (pq_top q) as [m|] eqn:E.
  - specialize (IH m eq_refl).
    destruct (Z.leb_spec (block_id x) (block_id m)) as [Hle|Hlt];
      intros H0; injection H0 as <-; intros d' [<-|Hd']; try lia.
    + specialize (IH d' Hd'). lia.
    + apply IH; exact Hd'.
  - intros H; injection H as <-. intros d' [<-|Hd']; [lia|].
    destruct q; [destruct Hd' | simpl in E].
    destruct (pq_top q); [destruct (_ <=? _)|]; discriminate.
Qed.

(** Popping the top takes exactly the top out of the queue. *)
Lemma pq_pop_perm (q : list OutputData) (d : OutputData) :
  pq_top q = Some d -> Permutation q (d :: pq_pop q).
Proof.
  unfold pq_pop. revert d. induction q as [|x q IH]; intros d; simpl;
    [discriminate|].
  destruct (pq_top q) as [m|] eqn:E.
  - specialize (IH m eq_refl).
    destruct (Z.leb_spec (block_id x) (block_id m)) as [Hle|Hlt];
      intros H0; injection H0 as <-; simpl.
    + rewrite Z.eqb_refl. apply Permutation_refl.
    + destruct (Z.eqb_spec (block_id x) (block_id m)) as [Heq|_]; [lia|].
      eapply Permutation_trans; [apply perm_skip; exact IH|].
      apply perm_swap.
  - intros H0; injection H0 as <-. simpl. rewrite Z.eqb_refl.
    apply Permutation_refl.
Qed.

Lemma upd_same (A : Type) (f : nat -> A) (i : nat) (a : A) :
  upd f i a i = a.
Proof. unfold upd. rewrite Nat.eqb_refl. reflexivity. Qed.

Lemma upd_other (A : Type) (f : nat -> A) (i j : nat) (a : A) :
  j <> i -> upd f i a j = f j.
Proof.
  intros H. unfold upd. destruct (Nat.eqb_spec j i); [contradiction|].
  reflexivity.
Qed.

Lemma ids_succ (n : nat) : ids (S n) = ids n ++ [wrap64 (Z.of_nat n)].
Proof. unfold ids. rewrite seq_S, map_app. reflexivity. Qed.

Lemma wrap64_succ (n : nat) :
  wrap64 (wrap64 (Z.of_nat n) + 1) = wrap64 (Z.of_nat (S n)).
Proof.
  unfold wrap64. rewrite Nat2Z.inj_succ, Z.add_mod_idemp_l by lia.
  reflexivity.
Qed.

(** Moves that touch neither the lock, the critical section, the output
    counter nor the logs, by a thread that is and stays quiet. *)
Lemma inv_quiet_move (s : State) (n : nat) (t : nat) (p : Pc)
    (q : list OutputData) (ni : Z) :
  inv sink_open s n -> quiet (pc s t) -> quiet p ->
  inv sink_open (mkState q ni (next_output_block_id s) (output_lock s) (in_critical s)
         (sink_log s) (upd (pc s) t p)) n.
Proof.
  intros (I1 & I2 & I3 & I4 & I5) Hq Hp.
  assert (Hother : forall t', ~ quiet (pc s t') -> t' <> t)
    by (intros t' H ->; contradiction).
  unfold OutputOrder.inv; simpl. repeat split.
  - exact I1.
  - destruct (Nat.eq_dec t0 t) as [->|Hne].
    + rewrite upd_same in H. subst p. contradiction.
    + rewrite upd_other in H by exact Hne. apply (I2 _ _ H).
  - destruct (Nat.eq_dec t0 t) as [->|Hne].
    + rewrite upd_same in H. subst p. contradiction.
    + rewrite upd_other in H by exact Hne. apply (I2 _ _ H).
  - intros t' Hc. destruct (I3 _ Hc) as (d & Hd). exists d.
    rewrite upd_other; [exact Hd|]. apply Hother. rewrite Hd. auto.
  - destruct (Nat.eq_dec t0 t) as [->|Hne].
    + rewrite upd_same in H. subst p. contradiction.
    + rewrite upd_other in H by exact Hne. apply (I4 _ _ _ H).
  - destruct (Nat.eq_dec t0 t) as [->|Hne].
    + rewrite upd_same in H. subst p. contradiction.
    + rewrite upd_other in H by exact Hne. apply (I4 _ _ _ H).
  - destruct (output_lock s) as [t0|]; [|exact I5].
    destruct I5 as (d & k & m & Hd & Hn & Hb & Hlog).
    exists d, k, m. repeat split; try assumption.
    rewrite upd_other; [exact Hd|]. apply Hother. rewrite Hd. auto.
Qed.

Lemma inv_initial : inv sink_open initial 0.
Proof.
  unfold OutputOrder.inv; simpl. repeat split; try discriminate.
  intros k. unfold OutputOrder.log_is. simpl.
  destruct ((k <? 5)%nat && sink_open k); reflexivity.
Qed.

Lemma inv_step (s s' : State) (n : nat) :
  inv sink_open s n -> step sink_open s s' -> exists n', inv sink_open s' n'.
Proof.
  intros I Hstep.
  destruct Hstep as [s t Hpc | s t Hpc | s t b d Hpc Hc Hb | s t Hpc Hc Hq
                    | s t d Hpc Hc Ht Hne | s t d Hpc Hc Ht Hb
                    | s t d Hpc Hl | s t d k Hpc Hk | s t d Hpc].
  - exists n. apply inv_quiet_move; [exact I | rewrite Hpc | ]; exact Logic.I.
  - exists n. apply inv_quiet_move; [exact I | rewrite Hpc | ]; exact Logic.I.
  - exists n. apply inv_quiet_move; [exact I | rewrite Hpc | ]; exact Logic.I.
  - exists n. apply inv_quiet_move; [exact I | rewrite Hpc | ]; exact Logic.I.
  - exists n. apply inv_quiet_move; [exact I | rewrite Hpc | ]; exact Logic.I.
  - (* the head is popped *)
    destruct I as (I1 & I2 & I3 & I4 & I5). exists n.
    unfold OutputOrder.inv, after_pop; simpl. repeat split.
    + exact I1.
    + destruct (Nat.eq_dec t0 t) as [->|Hne]; [reflexivity|].
      rewrite upd_other in H by exact Hne.
      destruct (I2 _ _ H) as [Hc' _]. congruence.
    + destruct (Nat.eq_dec t0 t) as [->|Hne].
      * rewrite upd_same in H. injection H as <-. exact Hb.
      * rewrite upd_other in H by exact Hne.
        destruct (I2 _ _ H) as [Hc' _]. congruence.
    + intros t' Ht'. injection Ht' as <-. exists d. apply upd_same.
    + destruct (Nat.eq_dec t0 t) as [->|Hne].
      * rewrite upd_same in H. discriminate.
      * rewrite upd_other in H by exact Hne. apply (I4 _ _ _ H).
    + destruct (Nat.eq_dec t0 t) as [->|Hne].
      * rewrite upd_same in H. discriminate.
      * rewrite upd_other in H by exact Hne. apply (I4 _ _ _ H).
    + destruct (output_lock s) as [t0|]; [|exact I5].
      destruct I5 as (d0 & k & m & Hd & Hn & Hb0 & Hlog).
      exists d0, k, m. repeat split; try assumption.
      rewrite upd_other; [exact Hd|]. intros ->. congruence.
  - (* the lock is taken *)
    destruct I as (I1 & I2 & I3 & I4 & I5). exists (S n).
    destruct (I2 _ _ Hpc) as [Hc Hb].
    unfold OutputOrder.inv, after_lock; simpl. repeat split.
    + rewrite I1. apply wrap64_succ.
    + destruct (Nat.eq_dec t0 t) as [->|Hne].
      * rewrite upd_same in H. discriminate.
      * rewrite upd_other in H by exact Hne.
        destruct (I2 _ _ H) as [Hc' _]. congruence.
    + destruct (Nat.eq_dec t0 t) as [->|Hne].
      * rewrite upd_same in H. discriminate.
      * rewrite upd_other in H by exact Hne.
        destruct (I2 _ _ H) as [Hc' _]. congruence.
    + discriminate.
    + destruct (Nat.eq_dec t0 t) as [->|Hne]; [reflexivity|].
      rewrite upd_other in H by exact Hne.
      destruct (I4 _ _ _ H) as [Hl' _]. congruence.
    + destruct (Nat.eq_dec t0 t) as [->|Hne].
      * rewrite upd_same in H. injection H as <- <-. lia.
      * rewrite upd_other in H by exact Hne.
        destruct (I4 _ _ _ H) as [Hl' _]. congruence.
    + exists d, 0%nat, n. rewrite upd_same. repeat split.
      * rewrite Hb. exact I1.
      * intros j. simpl. rewrite Hl in I5. apply I5.
  - (* one stream is written *)
    destruct I as (I1 & I2 & I3 & I4 & I5). exists n.
    destruct (I4 _ _ _ Hpc) as [Hl _]. rewrite Hl in I5.
    destruct I5 as (d0 & k0 & m & Hd & Hn & Hb0 & Hlog).
    rewrite Hpc in Hd. injection Hd as <- <-.
    unfold OutputOrder.inv, after_write; simpl. repeat split.
    + exact I1.
    + destruct (Nat.eq_dec t0 t) as [->|Hne].
      * rewrite upd_same in H. discriminate.
      * rewrite upd_other in H by exact Hne. apply (I2 _ _ H).
    + destruct (Nat.eq_dec t0 t) as [->|Hne].
      * rewrite upd_same in H. discriminate.
      * rewrite upd_other in H by exact Hne. apply (I2 _ _ H).
    + intros t' Hc. destruct (I3 _ Hc) as (d' & Hd'). exists d'.
      rewrite upd_other; [exact Hd'|]. intros ->. congruence.
    + destruct (Nat.eq_dec t0 t) as [->|Hne]; [exact Hl|].
      rewrite upd_other in H by exact Hne. apply (I4 _ _ _ H).
    + destruct (Nat.eq_dec t0 t) as [->|Hne].
      * rewrite upd_same in H. injection H as <- <-. lia.
      * rewrite upd_other in H by exact Hne. apply (I4 _ _ _ H).
    + rewrite Hl. exists d, (S k), m. rewrite upd_same.
      repeat split; try assumption.
      intros j. specialize (Hlog j). unfold OutputOrder.log_is in *.
      simpl. unfold write_sink.
      destruct (Nat.eq_dec j k) as [->|Hjk].
      * rewrite Nat.ltb_irrefl in Hlog.
        destruct (Nat.ltb_spec k (S k)) as [_|]; [|lia].
        destruct (Nat.ltb_spec k 5) as [_|]; [|lia]. simpl in *.
        destruct (sink_open k).
        -- rewrite upd_same, Hlog, Hb0, Hn. symmetry. apply ids_succ.
        -- exact Hlog.
      * assert (E : (j <? S k)%nat = (j <? k)%nat).
        { destruct (Nat.ltb_spec j (S k)), (Nat.ltb_spec j k);
            try reflexivity; lia. }
        rewrite E.
        destruct (sink_open k); [rewrite upd_other by exact Hjk|];
          exact Hlog.
  - (* the lock is released *)
    destruct I as (I1 & I2 & I3 & I4 & I5). exists n.
    destruct (I4 _ _ _ Hpc) as [Hl _]. rewrite Hl in I5.
    destruct I5 as (d0 & k0 & m & Hd & Hn & Hb0 & Hlog).
    rewrite Hpc in Hd. injection Hd as <- <-.
    unfold OutputOrder.inv, after_unlock; simpl. repeat split.
    + exact I1.
    + destruct (Nat.eq_dec t0 t) as [->|Hne].
      * rewrite upd_same in H. discriminate.
      * rewrite upd_other in H by exact Hne. apply (I2 _ _ H).
    + destruct (Nat.eq_dec t0 t) as [->|Hne].
      * rewrite upd_same in H. discriminate.
      * rewrite upd_other in H by exact Hne. apply (I2 _ _ H).
    + intros t' Hc. destruct (I3 _ Hc) as (d' & Hd'). exists d'.
      rewrite upd_other; [exact Hd'|]. intros ->. congruence.
    + destruct (Nat.eq_dec t0 t) as [->|Hne].
      * rewrite upd_same in H. discriminate.
      * rewrite upd_other in H by exact Hne.
        destruct (I4 _ _ _ H) as [Hl' _]. congruence.
    + destruct (Nat.eq_dec t0 t) as [->|Hne].
      * rewrite upd_same in H. discriminate.
      * rewrite upd_other in H by exact Hne. apply (I4 _ _ _ H).
    + intros j. specialize (Hlog j). unfold OutputOrder.log_is in *.
      simpl. destruct (Nat.ltb_spec j 5) as [Hj|Hj]; [exact Hlog|].
      simpl in *. destruct (j <? 5)%nat; exact Hlog.
Qed.

Lemma reachable_inv (s : State) :
  reachable sink_open s -> exists n, inv sink_open s n.
Proof.
  induction 1 as [|s s' _ [n I] Hstep].
  - exists 0%nat. apply inv_initial.
  - eapply inv_step; eassumption.
Qed.

(** C7: in every state the workers can reach, each of the five streams
    has received the block ids 0, 1, 2, ... in this order (as the 64-bit
    counter counts), without a gap; a thread that writes holds the lock and
    the block it popped when the head of the queue was
    [next_output_block_id], the counter having moved on since; a thread
    that waits for the lock has popped the block that is next; and a move
    either leaves the log of a stream alone or appends to it the id that
    follows its last one.  A thread comes to hold a block for writing
    only by popping it: the block was the top of the queue, no block of
    the queue had a smaller id, its id was [next_output_block_id], and the
    move took exactly this block out of the queue; it starts to write only
    from there, by the move that takes the lock and increments
    [next_output_block_id], before anything of the block is written; and
    the queue changes by a push or by such a pop only. *)
Theorem ordered_output (s : State) :
  reachable sink_open s ->
  (forall k, exists n, sink_log s k = ids n)
  /\ (forall t d k, pc s t = Writing d k ->
        output_lock s = Some t
        /\ next_output_block_id s = wrap64 (block_id d + 1))
  /\ (forall t d, pc s t = WaitLock d ->
        in_critical s = Some t /\ block_id d = next_output_block_id s)
  /\ (forall s' k, step sink_open s s' ->
        sink_log s' k = sink_log s k
        \/ exists n t d,
             pc s t = Writing d k /\ output_lock s = Some t
             /\ block_id d = wrap64 (Z.of_nat n)
             /\ sink_log s k = ids n
             /\ sink_log s' k = ids (S n))
  /\ (forall s' t d, step sink_open s s' ->
        pc s' t = WaitLock d ->
        pc s t = WaitLock d
        \/ (pc s t = AtDrain
            /\ pq_top (output_queue s) = Some d
            /\ (forall d', In d' (output_queue s) ->
                  block_id d <= block_id d')
            /\ block_id d = next_output_block_id s
            /\ output_queue s' = pq_pop (output_queue s)
            /\ Permutation (output_queue s) (d :: output_queue s')
            /\ next_output_block_id s' = next_output_block_id s
            /\ sink_log s' = sink_log s))
  /\ (forall s' t d k, step sink_open s s' ->
        pc s' t = Writing d k ->
        pc s t = Writing d k
        \/ (exists k', k = S k' /\ pc s t = Writing d k')
        \/ (k = 0%nat /\ pc s t = WaitLock d
            /\ next_output_block_id s'
               = wrap64 (next_output_block_id s + 1)
            /\ output_queue s' = output_queue s
            /\ sink_log s' = sink_log s))
  /\ (forall s', step sink_open s s' ->
        output_queue s' = output_queue s
        \/ (exists t d, pc s t = Classifying (block_id d)
                        /\ output_queue s' = d :: output_queue s)
        \/ (exists t d, pc s t = AtDrain /\ pc s' t = WaitLock d
                        /\ pq_top (output_queue s) = Some d
                        /\ output_queue s' = pq_pop (output_queue s))).
Proof.
  intros R. destruct (reachable_inv s R) as (n & I1 & I2 & I3 & I4 & I5).
  split; [|split; [|split; [|split; [|split; [|split]]]]].
  - intros k. destruct (output_lock s) as [t|].
    + destruct I5 as (d & k0 & m & _ & _ & _ & Hlog).
      specialize (Hlog k). unfold log_is in Hlog.
      destruct (k <? k0)%nat, ((k <? 5)%nat && sink_open k);
        eauto; exists 0%nat; exact Hlog.
    + specialize (I5 k). unfold log_is in I5.
      destruct ((k <? 5)%nat && sink_open k);
        eauto; exists 0%nat; exact I5.
  - intros t d k Hpc. destruct (I4 _ _ _ Hpc) as [Hl _].
    split; [exact Hl|]. rewrite Hl in I5.
    destruct I5 as (d0 & k0 & m & Hd & Hn & Hb & _).
    rewrite Hpc in Hd. injection Hd as <- <-.
    rewrite I1, Hn, Hb. symmetry. apply wrap64_succ.
  - exact I2.
  - intros s' k Hstep.
    destruct Hstep as [s t Hpc | s t Hpc | s t b d Hpc Hc Hb | s t Hpc Hc Hq
                      | s t d Hpc Hc Ht Hne | s t d Hpc Hc Ht Hb
                      | s t d Hpc Hl | s t d k0 Hpc Hk | s t d Hpc];
      try (left; reflexivity).
    simpl. unfold write_sink.
    destruct (sink_open k0) eqn:Ho; [|left; reflexivity].
    destruct (Nat.eq_dec k k0) as [->|Hne];
      [|left; apply upd_other; exact Hne].
    right. destruct (I4 _ _ _ Hpc) as [Hl _]. rewrite Hl in I5.
    destruct I5 as (d0 & k1 & m & Hd & Hn & Hb & Hlog).
    rewrite Hpc in Hd. injection Hd as <- <-.
    specialize (Hlog k0). rewrite Nat.ltb_irrefl in Hlog.
    unfold log_is in Hlog. rewrite Ho in Hlog.
    destruct (Nat.ltb_spec k0 5) as [_|]; [|lia]. simpl in Hlog.
    exists m, t, d. repeat split; try assumption.
    rewrite upd_same, Hlog, Hb. symmetry. apply ids_succ.
  - intros s' t d Hstep Hpc'.
    destruct Hstep as [s t0 Hpc | s t0 Hpc | s t0 b d0 Hpc Hc Hb
                      | s t0 Hpc Hc Hq
                      | s t0 d0 Hpc Hc Ht Hne | s t0 d0 Hpc Hc Ht Hb
                      | s t0 d0 Hpc Hl | s t0 d0 k0 Hpc Hk | s t0 d0 Hpc];
      simpl in Hpc';
      (destruct (Nat.eq_dec t t0) as [->|Hneq];
       [rewrite upd_same in Hpc'
       |rewrite upd_other in Hpc' by exact Hneq; left; exact Hpc']);
      try discriminate.
    injection Hpc' as ->. right. simpl.
    split; [exact Hpc|]. split; [exact Ht|].
    split; [apply pq_top_min; exact Ht|]. split; [exact Hb|].
    split; [reflexivity|]. split; [apply pq_pop_perm; exact Ht|].
    split; reflexivity.
  - intros s' t d k Hstep Hpc'.
    destruct Hstep as [s t0 Hpc | s t0 Hpc | s t0 b d0 Hpc Hc Hb
                      | s t0 Hpc Hc Hq
                      | s t0 d0 Hpc Hc Ht Hne | s t0 d0 Hpc Hc Ht Hb
                      | s t0 d0 Hpc Hl | s t0 d0 k0 Hpc Hk | s t0 d0 Hpc];
      simpl in Hpc';
      (destruct (Nat.eq_dec t t0) as [->|Hneq];
       [rewrite upd_same in Hpc'
       |rewrite upd_other in Hpc' by exact Hneq; left; exact Hpc']);
      try discriminate.
    + injection Hpc' as -> <-. right; right. simpl.
      repeat split; try reflexivity. exact Hpc.
    + injection Hpc' as -> <-. right; left. exists k0.
      split; [reflexivity | exact Hpc].
  - intros s' Hstep.
    destruct Hstep as [s t0 Hpc | s t0 Hpc | s t0 b d0 Hpc Hc Hb
                      | s t0 Hpc Hc Hq
                      | s t0 d0 Hpc Hc Ht Hne | s t0 d0 Hpc Hc Ht Hb
                      | s t0 d0 Hpc Hl | s t0 d0 k0 Hpc Hk | s t0 d0 Hpc];
      try (left; reflexivity).
    + right; left. exists t0, d0. rewrite Hb. split; [exact Hpc|].
      reflexivity.
    + right; right. exists t0, d0. simpl. rewrite upd_same.
      repeat split; assumption.
Qed.

End OrderedOutput.

Lemma ordered_output_witness :
  OutputOrder.reachable Examples.all_open Examples.run5
  /\ OutputOrder.sink_log Examples.run5 0%nat = [0]
  /\ forall k, exists n,
       OutputOrder.sink_log Examples.run5 k = OutputOrder.ids n.
Proof.
  assert (R : OutputOrder.reachable Examples.all_open Examples.run5).
  { apply OutputOrder.reach_step with (s := Examples.run4);
      [|apply OutputOrder.step_write; [reflexivity | lia]].
    apply OutputOrder.reach_step with (s := Examples.run3);
      [|apply OutputOrder.step_lock; reflexivity].
    apply OutputOrder.reach_step with (s := Examples.run2);
      [|apply OutputOrder.step_drain_pop; reflexivity].
    apply OutputOrder.reach_step with (s := Examples.run1);
      [|apply OutputOrder.step_push with (b := 0); reflexivity].
    apply OutputOrder.reach_step with (s := OutputOrder.initial);
      [apply OutputOrder.reach_initial|].
    apply (OutputOrder.step_read Examples.all_open OutputOrder.initial 0).
    reflexivity. }
  split; [exact R|]. split; [reflexivity|].
  apply (ordered_output Examples.all_open Examples.run5 R).
Defined.

(** ** ResolveTree and the iteration order of [hit_counts] *)

Lemma fold_left_perm_inv (A S : Type) (f : S -> A -> S)
    (P : S -> Prop) (Q : A -> Prop) :
  (forall s a, P s -> Q a -> P (f s a)) ->
  (forall s a b, P s -> Q a -> Q b -> f (f s a) b = f (f s b) a) ->
  forall l l', Permutation l l' ->
  forall s, P s -> Forall Q l -> fold_left f l s = fold_left f l' s.
Proof.
  intros Hpres Hswap l l' HP.
  induction HP as [|x l l' HP IH|x y l|l l' l'' HP1 IH1 HP2 IH2];
    intros s Hs HQ; simpl.
  - reflexivity.
  - inversion HQ; subst. apply IH; auto.
  - inversion HQ as [|? ? Hy HQ']; subst. inversion HQ'; subst.
    rewrite Hswap by assumption. reflexivity.
  - rewrite IH1 by assumption. apply IH2; [assumption|].
    eapply Permutation_Forall; eassumption.
Qed.

Lemma wrap32_add_swap (s a b : Z) :
  wrap32 (wrap32 (s + a) + b) = wrap32 (wrap32 (s + b) + a).
Proof.
  unfold wrap32. rewrite !Z.add_mod_idemp_l by lia. f_equal. lia.
Qed.

Lemma hc_get_Some_In (hc : taxon_counts_t) (t v : Z) :
  hc_get hc t = Some v -> In (t, v) hc.
Proof.
  induction hc as [|[k w] hc IH]; simpl; [discriminate|].
  destruct (Z.eqb_spec k t) as [->|_].
  - intros H. injection H as ->. left; reflexivity.
  - intros H. right. apply IH; exact H.
Qed.

Lemma hc_get_None_notin (hc : taxon_counts_t) (t : Z) :
  hc_get hc t = None <-> ~ In t (map fst hc).
Proof.
  induction hc as [|[k w] hc IH]; simpl.
  - split; auto.
  - destruct (Z.eqb_spec k t) as [->|Hne].
    + split; [discriminate|]. intros H. exfalso. apply H. left; reflexivity.
    + rewrite IH. split; intros H; [intros [E|E]; auto | auto].
Qed.

Lemma hc_get_In (hc : taxon_counts_t) (t v : Z) :
  NoDup (map fst hc) -> In (t, v) hc -> hc_get hc t = Some v.
Proof.
  induction hc as [|[k w] hc IH]; simpl; intros ND HIn; [contradiction|].
  inversion ND as [|? ? Hk ND']; subst.
  destruct HIn as [E|HIn].
  - injection E as -> ->. rewrite Z.eqb_refl. reflexivity.
  - destruct (Z.eqb_spec k t) as [->|_]; [|apply IH; assumption].
    exfalso. apply Hk. apply in_map_iff. exists (t, v). auto.
Qed.

Lemma hc_get_perm (hc1 hc2 : taxon_counts_t) (t : Z) :
  NoDup (map fst hc1) -> Permutation hc1 hc2 ->
  hc_get hc1 t = hc_get hc2 t.
Proof.
  intros ND HP.
  assert (ND2 : NoDup (map fst hc2))
    by (eapply Permutation_NoDup; [apply Permutation_map; exact HP | exact ND]).
  destruct (hc_get hc1 t) as [v|] eqn:E.
  - symmetry. apply hc_get_In; [exact ND2|].
    eapply Permutation_in; [exact HP|]. apply hc_get_Some_In; exact E.
  - symmetry. apply hc_get_None_notin. apply hc_get_None_notin in E.
    intros H. apply E.
    eapply Permutation_in; [apply Permutation_sym, Permutation_map; exact HP|].
    exact H.
Qed.

Section OrderFacts.
Context {collab : Collaborators}.
Variable tax : Taxonomy.

Lemma path_score_perm (hc1 hc2 : taxon_counts_t) (t : Z) :
  Permutation hc1 hc2 -> path_score tax hc1 t = path_score tax hc2 t.
Proof.
  intros HP. unfold path_score.
  apply (fold_left_perm_inv _ _ _ (fun _ => True) (fun _ => True));
    auto; [|apply Forall_forall; auto].
  intros s a b _ _ _.
  destruct (IsAAncestorOfB tax (fst a) t), (IsAAncestorOfB tax (fst b) t);
    try reflexivity.
  apply wrap32_add_swap.
Qed.

Lemma clade_score_perm (hc1 hc2 : taxon_counts_t) (t : Z) :
  Permutation hc1 hc2 -> clade_score tax hc1 t = clade_score tax hc2 t.
Proof.
  intros HP. unfold clade_score.
  apply (fold_left_perm_inv _ _ _ (fun _ => True) (fun _ => True));
    auto; [|apply Forall_forall; auto].
  intros s a b _ _ _.
  destruct (IsAAncestorOfB tax t (fst a)), (IsAAncestorOfB tax t (fst b));
    try reflexivity.
  apply wrap32_add_swap.
Qed.

Lemma climb_ext (hc1 hc2 : taxon_counts_t) (required : Z) :
  (forall t, clade_score tax hc1 t = clade_score tax hc2 t) ->
  forall fuel w s,
    climb fuel tax hc1 required w s = climb fuel tax hc2 required w s.
Proof.
  intros H. induction fuel as [|fuel IH]; intros w s; simpl; [reflexivity|].
  rewrite H, IH. reflexivity.
Qed.

Lemma phase1_step_gt (hc : taxon_counts_t) (w M : Z) (kv : Z * Z) :
  M < path_score tax hc (fst kv) ->
  phase1_step tax hc (w, M) kv = (fst kv, path_score tax hc (fst kv)).
Proof.
  intros H. unfold phase1_step.
  destruct (Z.ltb_spec M (path_score tax hc (fst kv))); [reflexivity | lia].
Qed.

Lemma phase1_step_eq (hc : taxon_counts_t) (w M : Z) (kv : Z * Z) :
  path_score tax hc (fst kv) = M ->
  phase1_step tax hc (w, M) kv = (LowestCommonAncestor tax w (fst kv), M).
Proof.
  intros H. unfold phase1_step. rewrite H, Z.ltb_irrefl, Z.eqb_refl.
  reflexivity.
Qed.

Lemma phase1_step_lt (hc : taxon_counts_t) (w M : Z) (kv : Z * Z) :
  path_score tax hc (fst kv) < M ->
  phase1_step tax hc (w, M) kv = (w, M).
Proof.
  intros H. unfold phase1_step.
  destruct (Z.ltb_spec M (path_score tax hc (fst kv))); [lia|].
  destruct (Z.eqb_spec (path_score tax hc (fst kv)) M); [lia | reflexivity].
Qed.

Variable V : Z -> Prop.
Hypothesis lca_null : forall a, V a -> LowestCommonAncestor tax 0 a = a.
Hypothesis lca_swap :
  forall x a b, x = 0 \/ V x -> V a -> V b ->
    LowestCommonAncestor tax (LowestCommonAncestor tax x a) b
    = LowestCommonAncestor tax (LowestCommonAncestor tax x b) a.
Hypothesis lca_closed :
  forall x a, x = 0 \/ V x -> V a -> V (LowestCommonAncestor tax x a).

Lemma lca_comm_in (a b : Z) :
  V a -> V b -> LowestCommonAncestor tax a b = LowestCommonAncestor tax b a.
Proof.
  intros Ha Hb. pose proof (lca_swap 0 a b (or_introl eq_refl) Ha Hb) as H.
  rewrite !lca_null in H by assumption. exact H.
Qed.

Lemma phase1_step_winner (hc : taxon_counts_t) (st : Z * Z) (kv : Z * Z) :
  winner_in V st -> V (fst kv) -> winner_in V (phase1_step tax hc st kv).
Proof.
  intros Hst Hkv. destruct st as [w M]. unfold winner_in in *. simpl in Hst.
  destruct (Z.lt_trichotomy M (path_score tax hc (fst kv))) as [H|[H|H]].
  - rewrite phase1_step_gt by exact H. right; exact Hkv.
  - rewrite phase1_step_eq by (symmetry; exact H). right.
    apply lca_closed; assumption.
  - rewrite phase1_step_lt by exact H. exact Hst.
Qed.

Lemma phase1_step_swap (hc : taxon_counts_t) (st : Z * Z) (a b : Z * Z) :
  winner_in V st -> V (fst a) -> V (fst b) ->
  phase1_step tax hc (phase1_step tax hc st a) b
  = phase1_step tax hc (phase1_step tax hc st b) a.
Proof.
  intros Hst Ha Hb. destruct st as [w M]. unfold winner_in in Hst.
  simpl in Hst.
  remember (path_score tax hc (fst a)) as sa eqn:Ea.
  remember (path_score tax hc (fst b)) as sb eqn:Eb.
  destruct (Z.lt_trichotomy M sa) as [HA|[HA|HA]];
    destruct (Z.lt_trichotomy M sb) as [HB|[HB|HB]];
    destruct (Z.lt_trichotomy sa sb) as [HC|[HC|HC]];
    try (exfalso; lia);
    repeat first [ rewrite phase1_step_gt by lia
                 | rewrite phase1_step_eq by lia
                 | rewrite phase1_step_lt by lia ];
    try reflexivity;
    f_equal; try lia.
  - apply lca_comm_in; assumption.
  - apply lca_swap; assumption.
Qed.

Lemma phase1_step_scores (hc1 hc2 : taxon_counts_t) :
  (forall t, path_score tax hc1 t = path_score tax hc2 t) ->
  forall order st,
    phase1_over tax hc1 order st = phase1_over tax hc2 order st.
Proof.
  intros H order. unfold phase1_over.
  induction order as [|kv order IH]; intros st; simpl; [reflexivity|].
  rewrite IH. f_equal. destruct st as [w M]. unfold phase1_step.
  rewrite H. reflexivity.
Qed.

Lemma phase1_perm (hc1 hc2 : taxon_counts_t) :
  Forall (fun kv => V (fst kv)) hc1 -> Permutation hc1 hc2 ->
  phase1 tax hc1 = phase1 tax hc2.
Proof.
  intros HV HP. unfold phase1.
  rewrite (phase1_step_scores hc1 hc2)
    by (intros t; apply path_score_perm; exact HP).
  unfold phase1_over.
  apply (fold_left_perm_inv _ _ _ (winner_in V) (fun kv => V (fst kv)));
    auto.
  - intros s a. apply phase1_step_winner.
  - intros s a b. apply phase1_step_swap.
  - left; reflexivity.
Qed.

Lemma ResolveTree_perm (fuel : nat) (hc1 hc2 : taxon_counts_t) (total : Z)
    (opts : Options) :
  NoDup (map fst hc1) -> Forall (fun kv => V (fst kv)) hc1 ->
  Permutation hc1 hc2 ->
  ResolveTree fuel hc1 tax total opts = ResolveTree fuel hc2 tax total opts.
Proof.
  intros ND HV HP. unfold ResolveTree.
  rewrite (phase1_perm hc1 hc2) by assumption.
  destruct (phase1 tax hc2) as [w M]. unfold hc_subscript.
  rewrite (hc_get_perm hc1 hc2 w) by assumption.
  destruct (hc_get hc2 w) as [v|].
  - apply climb_ext. intros t. apply clade_score_perm; exact HP.
  - apply climb_ext. intros t. apply clade_score_perm.
    apply Permutation_app_tail; exact HP.
Qed.

End OrderFacts.

(** ** The oracle of the specification on a well-formed taxonomy *)

Lemma mem_In (x : Z) (l : list Z) : mem x l = true <-> In x l.
Proof.
  unfold mem. rewrite existsb_exists. split.
  - intros (y & Hy & E). apply Z.eqb_eq in E. subst; exact Hy.
  - intros H. exists x. split; [exact H | apply Z.eqb_refl].
Qed.

Lemma find_split (A : Type) (p : A -> bool) (l : list A) (c : A) :
  find p l = Some c ->
  exists pre rest,
    l = pre ++ c :: rest /\ p c = true /\ forall x, In x pre -> p x = false.
Proof.
  induction l as [|y l IH]; simpl; [discriminate|].
  destruct (p y) eqn:E.
  - intros H. injection H as <-. exists [], l. repeat split; auto.
    intros x [].
  - intros H. destruct (IH H) as (pre & rest & -> & Hc & Hpre).
    exists (y :: pre), rest. repeat split; auto.
    intros x [<-|Hx]; auto.
Qed.

Section SpecTaxonomy.
Variables (tax : Taxonomy) (root : Z).
Hypothesis well_formed : wf_taxonomy tax root = true.

Lemma wf_at (t : Z) :
  in_table tax t = true ->
  in_table tax (parent_id (node_at tax t)) = true
  /\ ancestors tax t = parent_chain tax (S (List.length (nodes tax))) t
  /\ (t = 0 \/ In root (ancestors tax t)).
Proof.
  intros Ht. unfold in_table in Ht. apply andb_true_iff in Ht.
  destruct Ht as [H0 Hn]. apply Z.leb_le in H0. apply Z.ltb_lt in Hn.
  unfold wf_taxonomy in well_formed.
  rewrite forallb_forall in well_formed.
  specialize (well_formed (Z.to_nat t)).
  rewrite Z2Nat.id in well_formed by exact H0.
  assert (Hin : In (Z.to_nat t) (List.seq 0 (List.length (nodes tax))))
    by (apply in_seq; lia).
  specialize (well_formed Hin).
  apply andb_true_iff in well_formed. destruct well_formed as [H12 H3].
  apply andb_true_iff in H12. destruct H12 as [H1 H2].
  split; [exact H1|]. split.
  - unfold chain_complete in H2.
    destruct (list_eq_dec Z.eq_dec _ _) as [E|]; [exact E | discriminate].
  - unfold rooted_at in H3. apply orb_true_iff in H3.
    destruct H3 as [H3|H3]; [left; apply Z.eqb_eq; exact H3|].
    right. apply mem_In; exact H3.
Qed.

Lemma valid_in_table (t : Z) : valid_taxon tax t -> in_table tax t = true.
Proof.
  unfold valid_taxon, in_table. intros [H0 Hn].
  apply andb_true_iff. split; [apply Z.leb_le | apply Z.ltb_lt]; lia.
Qed.

Lemma in_table_cases (t : Z) :
  in_table tax t = true -> t = 0 \/ valid_taxon tax t.
Proof.
  unfold valid_taxon, in_table. intros H. apply andb_true_iff in H.
  destruct H as [H0 Hn]. apply Z.leb_le in H0. apply Z.ltb_lt in Hn. lia.
Qed.

Lemma ancestors_null : ancestors tax 0 = [].
Proof. unfold ancestors. destruct (List.length (nodes tax)); reflexivity. Qed.

Lemma ancestors_unfold (t : Z) :
  valid_taxon tax t ->
  ancestors tax t = t :: ancestors tax (parent_id (node_at tax t)).
Proof.
  intros Ht. destruct (wf_at t (valid_in_table t Ht)) as (_ & E & _).
  rewrite E. simpl. destruct Ht as [H0 _].
  destruct (Z.eqb_spec t 0); [lia | reflexivity].
Qed.

(** What follows a node on a chain is the chain of that node. *)
Lemma ancestors_suffix (pre : list Z) :
  forall t x rest,
    in_table tax t = true ->
    ancestors tax t = pre ++ x :: rest ->
    valid_taxon tax x /\ x :: rest = ancestors tax x.
Proof.
  induction pre as [|p pre IH]; intros t x rest Ht E;
    destruct (in_table_cases t Ht) as [->|Hv].
  - rewrite ancestors_null in E. discriminate.
  - rewrite (ancestors_unfold t Hv) in E. injection E as E1 E2.
    subst x rest. split; [exact Hv|]. symmetry. apply ancestors_unfold, Hv.
  - rewrite ancestors_null in E. discriminate.
  - rewrite (ancestors_unfold t Hv) in E. injection E as E1 E2.
    apply (IH (parent_id (node_at tax t))); [|exact E2].
    apply (wf_at t (valid_in_table t Hv)).
Qed.

Lemma ancestors_In (t x : Z) :
  in_table tax t = true -> In x (ancestors tax t) ->
  valid_taxon tax x /\ exists pre, ancestors tax t = pre ++ ancestors tax x.
Proof.
  intros Ht Hx. apply in_split in Hx. destruct Hx as (pre & rest & E).
  destruct (ancestors_suffix pre t x rest Ht E) as [Hv Hs].
  split; [exact Hv|]. exists pre. rewrite E, Hs. reflexivity.
Qed.

Lemma ancestors_self (t : Z) : valid_taxon tax t -> In t (ancestors tax t).
Proof. intros Hv. rewrite (ancestors_unfold t Hv). left; reflexivity. Qed.

Lemma ancestors_trans (x y z : Z) :
  in_table tax z = true ->
  In y (ancestors tax z) -> In x (ancestors tax y) -> In x (ancestors tax z).
Proof.
  intros Hz Hy Hx. destruct (ancestors_In z y Hz Hy) as (_ & pre & E).
  rewrite E. apply in_or_app. right; exact Hx.
Qed.

Lemma ancestors_antisym (x t : Z) :
  in_table tax t = true ->
  In x (ancestors tax t) -> In t (ancestors tax x) -> x = t.
Proof.
  intros Ht Hx Htx.
  destruct (ancestors_In t x Ht Hx) as (Hvx & pre & E).
  destruct (ancestors_In x t (valid_in_table x Hvx) Htx) as (Hvt & pre' & E').
  assert (Hlen : List.length (ancestors tax t)
                 = (List.length pre + List.length (ancestors tax x))%nat)
    by (rewrite E at 1; apply length_app).
  assert (Hlen' : List.length (ancestors tax x)
                  = (List.length pre' + List.length (ancestors tax t))%nat)
    by (rewrite E' at 1; apply length_app).
  destruct pre as [|p pre]; [|simpl in Hlen; lia].
  simpl in E. rewrite (ancestors_unfold t Hvt) in E.
  rewrite (ancestors_unfold x Hvx) in E. injection E as E _. auto.
Qed.

Lemma deepest_shared_unique (a b c c' : Z) :
  deepest_shared tax a b c -> deepest_shared tax a b c' -> c = c'.
Proof.
  intros (Hv & Ha & Hb & Hd) (Hv' & Ha' & Hb' & Hd').
  apply ancestors_antisym; [apply valid_in_table; exact Hv'| |]; auto.
Qed.

Lemma spec_lca_deepest (a b : Z) :
  valid_taxon tax a -> valid_taxon tax b ->
  deepest_shared tax a b (spec_LowestCommonAncestor tax a b).
Proof.
  intros Ha Hb. unfold spec_LowestCommonAncestor.
  destruct (Z.eqb_spec a 0) as [->|_]; [destruct Ha; lia|].
  destruct (Z.eqb_spec b 0) as [->|_]; [destruct Hb; lia|].
  pose proof (valid_in_table a Ha) as Ta.
  pose proof (valid_in_table b Hb) as Tb.
  destruct (find (fun x => mem x (ancestors tax b)) (ancestors tax a))
    as [c|] eqn:F.
  - destruct (find_split _ _ _ _ F) as (pre & rest & E & Hc & Hpre).
    destruct (ancestors_suffix pre a c rest Ta E) as [Hv Hs].
    split; [exact Hv|]. split; [|split].
    + rewrite E. apply in_or_app. right; left; reflexivity.
    + apply mem_In; exact Hc.
    + intros x Hxa Hxb. rewrite <- Hs. rewrite E in Hxa.
      apply in_app_or in Hxa. destruct Hxa as [Hxa|Hxa]; [|exact Hxa].
      apply Hpre in Hxa. apply mem_In in Hxb. congruence.
  - exfalso.
    destruct (wf_at a Ta) as (_ & _ & [->|Hra]); [destruct Ha; lia|].
    destruct (wf_at b Tb) as (_ & _ & [->|Hrb]); [destruct Hb; lia|].
    pose proof (find_none _ _ F root Hra) as Hn. simpl in Hn.
    apply mem_In in Hrb. congruence.
Qed.

Lemma spec_lca_null (a : Z) : spec_LowestCommonAncestor tax 0 a = a.
Proof. reflexivity. Qed.

Lemma spec_lca_valid (x a : Z) :
  x = 0 \/ valid_taxon tax x -> valid_taxon tax a ->
  valid_taxon tax (spec_LowestCommonAncestor tax x a).
Proof.
  intros [->|Hx] Ha; [exact Ha|].
  apply (spec_lca_deepest x a Hx Ha).
Qed.

Lemma spec_lca_comm (a b : Z) :
  valid_taxon tax a -> valid_taxon tax b ->
  spec_LowestCommonAncestor tax a b = spec_LowestCommonAncestor tax b a.
Proof.
  intros Ha Hb. apply (deepest_shared_unique a b).
  - apply spec_lca_deepest; assumption.
  - destruct (spec_lca_deepest b a Hb Ha) as (Hv & H1 & H2 & H3).
    split; [exact Hv|]. split; [exact H2|]. split; [exact H1|].
    intros x Hxa Hxb. apply H3; assumption.
Qed.

(** The LCA of three nodes does not depend on the order they are taken
    in. *)
Lemma spec_lca_swap (x a b : Z) :
  x = 0 \/ valid_taxon tax x -> valid_taxon tax a -> valid_taxon tax b ->
  spec_LowestCommonAncestor tax (spec_LowestCommonAncestor tax x a) b
  = spec_LowestCommonAncestor tax (spec_LowestCommonAncestor tax x b) a.
Proof.
  intros [->|Hx] Ha Hb.
  - rewrite !spec_lca_null. apply spec_lca_comm; assumption.
  - set (d := spec_LowestCommonAncestor tax x a).
    set (d' := spec_LowestCommonAncestor tax x b).
    destruct (spec_lca_deepest x a Hx Ha) as (Hd & Hdx & Hda & Hdd).
    destruct (spec_lca_deepest x b Hx Hb) as (Hd' & Hdx' & Hdb' & Hdd').
    fold d in Hd, Hdx, Hda, Hdd. fold d' in Hd', Hdx', Hdb', Hdd'.
    destruct (spec_lca_deepest d b Hd Hb) as (He & Hed & Heb & Hee).
    destruct (spec_lca_deepest d' a Hd' Ha) as (He' & Hed' & Hea' & Hee').
    pose proof (valid_in_table x Hx) as Tx.
    pose proof (valid_in_table a Ha) as Ta.
    pose proof (valid_in_table b Hb) as Tb.
    apply ancestors_antisym.
    + apply valid_in_table; exact He'.
    + apply Hee'; [|exact (ancestors_trans _ d a Ta Hda Hed)].
      apply Hdd'; [exact (ancestors_trans _ d x Tx Hdx Hed) | exact Heb].
    + apply Hee; [|exact (ancestors_trans _ d' b Tb Hdb' Hed')].
      apply Hdd; [exact (ancestors_trans _ d' x Tx Hdx' Hed') | exact Hea'].
Qed.

End SpecTaxonomy.

(** C9, as stated, fails: [ResolveTree] visits [hit_counts] in the order
    of the container and does not sort.  With the keys met in the order
    3, 2 (two children of the root 1, one hit each) the winners of phase 1
    are 3 and then 1; a visit sorted by taxon id goes through 2 and then
    1. *)
Lemma ResolveTree_visit_not_sorted :
  ~ @visits_sorted Examples.toy Examples.star [(3, 1); (2, 1)].
Proof. unfold visits_sorted. vm_compute. discriminate. Qed.

(** C9, amended: [ResolveTree] visits [hit_counts] in the order of the
    container, and its result does not depend on that order.  Whenever the
    LCA of the taxonomy has 0 as neutral element and does not depend on the
    order three nodes are taken in, on a set of nodes closed under it, two
    maps with the same contents (one a permutation of the other, keys
    unique and in the set) give the same result for the same
    [total_minimizers], threshold and fuel, ties included.  The oracle of
    the specification on a well-formed rooted taxonomy is such an LCA. *)
Theorem ResolveTree_order_independent (collab : Collaborators)
    (tax : Taxonomy) :
  (forall V : Z -> Prop,
     (forall a, V a -> LowestCommonAncestor tax 0 a = a) ->
     (forall x a b, x = 0 \/ V x -> V a -> V b ->
        LowestCommonAncestor tax (LowestCommonAncestor tax x a) b
        = LowestCommonAncestor tax (LowestCommonAncestor tax x b) a) ->
     (forall x a, x = 0 \/ V x -> V a ->
        V (LowestCommonAncestor tax x a)) ->
     forall fuel hc1 hc2 total opts,
       NoDup (map fst hc1) -> Forall (fun kv => V (fst kv)) hc1 ->
       Permutation hc1 hc2 ->
       ResolveTree fuel hc1 tax total opts
       = ResolveTree fuel hc2 tax total opts)
  /\ (forall root,
        wf_taxonomy tax root = true ->
        (forall a b, LowestCommonAncestor tax a b
                     = spec_LowestCommonAncestor tax a b) ->
        forall fuel hc1 hc2 total opts,
          NoDup (map fst hc1) ->
          Forall (fun kv => valid_taxon tax (fst kv)) hc1 ->
          Permutation hc1 hc2 ->
          ResolveTree fuel hc1 tax total opts
          = ResolveTree fuel hc2 tax total opts).
Proof.
  split.
  - intros V H0 Hs Hc fuel hc1 hc2 total opts ND HV HP.
    apply (ResolveTree_perm tax V H0 Hs Hc); assumption.
  - intros root Hwf Hlca fuel hc1 hc2 total opts ND HV HP.
    apply (ResolveTree_perm tax (valid_taxon tax)); try assumption.
    + intros a _. rewrite Hlca. reflexivity.
    + intros x a b Hx Ha Hb. rewrite !Hlca.
      apply (spec_lca_swap tax root Hwf); assumption.
    + intros x a Hx Ha. rewrite Hlca.
      apply (spec_lca_valid tax root Hwf); assumption.
Qed.

Lemma ResolveTree_order_independent_witness :
  @ResolveTree Examples.toy 5 [(3, 1); (2, 1)] Examples.star 2
    Examples.plain_opts
  = @ResolveTree Examples.toy 5 [(2, 1); (3, 1)] Examples.star 2
      Examples.plain_opts.
Proof.
  apply (proj2 (ResolveTree_order_independent Examples.toy Examples.star) 1).
  - vm_compute; reflexivity.
  - reflexivity.
  - repeat constructor; simpl; intuition discriminate.
  - repeat constructor; vm_compute; reflexivity.
  - apply perm_swap.
Defined.

(** * Further properties of the code *)

(** ** MaskLowQualityBases *)

Lemma mask_bases_length (s q : string) (m : Z) :
  String.length (mask_bases s q m) = String.length s.
Proof.
  revert q. induction s as [|b s IH]; intros [|c q]; simpl; auto.
Qed.

Lemma mask_bases_get (s q : string) (m : Z) :
  forall i b c,
    String.get i s = Some b -> String.get i q = Some c ->
    String.get i (mask_bases s q m)
    = Some (if char_to_int c - 33 <? m then "x"%char else b).
Proof.
  revert q. induction s as [|b0 s IH]; intros [|c0 q] i b c Hs Hq;
    try (destruct i; discriminate).
  destruct i as [|i]; simpl in *.
  - injection Hs as <-. injection Hq as <-. reflexivity.
  - apply IH; assumption.
Qed.

Lemma mask_bases_max (s q : string) (m1 m2 : Z) :
  mask_bases (mask_bases s q m1) q m2 = mask_bases s q (Z.max m1 m2).
Proof.
  revert q. induction s as [|b s IH]; intros [|c q]; simpl; auto.
  rewrite IH. f_equal.
  destruct (Z.ltb_spec (char_to_int c - 33) m1),
           (Z.ltb_spec (char_to_int c - 33) m2),
           (Z.ltb_spec (char_to_int c - 33) (Z.max m1 m2));
    try reflexivity; lia.
Qed.

(** X1: on a FASTQ record whose quality string is as long as the sequence,
    masking keeps the header, the qualities and the length, and position
    by position writes x where the quality character minus '!' is below
    the threshold and leaves the base otherwise; a FASTA record is
    returned as it is; a FASTQ record with a quality string of another
    length ends the process. *)
Theorem MaskLowQualityBases_pointwise (dna : Sequence) (m : Z) :
  (format dna = FORMAT_FASTA -> MaskLowQualityBases dna m = Some dna)
  /\ (format dna = FORMAT_FASTQ ->
      String.length (seq dna) <> String.length (quals dna) ->
      MaskLowQualityBases dna m = None)
  /\ (format dna = FORMAT_FASTQ ->
      String.length (seq dna) = String.length (quals dna) ->
      exists dna',
        MaskLowQualityBases dna m = Some dna'
        /\ format dna' = format dna /\ header dna' = header dna
        /\ quals dna' = quals dna
        /\ String.length (seq dna') = String.length (seq dna)
        /\ forall i b c,
             String.get i (seq dna) = Some b ->
             String.get i (quals dna) = Some c ->
             String.get i (seq dna')
             = Some (if char_to_int c - 33 <? m then "x"%char else b)).
Proof.
  unfold MaskLowQualityBases. split; [|split].
  - intros ->. reflexivity.
  - intros -> Hne.
    destruct (Nat.eqb_spec (String.length (seq dna))
                (String.length (quals dna))); [contradiction | reflexivity].
  - intros -> He.
    destruct (Nat.eqb_spec (String.length (seq dna))
                (String.length (quals dna))); [|contradiction].
    simpl. eexists. split; [reflexivity|]. simpl. repeat split.
    + apply mask_bases_length.
    + apply mask_bases_get.
Qed.

Lemma MaskLowQualityBases_pointwise_witness :
  MaskLowQualityBases
    (mkSequence FORMAT_FASTQ "r" "ACGT" "I!I#") 3
  = Some (mkSequence FORMAT_FASTQ "r" "AxGx" "I!I#").
Proof.
  destruct (proj2 (proj2 (MaskLowQualityBases_pointwise
              (mkSequence FORMAT_FASTQ "r" "ACGT" "I!I#") 3))
              eq_refl eq_refl) as (dna' & E & _).
  rewrite E. vm_compute in E. injection E as <-. reflexivity.
Defined.

(** X2: masking a record at one threshold and the result at another is
    masking the record once at the larger of the two; so masking twice at
    the same threshold changes nothing more. *)
Theorem MaskLowQualityBases_twice (dna dna1 : Sequence) (m1 m2 : Z) :
  MaskLowQualityBases dna m1 = Some dna1 ->
  MaskLowQualityBases dna1 m2 = MaskLowQualityBases dna (Z.max m1 m2)
  /\ MaskLowQualityBases dna1 m1 = Some dna1.
Proof.
  unfold MaskLowQualityBases. intros H.
  destruct (format dna) eqn:F.
  - injection H as <-. rewrite F. split; reflexivity.
  - destruct (Nat.eqb_spec (String.length (seq dna))
                (String.length (quals dna))) as [He|]; [|discriminate].
    simpl in H. injection H as <-. simpl.
    rewrite mask_bases_length, He, Nat.eqb_refl. simpl.
    rewrite !mask_bases_max, Z.max_id. split; reflexivity.
Qed.

Lemma MaskLowQualityBases_twice_witness :
  MaskLowQualityBases (mkSequence FORMAT_FASTQ "r" "AxGx" "I!I#") 8
  = MaskLowQualityBases (mkSequence FORMAT_FASTQ "r" "ACGT" "I!I#") 8.
Proof.
  rewrite (proj1 (MaskLowQualityBases_twice
                    (mkSequence FORMAT_FASTQ "r" "ACGT" "I!I#")
                    (mkSequence FORMAT_FASTQ "r" "AxGx" "I!I#") 3 8
                    eq_refl)).
  reflexivity.
Defined.

(** ** AddHitlistString: the run-length code *)

Lemma expand_runs_from (rest : list Z) :
  forall lc cc,
    0 <= cc ->
    expand_runs (runs_from rest lc cc) = repeat lc (Z.to_nat cc) ++ rest.
Proof.
  unfold expand_runs.
  induction rest as [|code rest IH]; intros lc cc Hcc; simpl.
  - reflexivity.
  - destruct (Z.eqb_spec code lc) as [->|Hne].
    + rewrite IH by lia.
      replace (Z.to_nat (cc + 1)) with (Z.to_nat cc + 1)%nat by lia.
      rewrite repeat_app, <- app_assoc. reflexivity.
    + simpl. rewrite IH by lia. reflexivity.
Qed.

Lemma runs_from_positive (rest : list Z) :
  forall lc cc,
    0 < cc -> Forall (fun r => 0 < snd r) (runs_from rest lc cc).
Proof.
  induction rest as [|code rest IH]; intros lc cc Hcc; simpl.
  - constructor; [exact Hcc | constructor].
  - destruct (code =? lc); [apply IH; lia|].
    constructor; [exact Hcc | apply IH; lia].
Qed.

Lemma runs_from_head (rest : list Z) :
  forall lc cc, exists n rs, runs_from rest lc cc = (lc, n) :: rs.
Proof.
  induction rest as [|code rest IH]; intros lc cc; simpl.
  - eauto.
  - destruct (code =? lc); [apply IH | eauto].
Qed.

Lemma runs_from_maximal (rest : list Z) :
  forall lc cc, runs_maximal (runs_from rest lc cc).
Proof.
  induction rest as [|code rest IH]; intros lc cc; simpl.
  - exact I.
  - destruct (Z.eqb_spec code lc) as [->|Hne]; [apply IH|].
    pose proof (IH code 1) as Hm.
    destruct (runs_from_head rest code 1) as (n & rs & E).
    rewrite E in Hm |- *. simpl. split; [congruence | exact Hm].
Qed.

(** X3: the runs that [AddHitlistString] writes are a run-length code of
    the trail: written out again they give the trail back, every run has a
    positive length, and no two neighbouring runs carry the same code. *)
Theorem hitlist_runs_round_trip (tax : Taxonomy) (oss : string)
    (taxa : list Z) :
  AddHitlistString tax oss taxa
    = (oss ++ render_runs tax (hitlist_runs taxa))%string
  /\ expand_runs (hitlist_runs taxa) = taxa
  /\ Forall (fun r => 0 < snd r) (hitlist_runs taxa)
  /\ runs_maximal (hitlist_runs taxa).
Proof.
  split; [apply AddHitlistString_runs|].
  destruct taxa as [|t0 rest]; simpl.
  - repeat split. constructor.
  - split; [|split].
    + rewrite expand_runs_from by lia. reflexivity.
    + apply runs_from_positive; lia.
    + apply runs_from_maximal.
Qed.

Lemma emit_run_border (tax : Taxonomy) (c n : Z) :
  is_border c = true -> emit_run tax c n = emit_run tax c 1.
Proof.
  unfold is_border, emit_run. intros H.
  destruct (c =? MATE_PAIR_BORDER_TAXON),
           (c =? READING_FRAME_BORDER_TAXON); try discriminate; reflexivity.
Qed.

Lemma emit_last_run_border (tax : Taxonomy) (c n : Z) :
  is_border c = true -> emit_last_run tax c n = emit_last_run tax c 1.
Proof.
  unfold is_border, emit_last_run. intros H.
  destruct (c =? MATE_PAIR_BORDER_TAXON),
           (c =? READING_FRAME_BORDER_TAXON); try discriminate; reflexivity.
Qed.

Lemma render_runs_forget (tax : Taxonomy) (rs : list (Z * Z)) :
  render_runs tax (forget_border_counts rs) = render_runs tax rs.
Proof.
  induction rs as [|[c n] rs IH]; [reflexivity|].
  destruct rs as [|r rs].
  - simpl. destruct (is_border c) eqn:B; [|reflexivity].
    simpl. symmetry. apply emit_last_run_border; exact B.
  - change (forget_border_counts ((c, n) :: r :: rs))
      with ((if is_border c then (c, 1) else (c, n))
              :: forget_border_counts (r :: rs)).
    rewrite (render_runs_cons tax c n) by discriminate.
    destruct (is_border c) eqn:B.
    + rewrite (render_runs_cons tax c 1) by discriminate.
      rewrite IH, <- (emit_run_border tax c n B). reflexivity.
    + rewrite (render_runs_cons tax c n) by discriminate.
      rewrite IH. reflexivity.
Qed.

(** X4: the hitlist does not tell how many border markers stand in a row:
    two trails whose runs differ only in the lengths of runs of a border
    marker are written as the same hitlist.  Five reading-frame markers in
    a row, as an empty read leaves them in translated mode, are written as
    one "-:-". *)
Theorem AddHitlistString_border_runs (tax : Taxonomy) (oss : string)
    (taxa1 taxa2 : list Z) :
  forget_border_counts (hitlist_runs taxa1)
    = forget_border_counts (hitlist_runs taxa2) ->
  AddHitlistString tax oss taxa1 = AddHitlistString tax oss taxa2.
Proof.
  intros H. rewrite !AddHitlistString_runs.
  rewrite <- (render_runs_forget tax (hitlist_runs taxa1)), H.
  rewrite render_runs_forget. reflexivity.
Qed.

Lemma AddHitlistString_border_runs_witness :
  AddHitlistString Examples.star EmptyString
    (repeat READING_FRAME_BORDER_TAXON 5)
  = AddHitlistString Examples.star EmptyString [READING_FRAME_BORDER_TAXON]
  /\ AddHitlistString Examples.star EmptyString
       [READING_FRAME_BORDER_TAXON] = "-:-"%string.
Proof.
  split; [|reflexivity].
  apply AddHitlistString_border_runs. vm_compute. reflexivity.
Defined.

(** ** AddHitlistString: the end of the hitlist *)

Lemma last_char_nonempty (c : ascii) (s : string) :
  last_char (String c s) <> None.
Proof.
  revert c. induction s as [|a s IH]; intros c; [discriminate|].
  change (last_char (String a s) <> None). apply IH.
Qed.

Lemma last_char_cons (c : ascii) (s : string) :
  last_char (String c s)
  = match last_char s with None => Some c | Some x => Some x end.
Proof.
  destruct s as [|a s]; [reflexivity|].
  change (last_char (String c (String a s))) with (last_char (String a s)).
  pose proof (last_char_nonempty a s) as H.
  destruct (last_char (String a s)); [reflexivity | contradiction].
Qed.

Lemma last_char_digits (d : Decimal.uint) :
  last_char (NilEmpty.string_of_uint d) <> Some " "%char.
Proof.
  induction d; simpl NilEmpty.string_of_uint;
    try discriminate; rewrite last_char_cons;
    destruct (last_char (NilEmpty.string_of_uint d));
    try assumption; discriminate.
Qed.

Lemma dec_last_char (z : Z) :
  dec z <> EmptyString /\ last_char (dec z) <> Some " "%char.
Proof.
  unfold dec, NilZero.string_of_uint.
  destruct (N.to_uint (Z.to_N z)) eqn:E;
    try (split; [simpl; discriminate | rewrite <- E; apply last_char_digits]).
  split; discriminate.
Qed.

Lemma emit_last_run_no_space (tax : Taxonomy) (c n : Z) :
  c <> AMBIGUOUS_SPAN_TAXON ->
  emit_last_run tax c n <> EmptyString
  /\ last_char (emit_last_run tax c n) <> Some " "%char.
Proof.
  intros Hc. unfold emit_last_run.
  destruct (negb (c =? MATE_PAIR_BORDER_TAXON)
            && negb (c =? READING_FRAME_BORDER_TAXON)).
  - destruct (Z.eqb_spec c AMBIGUOUS_SPAN_TAXON) as [|_]; [contradiction|].
    destruct (dec_last_char n) as [Hn Hl].
    split.
    + destruct (dec (external_id (node_at tax c))); simpl; discriminate.
    + rewrite last_char_app
        by (destruct (dec n); [contradiction | discriminate]).
      change (":" ++ dec n)%string with (String ":" (dec n)).
      rewrite last_char_cons.
      destruct (last_char (dec n)) eqn:E; [exact Hl | discriminate].
  - destruct (c =? MATE_PAIR_BORDER_TAXON); split; discriminate.
Qed.

(** X5: unless the last entry of the trail is an ambiguous span, the text
    that [AddHitlistString] appends is not empty and does not end with a
    space. *)
Theorem AddHitlistString_no_trailing_space (tax : Taxonomy) (oss : string)
    (taxa : list Z) (t : Z) :
  t <> AMBIGUOUS_SPAN_TAXON ->
  last_char (AddHitlistString tax oss (taxa ++ [t])) <> Some " "%char
  /\ last_char (AddHitlistString tax oss (taxa ++ [t])) <> None.
Proof.
  intros Ht.
  assert (exists t0 rest, taxa ++ [t] = t0 :: rest /\ last rest t0 = t)
    as (t0 & rest & E & L).
  { destruct taxa as [|t0 taxa]; simpl.
    - exists t, []. split; reflexivity.
    - exists t0, (taxa ++ [t]). split; [reflexivity | apply last_last]. }
  rewrite E. unfold AddHitlistString.
  pose proof (hitlist_loop_last tax rest t0 1 oss) as Hl.
  destruct (hitlist_loop tax rest t0 1 oss) as [[oss' lc'] cc'].
  simpl in Hl. rewrite Hl, L.
  destruct (emit_last_run_no_space tax t cc' Ht) as [Hne Hsp].
  rewrite last_char_app by exact Hne. split; [exact Hsp|].
  destruct (emit_last_run tax t cc') as [|c s]; [contradiction|].
  rewrite last_char_cons. destruct (last_char s); discriminate.
Qed.

Lemma AddHitlistString_no_trailing_space_witness :
  last_char (AddHitlistString Examples.star EmptyString
               ([10; AMBIGUOUS_SPAN_TAXON] ++ [20])) <> Some " "%char.
Proof.
  apply (AddHitlistString_no_trailing_space Examples.star EmptyString
           [10; AMBIGUOUS_SPAN_TAXON] 20).
  vm_compute. discriminate.
Defined.

(** ** TrimPairInfo on the two mates of a pair *)

Lemma string_length_app (a b : string) :
  String.length (a ++ b) = (String.length a + String.length b)%nat.
Proof. induction a; simpl; auto. Qed.

Lemma string_get_app_r (a b : string) (i : nat) :
  String.get (String.length a + i) (a ++ b) = String.get i b.
Proof. induction a; simpl; auto. Qed.

Lemma substring_prefix (a b : string) :
  String.substring 0 (String.length a) (a ++ b) = a.
Proof.
  induction a as [|c a IH]; simpl.
  - destruct b; reflexivity.
  - rewrite IH. reflexivity.
Qed.

(** X6: the ids of the two mates of a pair are trimmed to the same id: for
    a non-empty [x], both [x/1] and [x/2] become [x]. *)
Theorem TrimPairInfo_mates (x : string) :
  x <> EmptyString ->
  TrimPairInfo (x ++ "/1") = x /\ TrimPairInfo (x ++ "/2") = x.
Proof.
  intros Hx.
  assert (Hlen : (0 < String.length x)%nat)
    by (destruct x; [contradiction | simpl; lia]).
  assert (H : forall m : ascii,
            (Ascii.eqb m "1" || Ascii.eqb m "2") = true ->
            TrimPairInfo (x ++ String "/" (String m EmptyString)) = x).
  { intros m Hm. unfold TrimPairInfo.
    rewrite string_length_app. simpl String.length.
    destruct (Nat.leb_spec (String.length x + 2) 2); [lia|].
    replace (String.length x + 2 - 2)%nat with (String.length x + 0)%nat
      by lia.
    replace (String.length x + 2 - 1)%nat with (String.length x + 1)%nat
      by lia.
    rewrite !string_get_app_r.
    change (String.get 0 (String "/" (String m EmptyString)))
      with (Some "/"%char).
    change (String.get 1 (String "/" (String m EmptyString)))
      with (Some m).
    cbv iota beta. rewrite Hm.
    change (Ascii.eqb "/" "/" && true) with true. cbv iota.
    rewrite Nat.add_0_r. apply substring_prefix. }
  split; apply H; reflexivity.
Qed.

Lemma TrimPairInfo_mates_witness :
  TrimPairInfo "read7/1" = TrimPairInfo "read7/2".
Proof.
  destruct (TrimPairInfo_mates "read7") as [H1 H2]; [discriminate|].
  change "read7/1"%string with ("read7" ++ "/1")%string.
  change "read7/2"%string with ("read7" ++ "/2")%string.
  rewrite H1, H2. reflexivity.
Defined.

(** ** ClassifySequence: what the loops leave in [hit_counts] *)

Lemma hc_count_incr (hc : taxon_counts_t) (t u : Z) :
  hc_count (hc_incr hc t) u
  = if u =? t then wrap32 (hc_count hc t + 1) else hc_count hc u.
Proof.
  unfold hc_count. induction hc as [|[k v] hc IH]; simpl.
  - destruct (Z.eqb_spec t u) as [->|Hne].
    + rewrite Z.eqb_refl. reflexivity.
    + destruct (Z.eqb_spec u t); [congruence | reflexivity].
  - destruct (Z.eqb_spec k t) as [->|Hkt]; simpl.
    + destruct (Z.eqb_spec t u) as [->|Hne].
      * rewrite Z.eqb_refl. reflexivity.
      * destruct (Z.eqb_spec u t); [congruence | reflexivity].
    + destruct (Z.eqb_spec k u) as [->|Hku].
      * destruct (Z.eqb_spec u t); [congruence | reflexivity].
      * exact IH.
Qed.

Lemma hc_incr_keys (hc : taxon_counts_t) (t k : Z) :
  In k (map fst (hc_incr hc t)) <-> k = t \/ In k (map fst hc).
Proof.
  induction hc as [|[k0 v] hc IH]; simpl.
  - intuition.
  - destruct (Z.eqb_spec k0 t) as [->|Hne]; simpl; [intuition|].
    rewrite IH. intuition.
Qed.

Lemma hc_incr_NoDup (hc : taxon_counts_t) (t : Z) :
  NoDup (map fst hc) -> NoDup (map fst (hc_incr hc t)).
Proof.
  induction hc as [|[k0 v] hc IH]; simpl; intros ND.
  - constructor; [intros [] | constructor].
  - inversion ND as [|? ? Hk ND']; subst.
    destruct (Z.eqb_spec k0 t) as [->|Hne]; simpl.
    + constructor; assumption.
    + constructor; [|apply IH; exact ND'].
      rewrite hc_incr_keys. intros [E|E]; [congruence | contradiction].
Qed.

Lemma occurrences_snoc (t x : Z) (taxa : list Z) :
  occurrences t (taxa ++ [x])
  = occurrences t taxa + (if x =? t then 1 else 0).
Proof.
  unfold occurrences. rewrite count_occ_app. simpl.
  destruct (Z.eq_dec x t) as [->|Hne].
  - rewrite Z.eqb_refl. lia.
  - destruct (Z.eqb_spec x t); [contradiction | lia].
Qed.

Lemma wrap32_succ (z : Z) : wrap32 (wrap32 z + 1) = wrap32 (z + 1).
Proof. unfold wrap32. rewrite Z.add_mod_idemp_l by lia. reflexivity. Qed.

Lemma hits_match_push_other (hc : taxon_counts_t) (taxa : list Z) (x : Z) :
  x = 0 \/ is_sentinel x = true ->
  hits_match_trail hc taxa -> hits_match_trail hc (taxa ++ [x]).
Proof.
  intros Hx (ND & H0 & Hc). repeat split; try assumption.
  intros t Ht Hs. rewrite occurrences_snoc, Hc by assumption.
  destruct (Z.eqb_spec x t) as [->|_]; [|rewrite Z.add_0_r; reflexivity].
  destruct Hx; congruence.
Qed.

Lemma hits_match_push_hit (hc : taxon_counts_t) (taxa : list Z) (x : Z) :
  x <> 0 ->
  hits_match_trail hc taxa -> hits_match_trail (hc_incr hc x) (taxa ++ [x]).
Proof.
  intros Hx (ND & H0 & Hc). split; [|split].
  - apply hc_incr_NoDup; exact ND.
  - rewrite hc_incr_keys. intros [E|E]; [congruence | contradiction].
  - intros t Ht Hs. rewrite occurrences_snoc, hc_count_incr.
    destruct (Z.eqb_spec t x) as [->|Hne].
    + rewrite Z.eqb_refl, Hc, wrap32_succ by assumption. reflexivity.
    + destruct (Z.eqb_spec x t); [congruence|].
      rewrite Z.add_0_r. apply Hc; assumption.
Qed.

Section HitFacts.
Context {collab : Collaborators}.
Variables (idx_opts : IndexOptions) (opts : Options).

Lemma minimizer_loop_hits (minimizers : list (Z * bool)) :
  forall lm lt st,
    hits_match_trail (hit_counts st) (taxa st) ->
    hits_match_trail
      (hit_counts (minimizer_loop idx_opts opts minimizers lm lt st))
      (taxa (minimizer_loop idx_opts opts minimizers lm lt st)).
Proof.
  induction minimizers as [|[m amb] rest IH]; intros lm lt st H;
    [exact H|].
  assert (Hstep : forall (t lm' lt' : Z) (st' : ScanState),
            hit_counts st' = hit_counts st -> taxa st' = taxa st ->
            hits_match_trail
              (hit_counts
                 (if negb (t =? 0)
                  then if quick_mode opts
                          && (minimum_hit_groups opts
                              <=? minimizer_hit_groups st')
                       then quick_exit t st'
                       else minimizer_loop idx_opts opts rest lm' lt'
                              (push_taxon t (count_hit t st'))
                  else minimizer_loop idx_opts opts rest lm' lt'
                         (push_taxon t st')))
              (taxa
                 (if negb (t =? 0)
                  then if quick_mode opts
                          && (minimum_hit_groups opts
                              <=? minimizer_hit_groups st')
                       then quick_exit t st'
                       else minimizer_loop idx_opts opts rest lm' lt'
                              (push_taxon t (count_hit t st'))
                  else minimizer_loop idx_opts opts rest lm' lt'
                         (push_taxon t st')))).
  { intros t lm' lt' st' Eh Et.
    destruct (Z.eqb_spec t 0) as [->|Hne]; simpl.
    - apply IH. simpl. rewrite Eh, Et.
      apply hits_match_push_other; [left; reflexivity | exact H].
    - destruct (quick_mode opts && _).
      + simpl. rewrite Eh, Et. exact H.
      + apply IH. simpl. rewrite Eh, Et.
        apply hits_match_push_hit; assumption. }
  simpl. destruct amb.
  - apply IH. simpl. apply hits_match_push_other; [right; reflexivity|].
    exact H.
  - destruct (negb (m =? lm)).
    + set (taxon := if _ && _ then 0 else hash_Get m).
      apply (Hstep taxon m taxon
               (if negb (taxon =? 0) then new_hit_group opts m taxon st
                else st));
        destruct (negb (taxon =? 0)); reflexivity.
    + apply (Hstep lt lm lt st); reflexivity.
Qed.

Lemma frame_loop_hits (frames : list string) :
  forall idx st,
    hits_match_trail (hit_counts st) (taxa st) ->
    hits_match_trail (hit_counts (frame_loop idx_opts opts frames idx st))
                     (taxa (frame_loop idx_opts opts frames idx st)).
Proof.
  induction frames as [|f frames IH]; intros idx st H; simpl; [exact H|].
  pose proof (minimizer_loop_hits (scanner_minimizers f)
                UINT64_MAX TAXID_MAX st H) as H1.
  destruct (finished_searching _); [exact H1|].
  apply IH. destruct (use_translated_search opts && _); [|exact H1].
  simpl. apply hits_match_push_other; [right; reflexivity | exact H1].
Qed.

(** X7: whatever the scanner and the index return, and whether or not the
    quick-mode exit is taken, [hit_counts] after the loops of
    [ClassifySequence] agrees with the trail: it has no key 0, and for
    every taxon that is neither 0 nor a reserved value the count is the
    number of times the taxon stands in the trail (exactly so for a trail
    of fewer than 2^32 entries). *)
Theorem hit_counts_match_trail (dna dna2 : Sequence)
    (counts0 : taxon_counters_t) :
  let st := mate_loop idx_opts opts dna dna2 counts0 in
  hits_match_trail (hit_counts st) (taxa st)
  /\ (Z.of_nat (List.length (taxa st)) < 2 ^ 32 ->
      forall t, t <> 0 -> is_sentinel t = false ->
        hc_count (hit_counts st) t = occurrences t (taxa st)).
Proof.
  intros st.
  assert (H : hits_match_trail (hit_counts st) (taxa st)).
  { unfold st, mate_loop.
    set (st0 := mkScan [] [] 0 counts0 0 false).
    assert (H0 : hits_match_trail (hit_counts st0) (taxa st0)).
    { simpl. split; [apply NoDup_nil|]. split; [intros []|].
      intros t _ _. reflexivity. }
    pose proof (frame_loop_hits (frames_of opts (seq dna)) 0 st0 H0) as H1.
    destruct (finished_searching _); [exact H1|].
    destruct (paired_end_processing opts); [|exact H1].
    apply frame_loop_hits. simpl.
    apply hits_match_push_other; [right; reflexivity | exact H1]. }
  split; [exact H|].
  intros Hlen t Ht Hs. destruct H as (_ & _ & Hc).
  rewrite Hc by assumption. unfold wrap32. apply Z.mod_small.
  unfold occurrences.
  pose proof (count_occ_bound Z.eq_dec t (taxa st)). lia.
Qed.

End HitFacts.

Lemma hit_counts_match_trail_witness :
  let st := @mate_loop Examples.toy Examples.idx0 Examples.plain_opts
              (Examples.fasta "r" "GATTACA") empty_sequence [] in
  hc_count (hit_counts st) 10 = 3 /\ occurrences 10 (taxa st) = 3.
Proof.
  cbv zeta. split; [|vm_compute; reflexivity].
  rewrite (proj2 (@hit_counts_match_trail Examples.toy Examples.idx0
                    Examples.plain_opts (Examples.fasta "r" "GATTACA")
                    empty_sequence [])).
  - vm_compute; reflexivity.
  - vm_compute; reflexivity.
  - discriminate.
  - vm_compute; reflexivity.
Defined.

(** ** ClassifySequence on a read without a hit *)

Section NoHitFacts.
Context {collab : Collaborators}.
Variables (idx_opts : IndexOptions) (opts : Options).
Variable counts0 : taxon_counters_t.

Lemma no_hit_push (t : Z) (st : ScanState) :
  t = 0 \/ is_sentinel t = true ->
  no_hit_state counts0 st -> no_hit_state counts0 (push_taxon t st).
Proof.
  intros Ht (H1 & H2 & H3 & H4 & H5). repeat split; try assumption.
  simpl. apply Forall_app. split; [exact H5|]. constructor; [exact Ht|].
  constructor.
Qed.

Lemma minimizer_loop_no_hit (minimizers : list (Z * bool)) :
  forall lm lt st,
    (forall m amb, In (m, amb) minimizers ->
       m <> UINT64_MAX
       /\ (lookup_skipped idx_opts m = true \/ hash_Get m = 0)) ->
    lt = 0 \/ lm = UINT64_MAX ->
    no_hit_state counts0 st ->
    no_hit_state counts0 (minimizer_loop idx_opts opts minimizers lm lt st).
Proof.
  induction minimizers as [|[m amb] rest IH]; intros lm lt st Hm Hlt Hst;
    [exact Hst|].
  assert (Hrest : forall m' amb', In (m', amb') rest ->
            m' <> UINT64_MAX
            /\ (lookup_skipped idx_opts m' = true \/ hash_Get m' = 0))
    by (intros; apply (Hm m' amb'); right; assumption).
  destruct (Hm m amb (or_introl eq_refl)) as [Hmax Hzero].
  simpl. destruct amb.
  - apply IH; try assumption.
    apply no_hit_push; [right; reflexivity | exact Hst].
  - destruct (Z.eqb_spec m lm) as [->|Hne]; simpl.
    + destruct Hlt as [->|Hlt]; [|congruence]. simpl.
      apply IH; auto. apply no_hit_push; [left; reflexivity | exact Hst].
    + assert (E : (if negb (minimum_acceptable_hash_value idx_opts =? 0)
                      && (MurmurHash3 m
                          <? minimum_acceptable_hash_value idx_opts)
                   then 0 else hash_Get m) = 0).
      { destruct Hzero as [Hs| ->].
        - unfold lookup_skipped in Hs. rewrite Hs. reflexivity.
        - destruct (_ && _); reflexivity. }
      rewrite E. simpl. apply IH; auto.
      apply no_hit_push; [left; reflexivity | exact Hst].
Qed.

Lemma frame_loop_no_hit (frames : list string) :
  (forall f m amb, In f frames -> In (m, amb) (scanner_minimizers f) ->
     m <> UINT64_MAX
     /\ (lookup_skipped idx_opts m = true \/ hash_Get m = 0)) ->
  forall idx st,
    no_hit_state counts0 st ->
    no_hit_state counts0 (frame_loop idx_opts opts frames idx st).
Proof.
  induction frames as [|f frames IH]; intros Hf idx st Hst; simpl;
    [exact Hst|].
  pose proof (minimizer_loop_no_hit (scanner_minimizers f)
                UINT64_MAX TAXID_MAX st
                (fun m amb => Hf f m amb (or_introl eq_refl))
                (or_intror eq_refl) Hst) as H1.
  destruct (finished_searching _); [exact H1|].
  apply IH; [intros f' m amb Hin; apply Hf; right; exact Hin|].
  destruct (use_translated_search opts && _); [|exact H1].
  apply no_hit_push; [right; reflexivity | exact H1].
Qed.

Lemma mate_loop_no_hit (dna dna2 : Sequence) :
  nothing_found idx_opts opts dna dna2 ->
  no_hit_state counts0 (mate_loop idx_opts opts dna dna2 counts0).
Proof.
  intros Hnf. unfold nothing_found, fragment_frames in Hnf.
  unfold mate_loop.
  set (st0 := mkScan [] [] 0 counts0 0 false).
  assert (H0 : no_hit_state counts0 st0)
    by (repeat split; constructor).
  assert (Hf1 : forall f m amb,
            In f (frames_of opts (seq dna)) ->
            In (m, amb) (scanner_minimizers f) ->
            m <> UINT64_MAX
            /\ (lookup_skipped idx_opts m = true \/ hash_Get m = 0)).
  { intros f m amb Hin. apply Hnf. apply in_or_app. left; exact Hin. }
  pose proof (frame_loop_no_hit (frames_of opts (seq dna)) Hf1 0 st0 H0)
    as H1.
  destruct (finished_searching _); [exact H1|].
  destruct (paired_end_processing opts); [|exact H1].
  apply frame_loop_no_hit.
  - intros f m amb Hin. apply Hnf. apply in_or_app. right; exact Hin.
  - apply no_hit_push; [right; reflexivity | exact H1].
Qed.

(** X8: a fragment none of whose minimizers is found in the index (for
    every sequence loaded into the scanner for this fragment, the lookup
    of each minimizer is skipped by the hash filter or returns 0) is
    unclassified in every mode and for every threshold, without any walk
    in the taxonomy: [ClassifySequence] returns 0, writes a line that
    starts with U, counts no hit group, leaves the statistics and the
    per-taxon counters as they were, and the trail holds only 0 and
    reserved values. *)
Theorem ClassifySequence_no_hit (fuel : nat) (dna dna2 : Sequence)
    (koss : string) (tax : Taxonomy) (stats : ClassificationStats) :
  nothing_found idx_opts opts dna dna2 ->
  exists r,
    ClassifySequence fuel dna dna2 koss tax idx_opts opts stats counts0
      = Some r
    /\ c_call r = 0 /\ c_hit_groups r = 0
    /\ c_stats r = stats /\ c_taxon_counts r = counts0
    /\ (exists rest, c_koss r = (koss ++ "U" ++ TAB ++ rest)%string)
    /\ Forall (fun t => t = 0 \/ is_sentinel t = true) (c_taxa r).
Proof.
  intros Hnf.
  destruct (mate_loop_no_hit dna dna2 Hnf) as (H1 & H2 & H3 & H4 & H5).
  unfold ClassifySequence. rewrite H1, ResolveTree_no_hits. simpl.
  eexists. split; [reflexivity|]. simpl.
  repeat split; try assumption.
  unfold kraken_line. simpl. eexists. reflexivity.
Qed.

End NoHitFacts.

Lemma ClassifySequence_no_hit_witness :
  Examples.toy_Get 65 = 10
  /\ exists r,
       @ClassifySequence Examples.toy 0 (Examples.fasta "r" "NXNY")
         (Examples.fasta "s" "ZZN") EmptyString Examples.star
         Examples.idx0 (Examples.paired_opts false) Examples.stats0 []
       = Some r
       /\ c_call r = 0.
Proof.
  split; [reflexivity|].
  destruct (@ClassifySequence_no_hit Examples.toy Examples.idx0
              (Examples.paired_opts false) [] 0%nat
              (Examples.fasta "r" "NXNY") (Examples.fasta "s" "ZZN")
              EmptyString Examples.star Examples.stats0)
    as (r & E & C & _).
  - intros f m amb Hf Hm.
    assert (Hcases : f = "NXNY"%string \/ f = "ZZN"%string).
    { simpl in Hf. destruct Hf as [<-|[<-|[]]]; auto. }
    split; [apply (toy_minimizers_proper f m amb Hm)|].
    right. destruct Hcases as [-> | ->]; simpl in Hm;
      repeat (destruct Hm as [Hm|Hm];
              [injection Hm as <- _; reflexivity|]);
      destruct Hm.
  - exists r. split; assumption.
Defined.

(** ** ResolveTree: what is returned *)

Section ResolveResult.
Context {collab : Collaborators}.
Variable tax : Taxonomy.

Lemma clade_score_range (hc : taxon_counts_t) (w : Z) :
  0 <= clade_score tax hc w < 2 ^ 32.
Proof.
  unfold clade_score.
  assert (H : forall l s, 0 <= s < 2 ^ 32 ->
            0 <= fold_left
                   (fun max_score kv =>
                      if IsAAncestorOfB tax w (fst kv)
                      then wrap32 (max_score + snd kv) else max_score)
                   l s < 2 ^ 32).
  { induction l as [|kv l IH]; intros s Hs; simpl; [exact Hs|].
    apply IH. destruct (IsAAncestorOfB tax w (fst kv)); [|exact Hs].
    unfold wrap32. apply Z.mod_pos_bound. lia. }
  apply H. lia.
Qed.

Lemma clade_score_subscript (hc : taxon_counts_t) (t w : Z) :
  clade_score tax (snd (hc_subscript hc t)) w = clade_score tax hc w.
Proof.
  unfold hc_subscript. destruct (hc_get hc t); [reflexivity|].
  simpl. unfold clade_score. rewrite fold_left_app. simpl.
  fold (clade_score tax hc w).
  destruct (IsAAncestorOfB tax w t); [|reflexivity].
  rewrite Z.add_0_r. unfold wrap32. apply Z.mod_small.
  apply clade_score_range.
Qed.

Lemma climb_first (hc : taxon_counts_t) (required : Z) :
  forall fuel w s r,
    climb fuel tax hc required w s = Some r ->
    exists k,
      r = nth_parent tax k w
      /\ (forall j, (j < k)%nat ->
            nth_parent tax j w <> 0
            /\ clade_score tax hc (nth_parent tax j w) < required)
      /\ (r = 0 \/ required <= clade_score tax hc r
          \/ (k = 0%nat /\ required <= s)).
Proof.
  induction fuel as [|fuel IH]; intros w s r H.
  - simpl in H. destruct (negb (w =? 0) && (s <? required)) eqn:E;
      [discriminate|].
    injection H as <-. exists 0%nat. split; [reflexivity|].
    split; [intros j Hj; lia|].
    apply andb_false_iff in E. destruct E as [E|E].
    + left. apply negb_false_iff, Z.eqb_eq in E. exact E.
    + right; right. split; [reflexivity | apply Z.ltb_ge; exact E].
  - destruct (Z.eq_dec w 0) as [->|Hw].
    { rewrite climb_null in H. injection H as <-. exists 0%nat.
      split; [reflexivity|]. split; [intros j Hj; lia | left; reflexivity]. }
    destruct (Z.lt_ge_cases s required) as [Hs|Hs].
    + rewrite climb_step in H by assumption.
      destruct (Z.leb_spec required (clade_score tax hc w)) as [Hc|Hc].
      * injection H as <-. exists 0%nat. split; [reflexivity|].
        split; [intros j Hj; lia | right; left; exact Hc].
      * destruct (IH _ _ _ H) as (k & Hr & Hbelow & Hend).
        exists (S k). split; [exact Hr|]. split.
        -- intros [|j] Hj; simpl; [split; assumption|].
           apply Hbelow. lia.
        -- destruct Hend as [Hend|[Hend|[_ Hend]]]; auto. lia.
    + rewrite climb_enough in H by exact Hs. injection H as <-.
      exists 0%nat. split; [reflexivity|].
      split; [intros j Hj; lia | right; right; split; [reflexivity|exact Hs]].
Qed.

(** X9: when the parent chain of the winner of phase 1 reaches 0 within
    the fuel, [ResolveTree] returns, and what it returns lies on that
    chain and is the first node there with the required support: every
    node of the chain before it is a node whose clade holds fewer hits
    than required, and the returned taxon is 0 (the chain ran off the
    root), or its clade holds the required hits, or it is the winner
    itself with the required hits of its own.  The same holds of any
    result that is returned on a chain that does not end. *)
Theorem ResolveTree_first_supported (fuel : nat) (hc : taxon_counts_t)
    (total : Z) (opts : Options) :
  let w := fst (phase1 tax hc) in
  let required := required_score_of opts total in
  let first_supported (r : Z) (k : nat) :=
    r = nth_parent tax k w
    /\ (forall j, (j < k)%nat ->
          nth_parent tax j w <> 0
          /\ clade_score tax hc (nth_parent tax j w) < required)
    /\ (r = 0 \/ required <= clade_score tax hc r
        \/ (k = 0%nat /\ required <= wrap32 (hc_count hc w))) in
  (forall n, nth_parent tax n w = 0 -> (n <= fuel)%nat ->
     exists r k,
       ResolveTree fuel hc tax total opts = Some r
       /\ (k <= n)%nat /\ first_supported r k)
  /\ (forall r, ResolveTree fuel hc tax total opts = Some r ->
        exists k, first_supported r k).
Proof.
  cbv zeta.
  assert (Hany : forall r, ResolveTree fuel hc tax total opts = Some r ->
            exists k,
              r = nth_parent tax k (fst (phase1 tax hc))
              /\ (forall j, (j < k)%nat ->
                    nth_parent tax j (fst (phase1 tax hc)) <> 0
                    /\ clade_score tax hc
                         (nth_parent tax j (fst (phase1 tax hc)))
                       < required_score_of opts total)
              /\ (r = 0 \/ required_score_of opts total
                           <= clade_score tax hc r
                  \/ (k = 0%nat
                      /\ required_score_of opts total
                         <= wrap32 (hc_count hc (fst (phase1 tax hc)))))).
  { intros r H. unfold ResolveTree in H.
    destruct (phase1 tax hc) as [w M]. simpl fst.
    pose proof (clade_score_subscript hc w) as Hsub.
    assert (Hcount : fst (hc_subscript hc w) = hc_count hc w).
    { unfold hc_subscript, hc_count. destruct (hc_get hc w); reflexivity. }
    destruct (hc_subscript hc w) as [count hc']. simpl in Hsub, Hcount.
    subst count.
    destruct (climb_first _ _ _ _ _ _ H) as (k & Hr & Hbelow & Hend).
    exists k. split; [exact Hr|]. split.
    - intros j Hj. rewrite <- Hsub. apply Hbelow; exact Hj.
    - rewrite <- Hsub. exact Hend. }
  split; [|exact Hany].
  intros n Hn Hfuel.
  assert (Hret : exists r, ResolveTree fuel hc tax total opts = Some r).
  { unfold ResolveTree. destruct (phase1 tax hc) as [w M]. simpl in Hn.
    destruct (hc_subscript hc w) as [count hc'].
    apply (climb_returns tax n hc' _ fuel w (wrap32 count) Hn Hfuel). }
  destruct Hret as (r & Hr). destruct (Hany r Hr) as (k & H1 & H2 & H3).
  exists r, k. split; [exact Hr|]. split; [|auto].
  destruct (Nat.le_gt_cases k n) as [Hle|Hgt]; [exact Hle|].
  destruct (H2 n Hgt) as [Hnz _]. contradiction.
Qed.

(** Phase 1 over any part of the map: the score kept only grows, bounds
    the scores met, and is the start value or one of the scores met. *)
Lemma phase1_over_max (hc : taxon_counts_t) (order : list (Z * Z)) :
  forall w M,
    let st := phase1_over tax hc order (w, M) in
    M <= snd st
    /\ (forall kv, In kv order -> path_score tax hc (fst kv) <= snd st)
    /\ (snd st = M
        \/ exists kv, In kv order /\ path_score tax hc (fst kv) = snd st).
Proof.
  unfold phase1_over.
  induction order as [|kv order IH]; intros w M; cbv zeta; cbn [fold_left].
  - simpl. split; [lia|]. split; [intros kv []|]. left; reflexivity.
  - cbv zeta in IH.
    destruct (Z.lt_trichotomy M (path_score tax hc (fst kv)))
      as [H|[H|H]].
    + rewrite phase1_step_gt by exact H.
      destruct (IH (fst kv) (path_score tax hc (fst kv)))
        as (H1 & H2 & H3).
      split; [lia|]. split.
      * intros kv' [<-|Hin]; [exact H1 | apply H2; exact Hin].
      * right. destruct H3 as [H3|(kv' & Hin & H3)].
        -- exists kv. split; [left; reflexivity | symmetry; exact H3].
        -- exists kv'. split; [right; exact Hin | exact H3].
    + rewrite phase1_step_eq by (symmetry; exact H).
      destruct (IH (LowestCommonAncestor tax w (fst kv)) M)
        as (H1 & H2 & H3).
      split; [exact H1|]. split.
      * intros kv' [<-|Hin]; [lia | apply H2; exact Hin].
      * destruct H3 as [H3|(kv' & Hin & H3)]; [left; exact H3|].
        right. exists kv'. split; [right; exact Hin | exact H3].
    + rewrite phase1_step_lt by exact H.
      destruct (IH w M) as (H1 & H2 & H3).
      split; [exact H1|]. split.
      * intros kv' [<-|Hin]; [lia | apply H2; exact Hin].
      * destruct H3 as [H3|(kv' & Hin & H3)]; [left; exact H3|].
        right. exists kv'. split; [right; exact Hin | exact H3].
Qed.

Lemma phase1_over_below (hc : taxon_counts_t) (order : list (Z * Z))
    (bound : Z) :
  forall w M,
    M < bound ->
    (forall kv, In kv order -> path_score tax hc (fst kv) < bound) ->
    snd (phase1_over tax hc order (w, M)) < bound.
Proof.
  intros w M HM Hall.
  destruct (phase1_over_max hc order w M) as (_ & _ & [H|(kv & Hin & H)]).
  - rewrite H. exact HM.
  - rewrite <- H. apply Hall; exact Hin.
Qed.

Lemma phase1_over_kept (hc : taxon_counts_t) (order : list (Z * Z)) :
  forall w M,
    (forall kv, In kv order -> path_score tax hc (fst kv) < M) ->
    phase1_over tax hc order (w, M) = (w, M).
Proof.
  unfold phase1_over.
  induction order as [|kv order IH]; intros w M Hall; cbn [fold_left];
    [reflexivity|].
  rewrite phase1_step_lt by (apply Hall; left; reflexivity).
  apply IH. intros kv' Hin. apply Hall. right; exact Hin.
Qed.

(** X10: after phase 1 no key of the map has a path score above the
    maximum kept, which is 0 or the score of a key; and a key whose score
    is positive and strictly above the score of every other key is the
    winner, whatever the iteration order and whatever the LCA; with a
    threshold of 0 it is what [ResolveTree] returns. *)
Theorem phase1_maximum (hc : taxon_counts_t) :
  (forall kv, In kv hc ->
     path_score tax hc (fst kv) <= snd (phase1 tax hc))
  /\ (snd (phase1 tax hc) = 0
      \/ exists kv, In kv hc
           /\ path_score tax hc (fst kv) = snd (phase1 tax hc))
  /\ (forall k v,
        NoDup (map fst hc) -> In (k, v) hc ->
        0 < path_score tax hc k ->
        (forall kv, In kv hc -> fst kv <> k ->
           path_score tax hc (fst kv) < path_score tax hc k) ->
        phase1 tax hc = (k, path_score tax hc k)
        /\ forall fuel total opts,
             confidence_threshold opts == 0 ->
             ResolveTree fuel hc tax total opts = Some k).
Proof.
  destruct (phase1_over_max hc hc 0 0) as (_ & H2 & H3).
  split; [exact H2|]. split; [exact H3|].
  intros k v ND Hin Hpos Hmax.
  assert (Hwin : phase1 tax hc = (k, path_score tax hc k)).
  { destruct (in_split _ _ Hin) as (l1 & l2 & E).
    assert (Hother : forall kv, In kv (l1 ++ l2) -> fst kv <> k).
    { intros kv Hkv Ek. rewrite E, map_app in ND. simpl in ND.
      apply NoDup_remove_2 in ND. apply ND. rewrite <- map_app.
      rewrite <- Ek. apply in_map; exact Hkv. }
    assert (Hlow : forall kv, In kv (l1 ++ l2) ->
              path_score tax hc (fst kv) < path_score tax hc k).
    { intros kv Hkv. apply Hmax; [|apply Hother; exact Hkv].
      rewrite E. apply in_app_or in Hkv. apply in_or_app.
      destruct Hkv; [left | right; right]; assumption. }
    unfold phase1. rewrite E at 2. unfold phase1_over.
    rewrite fold_left_app. simpl.
    fold (phase1_over tax hc l1 (0, 0)).
    pose proof (phase1_over_below hc l1 (path_score tax hc k) 0 0 Hpos
                  (fun kv H => Hlow kv (in_or_app _ _ _ (or_introl H))))
      as Hb.
    destruct (phase1_over tax hc l1 (0, 0)) as [w M]. simpl in Hb.
    rewrite phase1_step_gt by exact Hb. simpl fst.
    apply phase1_over_kept. intros kv H. apply Hlow.
    apply in_or_app. right; exact H. }
  split; [exact Hwin|].
  intros fuel total opts Hthr. unfold ResolveTree.
  rewrite required_score_zero by exact Hthr. rewrite Hwin.
  destruct (hc_subscript hc k) as [count hc'].
  apply climb_enough, wrap32_nonneg.
Qed.

End ResolveResult.

Lemma ResolveTree_first_supported_witness :
  @ResolveTree Examples.toy 3 [(4, 2); (5, 1); (6, 1)] Examples.small_tree 4
    (Examples.with_threshold Examples.plain_opts 1) = Some 1
  /\ 1 = nth_parent Examples.small_tree 2
           (fst (@phase1 Examples.toy Examples.small_tree
                   [(4, 2); (5, 1); (6, 1)])).
Proof.
  destruct (proj1 (@ResolveTree_first_supported Examples.toy
                     Examples.small_tree 3 [(4, 2); (5, 1); (6, 1)] 4
                     (Examples.with_threshold Examples.plain_opts 1))
              3%nat)
    as (r & k & Hr & Hk & Hchain & Hbelow & _).
  - vm_compute; reflexivity.
  - lia.
  - assert (Hc : @ResolveTree Examples.toy 3 [(4, 2); (5, 1); (6, 1)]
                   Examples.small_tree 4
                   (Examples.with_threshold Examples.plain_opts 1)
                 = Some 1) by (vm_compute; reflexivity).
    rewrite Hc in Hr. injection Hr as Hr1. rewrite <- Hr1 in Hchain.
    clear Hbelow Hr1. split; [exact Hc|].
    destruct k as [|[|[|[|k]]]].
    + vm_compute in Hchain. discriminate Hchain.
    + vm_compute in Hchain. discriminate Hchain.
    + exact Hchain.
    + vm_compute in Hchain. discriminate Hchain.
    + exfalso. clear Hchain Hc. lia.
Defined.

Lemma phase1_maximum_witness :
  @ResolveTree Examples.toy 0 [(5, 1); (4, 2); (6, 1)] Examples.small_tree 4
    Examples.plain_opts = Some 4.
Proof.
  apply (proj2 (proj2 (@phase1_maximum Examples.toy Examples.small_tree
                         [(5, 1); (4, 2); (6, 1)])) 4 2).
  - repeat constructor; simpl; intuition discriminate.
  - right; left; reflexivity.
  - vm_compute; reflexivity.
  - intros kv [<-|[<-|[<-|[]]]] H; try (vm_compute; reflexivity).
    exfalso; apply H; reflexivity.
  - reflexivity.
Defined.

(** ** ResolveTree on a well-formed taxonomy *)

Lemma chain_reaches_null (tax : Taxonomy) (fuel : nat) :
  forall t,
    parent_chain tax fuel t = parent_chain tax (S fuel) t ->
    exists k, (k <= fuel)%nat /\ nth_parent tax k t = 0.
Proof.
  induction fuel as [|fuel IH]; intros t H.
  - simpl in H. exists 0%nat. split; [lia|]. simpl.
    destruct (Z.eqb_spec t 0) as [E|]; [exact E | discriminate].
  - destruct (Z.eq_dec t 0) as [->|Ht].
    + exists 0%nat. split; [lia | reflexivity].
    + change (parent_chain tax (S fuel) t)
        with (if t =? 0 then []
              else t :: parent_chain tax fuel (parent_id (node_at tax t)))
        in H.
      change (parent_chain tax (S (S fuel)) t)
        with (if t =? 0 then []
              else t :: parent_chain tax (S fuel)
                          (parent_id (node_at tax t)))
        in H.
      destruct (Z.eqb_spec t 0); [contradiction|].
      injection H as H. destruct (IH _ H) as (k & Hk & Hn).
      exists (S k). split; [lia | exact Hn].
Qed.

Section WellFormedResolve.
Context {collab : Collaborators}.
Variables (tax : Taxonomy) (root : Z).
Hypothesis well_formed : wf_taxonomy tax root = true.
Hypothesis oracle_lca :
  forall a b,
    LowestCommonAncestor tax a b = spec_LowestCommonAncestor tax a b.

Lemma nth_parent_in_table (k : nat) :
  forall t, in_table tax t = true -> in_table tax (nth_parent tax k t) = true.
Proof.
  induction k as [|k IH]; intros t Ht; simpl; [exact Ht|].
  apply IH. apply (wf_at tax root well_formed t Ht).
Qed.

Lemma phase1_winner_valid (hc order : list (Z * Z)) :
  forall st,
    winner_in (valid_taxon tax) st ->
    Forall (fun kv => valid_taxon tax (fst kv)) order ->
    winner_in (valid_taxon tax) (phase1_over tax hc order st).
Proof.
  unfold phase1_over.
  induction order as [|kv order IH]; intros st Hst Hall; cbn [fold_left];
    [exact Hst|].
  inversion Hall as [|? ? Hkv Hall']; subst.
  apply IH; [|exact Hall'].
  apply (phase1_step_winner tax (valid_taxon tax)); try assumption.
  intros x a Hx Ha. rewrite oracle_lca.
  apply (spec_lca_valid tax root well_formed); assumption.
Qed.

(** The walk of [ResolveTree] ends within as many steps as the table has
    nodes. *)
Lemma ResolveTree_wf_returns (hc : taxon_counts_t) (total : Z)
    (opts : Options) :
  keys_valid tax hc ->
  exists r, ResolveTree (List.length (nodes tax)) hc tax total opts = Some r.
Proof.
  intros Hkeys.
  assert (Hw : winner_in (valid_taxon tax) (phase1 tax hc))
    by (apply phase1_winner_valid; [left; reflexivity | exact Hkeys]).
  unfold ResolveTree.
  destruct (phase1 tax hc) as [w M]. unfold winner_in in Hw. simpl in Hw.
  destruct (hc_subscript hc w) as [count hc'].
  destruct Hw as [-> | Hv].
  { exists 0. apply climb_null. }
  pose proof (valid_in_table tax w Hv) as Tw.
  destruct (wf_at tax root well_formed _ Tw) as (_ & Hc & _).
  destruct (chain_reaches_null tax _ _ Hc) as (k & Hk & Hn).
  apply (climb_returns tax k hc' (required_score_of opts total)
           (List.length (nodes tax)) w (wrap32 count) Hn Hk).
Qed.

(** X11: on a well-formed rooted taxonomy whose LCA is the deepest shared
    node, with every key of the map a node of the taxonomy, the walk of
    [ResolveTree] up the parent chain ends within as many steps as the
    taxonomy has nodes: with that much fuel a taxon is returned, and it is
    0 or a node of the taxonomy. *)
Theorem ResolveTree_terminates (hc : taxon_counts_t) (total : Z)
    (opts : Options) :
  Forall (fun kv => valid_taxon tax (fst kv)) hc ->
  exists r,
    ResolveTree (List.length (nodes tax)) hc tax total opts = Some r
    /\ (r = 0 \/ valid_taxon tax r).
Proof.
  intros Hkeys.
  assert (Hw : winner_in (valid_taxon tax) (phase1 tax hc))
    by (apply phase1_winner_valid; [left; reflexivity | exact Hkeys]).
  unfold ResolveTree.
  destruct (phase1 tax hc) as [w M]. unfold winner_in in Hw. simpl in Hw.
  destruct (hc_subscript hc w) as [count hc'].
  destruct Hw as [-> | Hv].
  { exists 0. split; [apply climb_null | left; reflexivity]. }
  pose proof (valid_in_table tax w Hv) as Tw.
  destruct (wf_at tax root well_formed _ Tw) as (_ & Hc & _).
  destruct (chain_reaches_null tax _ _ Hc) as (k & Hk & Hn).
  destruct (climb_returns tax k hc' (required_score_of opts total)
              (List.length (nodes tax)) w (wrap32 count) Hn Hk)
    as (r & Hr).
  exists r. split; [exact Hr|].
  destruct (climb_first tax hc' _ _ _ _ _ Hr) as (j & Ej & _).
  pose proof (nth_parent_in_table j w Tw) as Tr. rewrite <- Ej in Tr.
  apply (in_table_cases tax r Tr).
Qed.

End WellFormedResolve.

Lemma ResolveTree_terminates_witness :
  exists r,
    @ResolveTree Examples.toy 7 [(4, 2); (5, 1); (6, 1)] Examples.small_tree
      4 (Examples.with_threshold Examples.plain_opts 1) = Some r.
Proof.
  destruct (@ResolveTree_terminates Examples.toy Examples.small_tree 1)
    with (hc := [(4, 2); (5, 1); (6, 1)]) (total := 4)
         (opts := Examples.with_threshold Examples.plain_opts 1)
    as (r & Hr & _).
  - vm_compute; reflexivity.
  - reflexivity.
  - repeat constructor; vm_compute; reflexivity.
  - exists r. exact Hr.
Defined.

(** ** ProcessFiles: the counters of a batch *)

Lemma MaskLowQualityBases_length (dna dna' : Sequence) (m : Z) :
  MaskLowQualityBases dna m = Some dna' ->
  String.length (seq dna') = String.length (seq dna).
Proof.
  unfold MaskLowQualityBases. destruct (format dna).
  - intros H. injection H as <-. reflexivity.
  - destruct (negb _); [discriminate|]. intros H. injection H as <-.
    simpl. apply mask_bases_length.
Qed.

Lemma wrap64_add_l (a b : Z) : wrap64 (wrap64 a + b) = wrap64 (a + b).
Proof. unfold wrap64. rewrite Z.add_mod_idemp_l by lia. reflexivity. Qed.

Section BatchFacts.
Context {collab : Collaborators}.
Variables (fuel : nat) (tax : Taxonomy) (idx_opts : IndexOptions)
          (opts : Options).

Lemma mask_fragment_lengths (seq1 seq2 m1 m2 : Sequence) :
  mask_fragment opts seq1 seq2 = Finished (m1, m2) ->
  String.length (seq m1) = String.length (seq seq1)
  /\ String.length (seq m2) = String.length (seq seq2).
Proof.
  unfold mask_fragment. destruct (0 <? minimum_quality_score opts).
  - destruct (MaskLowQualityBases seq1 _) as [s1|] eqn:E1; [|discriminate].
    destruct (paired_end_processing opts).
    + destruct (MaskLowQualityBases seq2 _) as [s2|] eqn:E2; [|discriminate].
      intros H. injection H as <- <-.
      split; eapply MaskLowQualityBases_length; eassumption.
    + intros H. injection H as <- <-.
      split; [eapply MaskLowQualityBases_length; eassumption | reflexivity].
  - intros H. injection H as <- <-. split; reflexivity.
Qed.

Lemma process_fragment_counts (seq1 seq2 : Sequence) (bs bs' : BlockState) :
  process_fragment fuel tax idx_opts opts seq1 seq2 bs = Finished bs' ->
  total_sequences (thread_stats bs')
    = wrap64 (total_sequences (thread_stats bs) + 1)
  /\ total_bases (thread_stats bs')
     = wrap64 (total_bases (thread_stats bs)
               + fragment_bases opts (seq1, seq2))
  /\ (total_classified (thread_stats bs')
        = total_classified (thread_stats bs)
      \/ total_classified (thread_stats bs')
         = wrap64 (total_classified (thread_stats bs) + 1)).
Proof.
  unfold process_fragment, fragment_bases. simpl fst. simpl snd.
  destruct (mask_fragment opts seq1 seq2) as [[m1 m2]| |] eqn:Em;
    try discriminate.
  destruct (mask_fragment_lengths _ _ _ _ Em) as [L1 L2]. simpl run_bind.
  unfold ClassifySequence.
  destruct (ResolveTree _ _ _ _ _) as [resolved|]; [|discriminate].
  intros H. injection H as <-. simpl. rewrite L1, L2.
  match goal with
  | |- context [negb ((if ?c then 0 else resolved) =? 0)] =>
      destruct (negb ((if c then 0 else resolved) =? 0))
  end; simpl; (split; [reflexivity|]); (split; [|auto]);
    destruct (paired_end_processing opts);
    rewrite ?wrap64_add_l, ?Z.add_0_r, ?Z.add_assoc; reflexivity.
Qed.

Lemma batch_loop_fragments (reader1 : list Sequence) :
  forall reader2 bs,
    batch_loop fuel tax idx_opts opts reader1 reader2 bs
    = fold_left
        (fun r f =>
           run_bind r
             (process_fragment fuel tax idx_opts opts (fst f) (snd f)))
        (fragments opts reader1 reader2) (Finished bs).
Proof.
  assert (Hstuck : forall fs (r : Run BlockState),
            r = Exited \/ r = OutOfFuel ->
            fold_left
              (fun r f =>
                 run_bind r
                   (process_fragment fuel tax idx_opts opts (fst f) (snd f)))
              fs r = r).
  { induction fs as [|f fs IH]; intros r Hr; simpl; [reflexivity|].
    rewrite IH; destruct Hr as [-> | ->]; auto. }
  assert (Hcons : forall s1 s2 fs bs (k : BlockState -> Run BlockState),
            (forall bs', k bs'
               = fold_left
                   (fun r f =>
                      run_bind r
                        (process_fragment fuel tax idx_opts opts
                           (fst f) (snd f)))
                   fs (Finished bs')) ->
            run_bind (process_fragment fuel tax idx_opts opts s1 s2 bs) k
            = fold_left
                (fun r f =>
                   run_bind r
                     (process_fragment fuel tax idx_opts opts
                        (fst f) (snd f)))
                ((s1, s2) :: fs) (Finished bs)).
  { intros s1 s2 fs bs k Hk. simpl.
    destruct (process_fragment fuel tax idx_opts opts s1 s2 bs) as [b| |];
      simpl; [apply Hk | |]; symmetry; apply Hstuck; auto. }
  revert reader1. fix IH 1. intros [|s1 reader1'] reader2 bs;
    [reflexivity|].
  simpl. destruct (paired_end_processing opts).
  - destruct (single_file_pairs opts).
    + destruct reader1' as [|s2 reader1'']; [reflexivity|].
      apply Hcons. intros bs'. apply IH.
    + destruct reader2 as [|s2 reader2']; [reflexivity|].
      apply Hcons. intros bs'. apply IH.
  - apply Hcons. intros bs'. apply IH.
Qed.

Lemma fold_fragments_counts (fs : list (Sequence * Sequence)) :
  forall bs bs' a b c0,
    total_sequences (thread_stats bs) = wrap64 a ->
    total_bases (thread_stats bs) = wrap64 b ->
    total_classified (thread_stats bs) = wrap64 c0 ->
    fold_left
      (fun r f =>
         run_bind r (process_fragment fuel tax idx_opts opts (fst f) (snd f)))
      fs (Finished bs) = Finished bs' ->
    total_sequences (thread_stats bs')
      = wrap64 (a + Z.of_nat (List.length fs))
    /\ total_bases (thread_stats bs') = wrap64 (b + batch_bases opts fs)
    /\ exists c,
         0 <= c <= Z.of_nat (List.length fs)
         /\ total_classified (thread_stats bs') = wrap64 (c0 + c).
Proof.
  assert (Hstuck : forall gs (r : Run BlockState) bs',
            r = Exited \/ r = OutOfFuel ->
            fold_left
              (fun r f =>
                 run_bind r
                   (process_fragment fuel tax idx_opts opts (fst f) (snd f)))
              gs r <> Finished bs').
  { induction gs as [|f gs IH]; intros r bs' Hr; simpl.
    - destruct Hr as [-> | ->]; discriminate.
    - apply IH. destruct Hr as [-> | ->]; auto. }
  induction fs as [|[s1 s2] fs IH]; intros bs bs' a b c0 Ha Hb Hc H.
  - simpl in H. injection H as <-. simpl. rewrite !Z.add_0_r.
    split; [exact Ha|]. split; [exact Hb|].
    exists 0. rewrite Z.add_0_r. split; [lia | exact Hc].
  - simpl in H.
    destruct (process_fragment fuel tax idx_opts opts s1 s2 bs)
      as [bs1| |] eqn:E;
      [|exfalso; eapply Hstuck; [|exact H]; auto
       |exfalso; eapply Hstuck; [|exact H]; auto].
    simpl in H.
    destruct (process_fragment_counts _ _ _ _ E) as (H1 & H2 & H3).
    rewrite Ha, wrap64_add_l in H1. rewrite Hb, wrap64_add_l in H2.
    assert (H3' : exists d, 0 <= d <= 1
                  /\ total_classified (thread_stats bs1) = wrap64 (c0 + d)).
    { destruct H3 as [H3|H3]; rewrite Hc in H3.
      - exists 0. rewrite Z.add_0_r. split; [lia | exact H3].
      - exists 1. rewrite wrap64_add_l in H3. split; [lia | exact H3]. }
    destruct H3' as (d & Hd & H3').
    destruct (IH bs1 bs' _ _ _ H1 H2 H3' H) as (I1 & I2 & c & Hcr & I3).
    simpl List.length. simpl batch_bases. split; [|split].
    + rewrite I1. f_equal. lia.
    + rewrite I2. f_equal. lia.
    + exists (d + c). split; [lia|]. rewrite I3. f_equal. lia.
Qed.

End BatchFacts.

Lemma hc_incr_valid (tax : Taxonomy) (hc : taxon_counts_t) (t : Z) :
  valid_taxon tax t -> keys_valid tax hc -> keys_valid tax (hc_incr hc t).
Proof.
  unfold keys_valid. intros Ht.
  induction hc as [|[k v] hc IH]; intros H; simpl.
  - constructor; [exact Ht | constructor].
  - inversion H as [|? ? Hk Hrest]; subst.
    destruct (k =? t); constructor; auto.
Qed.

Section BatchTotal.
Context {collab : Collaborators}.
Variables (tax : Taxonomy) (root : Z) (idx_opts : IndexOptions)
          (opts : Options).
Hypothesis well_formed : wf_taxonomy tax root = true.
Hypothesis oracle_lca :
  forall a b,
    LowestCommonAncestor tax a b = spec_LowestCommonAncestor tax a b.
Hypothesis index_valid : index_in_taxonomy tax.
Hypothesis minimizers_proper :
  forall s m amb, In (m, amb) (scanner_minimizers s) -> m <> UINT64_MAX.

(** The keys that a scan enters in [hit_counts] are results of lookups. *)
Lemma minimizer_loop_keys (minimizers : list (Z * bool)) :
  forall lm lt st,
    (forall m amb, In (m, amb) minimizers -> m <> UINT64_MAX) ->
    lt = 0 \/ valid_taxon tax lt \/ lm = UINT64_MAX ->
    keys_valid tax (hit_counts st) ->
    keys_valid tax
      (hit_counts (minimizer_loop idx_opts opts minimizers lm lt st)).
Proof.
  induction minimizers as [|[m amb] rest IH]; intros lm lt st Hm Hlt Hst;
    [exact Hst|].
  assert (Hrest : forall m' amb', In (m', amb') rest -> m' <> UINT64_MAX)
    by (intros; eapply Hm; right; eassumption).
  assert (Hmm : m <> UINT64_MAX) by (eapply Hm; left; reflexivity).
  assert (Hstep : forall (t lm' lt' : Z) (st' : ScanState),
            hit_counts st' = hit_counts st ->
            t = 0 \/ valid_taxon tax t ->
            lt' = 0 \/ valid_taxon tax lt' \/ lm' = UINT64_MAX ->
            keys_valid tax
              (hit_counts
                 (if negb (t =? 0)
                  then if quick_mode opts
                          && (minimum_hit_groups opts
                              <=? minimizer_hit_groups st')
                       then quick_exit t st'
                       else minimizer_loop idx_opts opts rest lm' lt'
                              (push_taxon t (count_hit t st'))
                  else minimizer_loop idx_opts opts rest lm' lt'
                         (push_taxon t st')))).
  { intros t lm' lt' st' Eh Ht Hlt'.
    destruct (Z.eqb_spec t 0) as [->|Hne]; simpl.
    - apply IH; try assumption. simpl. rewrite Eh. exact Hst.
    - destruct Ht as [Ht|Ht]; [contradiction|].
      destruct (quick_mode opts && _).
      + simpl. rewrite Eh. exact Hst.
      + apply IH; try assumption. simpl. rewrite Eh.
        apply hc_incr_valid; assumption. }
  simpl. destruct amb.
  - apply IH; assumption.
  - destruct (Z.eqb_spec m lm) as [E|Hne]; simpl.
    + assert (Hlt' : lt = 0 \/ valid_taxon tax lt).
      { destruct Hlt as [H|[H|H]]; auto. congruence. }
      apply (Hstep lt lm lt st); auto.
    + set (taxon := if _ && _ then 0 else hash_Get m).
      assert (Ht : taxon = 0 \/ valid_taxon tax taxon).
      { unfold taxon. destruct (_ && _); [left; reflexivity|].
        apply index_valid. }
      apply (Hstep taxon m taxon
               (if negb (taxon =? 0) then new_hit_group opts m taxon st
                else st)).
      * destruct (negb (taxon =? 0)); reflexivity.
      * exact Ht.
      * destruct Ht as [H|H]; auto.
Qed.

Lemma frame_loop_keys (frames : list string) :
  forall idx st,
    keys_valid tax (hit_counts st) ->
    keys_valid tax (hit_counts (frame_loop idx_opts opts frames idx st)).
Proof.
  induction frames as [|f frames IH]; intros idx st Hst; simpl; [exact Hst|].
  pose proof (minimizer_loop_keys (scanner_minimizers f)
                UINT64_MAX TAXID_MAX st (minimizers_proper f)
                (or_intror (or_intror eq_refl)) Hst) as H1.
  destruct (finished_searching _); [exact H1|].
  apply IH. destruct (use_translated_search opts && _); exact H1.
Qed.

Lemma mate_loop_keys (dna dna2 : Sequence) (counts0 : taxon_counters_t) :
  keys_valid tax (hit_counts (mate_loop idx_opts opts dna dna2 counts0)).
Proof.
  unfold mate_loop.
  set (st0 := mkScan [] [] 0 counts0 0 false).
  assert (H0 : keys_valid tax (hit_counts st0)) by constructor.
  pose proof (frame_loop_keys (frames_of opts (seq dna)) 0 st0 H0) as H1.
  destruct (finished_searching _); [exact H1|].
  destruct (paired_end_processing opts); [|exact H1].
  apply frame_loop_keys. exact H1.
Qed.

(** With as much fuel as the taxonomy has nodes, [ClassifySequence]
    returns. *)
Lemma ClassifySequence_returns (dna dna2 : Sequence) (koss : string)
    (stats : ClassificationStats) (counts0 : taxon_counters_t) :
  exists r,
    ClassifySequence (List.length (nodes tax)) dna dna2 koss tax idx_opts
      opts stats counts0 = Some r.
Proof.
  unfold ClassifySequence.
  destruct (ResolveTree_wf_returns tax root well_formed oracle_lca
              (hit_counts (mate_loop idx_opts opts dna dna2 counts0))
              (total_kmers_of opts
                 (taxa (mate_loop idx_opts opts dna dna2 counts0)))
              opts (mate_loop_keys dna dna2 counts0)) as (r & Hr).
  rewrite Hr. eexists. reflexivity.
Qed.

Lemma mask_fragment_result (seq1 seq2 : Sequence) :
  mask_fragment opts seq1 seq2 <> OutOfFuel
  /\ (fragment_maskable opts (seq1, seq2) ->
      exists m1 m2, mask_fragment opts seq1 seq2 = Finished (m1, m2)).
Proof.
  unfold mask_fragment, fragment_maskable. simpl fst. simpl snd. split.
  - destruct (0 <? minimum_quality_score opts); [|discriminate].
    destruct (MaskLowQualityBases seq1 _); [|discriminate].
    destruct (paired_end_processing opts); [|discriminate].
    destruct (MaskLowQualityBases seq2 _); discriminate.
  - intros Hmask.
    destruct (Z.ltb_spec 0 (minimum_quality_score opts)) as [Hq|Hq];
      [|eexists; eexists; reflexivity].
    destruct (Hmask Hq) as [M1 M2].
    assert (Hrec : forall s, record_maskable s ->
              exists s', MaskLowQualityBases s
                           (minimum_quality_score opts) = Some s').
    { intros s [F|L]; unfold MaskLowQualityBases.
      - rewrite F. eexists; reflexivity.
      - destruct (format s); [eexists; reflexivity|].
        rewrite L, Nat.eqb_refl. simpl. eexists; reflexivity. }
    destruct (Hrec seq1 M1) as (s1 & E1). rewrite E1.
    destruct (paired_end_processing opts);
      [|eexists; eexists; reflexivity].
    destruct (Hrec seq2 (M2 eq_refl)) as (s2 & E2). rewrite E2.
    eexists; eexists; reflexivity.
Qed.

Lemma process_fragment_result (seq1 seq2 : Sequence) (bs : BlockState) :
  process_fragment (List.length (nodes tax)) tax idx_opts opts seq1 seq2 bs
  <> OutOfFuel
  /\ (fragment_maskable opts (seq1, seq2) ->
      exists bs',
        process_fragment (List.length (nodes tax)) tax idx_opts opts
          seq1 seq2 bs = Finished bs').
Proof.
  destruct (mask_fragment_result seq1 seq2) as [Hnot Hok].
  unfold process_fragment.
  assert (Hk : forall m1 m2,
            exists bs',
              run_bind (Finished (m1, m2))
                (fun '(seq1, seq2) =>
                   let dna2 := if paired_end_processing opts then seq2
                               else empty_sequence in
                   match
                     ClassifySequence (List.length (nodes tax)) seq1 dna2
                       (kraken_oss bs) tax idx_opts opts
                       (mkStats
                          (wrap64 (total_sequences (thread_stats bs) + 1))
                          (total_bases (thread_stats bs))
                          (total_classified (thread_stats bs)))
                       (thread_taxon_counters bs)
                   with
                   | None => OutOfFuel
                   | Some r =>
                       Finished
                         (mkBlock (c_koss r)
                            (if negb (c_call r =? 0)
                             then (c1_oss bs
                                   ++ Sequence_to_string
                                        (add_header seq1
                                           (" kraken:taxid|"
                                            ++ dec (external_id
                                                      (node_at tax
                                                         (c_call r))))))%string
                             else c1_oss bs)
                            (if negb (c_call r =? 0)
                                && paired_end_processing opts
                             then (c2_oss bs
                                   ++ Sequence_to_string
                                        (add_header seq2
                                           (" kraken:taxid|"
                                            ++ dec (external_id
                                                      (node_at tax
                                                         (c_call r))))))%string
                             else c2_oss bs)
                            (if negb (c_call r =? 0) then u1_oss bs
                             else (u1_oss bs
                                   ++ Sequence_to_string seq1)%string)
                            (if negb (negb (c_call r =? 0))
                                && paired_end_processing opts
                             then (u2_oss bs
                                   ++ Sequence_to_string seq2)%string
                             else u2_oss bs)
                            (mkStats (total_sequences (c_stats r))
                               (if paired_end_processing opts
                                then wrap64
                                       (wrap64
                                          (total_bases (c_stats r)
                                           + Z.of_nat
                                               (String.length (seq seq1)))
                                        + Z.of_nat
                                            (String.length (seq seq2)))
                                else wrap64
                                       (total_bases (c_stats r)
                                        + Z.of_nat
                                            (String.length (seq seq1))))
                               (total_classified (c_stats r)))
                            (c_taxon_counts r))
                   end) = Finished bs').
  { intros m1 m2. simpl run_bind.
    destruct (ClassifySequence_returns m1
                (if paired_end_processing opts then m2 else empty_sequence)
                (kraken_oss bs)
                (mkStats (wrap64 (total_sequences (thread_stats bs) + 1))
                   (total_bases (thread_stats bs))
                   (total_classified (thread_stats bs)))
                (thread_taxon_counters bs)) as (r & Hr).
    rewrite Hr. eexists. reflexivity. }
  split.
  - destruct (mask_fragment opts seq1 seq2) as [[m1 m2]| |]; simpl run_bind.
    + destruct (Hk m1 m2) as (bs' & E). simpl run_bind in E.
      rewrite E. discriminate.
    + discriminate.
    + contradiction Hnot; reflexivity.
  - intros Hmask. destruct (Hok Hmask) as (m1 & m2 & E). rewrite E.
    apply Hk.
Qed.

Lemma fold_fragments_result (fs : list (Sequence * Sequence)) :
  forall bs,
    fold_left
      (fun r f =>
         run_bind r
           (process_fragment (List.length (nodes tax)) tax idx_opts opts
              (fst f) (snd f)))
      fs (Finished bs) <> OutOfFuel
    /\ (Forall (fragment_maskable opts) fs ->
        exists bs',
          fold_left
            (fun r f =>
               run_bind r
                 (process_fragment (List.length (nodes tax)) tax idx_opts
                    opts (fst f) (snd f)))
            fs (Finished bs) = Finished bs').
Proof.
  assert (Hstuck : forall gs,
            fold_left
              (fun r f =>
                 run_bind r
                   (process_fragment (List.length (nodes tax)) tax idx_opts
                      opts (fst f) (snd f)))
              gs Exited = Exited).
  { induction gs as [|g gs IHg]; simpl; [reflexivity | exact IHg]. }
  induction fs as [|[s1 s2] fs IH]; intros bs.
  - simpl. split; [discriminate|]. intros _. exists bs. reflexivity.
  - simpl. destruct (process_fragment_result s1 s2 bs) as [Hnot Hok].
    split.
    + destruct (process_fragment _ _ _ _ s1 s2 bs) as [bs1| |]; simpl.
      * apply IH.
      * rewrite Hstuck. discriminate.
      * contradiction Hnot; reflexivity.
    + intros Hall. inversion Hall as [|? ? Hf Hrest]; subst.
      destruct (Hok Hf) as (bs1 & E). rewrite E. simpl.
      apply (proj2 (IH bs1) Hrest).
Qed.

(** X12: on a well-formed rooted taxonomy whose LCA is the deepest shared
    node, with an index whose values are nodes of the taxonomy and a
    scanner that never returns the all-ones word, a batch worked off with
    as much fuel for the climbs as the taxonomy has nodes never runs out
    of fuel; when no record makes the quality masking leave the process
    (masking is off, or every record is FASTA or has as many qualities as
    bases) the batch is worked off to the end, and from zeroed counters it
    leaves in [total_sequences] the number of fragments of the batch
    (single reads, or the pairs that could be formed), in [total_bases]
    the sum of their sequence lengths (both mates of a pair), and in
    [total_classified] a number that does not exceed the number of
    fragments, each as the 64-bit counters hold them; for a batch of
    fewer than 2^64 fragments [total_classified <= total_sequences], so
    the count of unclassified sequences taken as their difference does
    not wrap. *)
Theorem batch_loop_counters (reader1 reader2 : list Sequence) :
  let fs := fragments opts reader1 reader2 in
  let fuel := List.length (nodes tax) in
  batch_loop fuel tax idx_opts opts reader1 reader2 fresh_block
  <> OutOfFuel
  /\ (Forall (fragment_maskable opts) fs ->
      exists bs',
        batch_loop fuel tax idx_opts opts reader1 reader2 fresh_block
        = Finished bs'
        /\ total_sequences (thread_stats bs')
           = wrap64 (Z.of_nat (List.length fs))
        /\ total_bases (thread_stats bs') = wrap64 (batch_bases opts fs)
        /\ (exists c,
              0 <= c <= Z.of_nat (List.length fs)
              /\ total_classified (thread_stats bs') = wrap64 c)
        /\ (Z.of_nat (List.length fs) < 2 ^ 64 ->
            total_sequences (thread_stats bs')
            = Z.of_nat (List.length fs)
            /\ 0 <= total_classified (thread_stats bs')
                 <= total_sequences (thread_stats bs'))).
Proof.
  intros fs fuel. unfold fuel. rewrite batch_loop_fragments. fold fs.
  destruct (fold_fragments_result fs fresh_block) as [Hnot Hok].
  split; [exact Hnot|].
  intros Hmask. destruct (Hok Hmask) as (bs' & H). exists bs'.
  split; [exact H|].
  destruct (fold_fragments_counts (List.length (nodes tax)) tax idx_opts
              opts fs fresh_block bs' 0 0 0
              eq_refl eq_refl eq_refl H) as (H1 & H2 & c & Hc & H3).
  simpl in H1, H2, H3.
  split; [exact H1|]. split; [exact H2|]. split; [exists c; auto|].
  intros Hlen. rewrite H1, H3. unfold wrap64.
  rewrite !Z.mod_small by lia. split; [reflexivity | lia].
Qed.

End BatchTotal.

Lemma star_well_formed : wf_taxonomy Examples.star 1 = true.
Proof. vm_compute; reflexivity. Qed.

Lemma toy_index_in_star : @index_in_taxonomy Examples.toy Examples.star.
Proof.
  intros m. unfold hash_Get. simpl. unfold Examples.toy_Get, valid_taxon.
  repeat match goal with |- context [if ?c then _ else _] => destruct c end;
    try (left; reflexivity); right; simpl; lia.
Qed.

Lemma batch_loop_counters_witness :
  exists bs',
    @batch_loop Examples.toy 43 Examples.star Examples.idx0
      Examples.plain_opts
      [Examples.fasta "r1" "GATT"; Examples.fasta "r2" "NNN";
       Examples.fasta "r3" ""] [] fresh_block = Finished bs'
    /\ total_sequences (thread_stats bs') = 3
    /\ total_bases (thread_stats bs') = 7.
Proof.
  destruct (@batch_loop_counters Examples.toy Examples.star 1 Examples.idx0
              Examples.plain_opts star_well_formed (fun a b => eq_refl)
              toy_index_in_star toy_minimizers_proper
              [Examples.fasta "r1" "GATT"; Examples.fasta "r2" "NNN";
               Examples.fasta "r3" ""] [])
    as (_ & H).
  destruct H as (bs' & E & H1 & H2 & _).
  - repeat constructor; intros Hq; vm_compute in Hq; discriminate Hq.
  - exists bs'. split; [exact E|].
    split; [rewrite H1 | rewrite H2]; vm_compute; reflexivity.
Defined.

(** ** ProcessFiles: no block is lost *)

Section BlocksAccounted.
Import OutputOrder.
Variable sink_open : nat -> bool.

Lemma inv_after_pop (s : State) (n t : nat) (d : OutputData) :
  inv sink_open s n ->
  pc s t = AtDrain -> in_critical s = None ->
  block_id d = next_output_block_id s ->
  inv sink_open (after_pop s t d) n.
Proof.
  intros I Hpc Hc Hb.
  destruct I as (I1 & I2 & I3 & I4 & I5).
  unfold OutputOrder.inv, after_pop; simpl. repeat split.
  + exact I1.
  + destruct (Nat.eq_dec t0 t) as [->|Hne]; [reflexivity|].
    rewrite upd_other in H by exact Hne.
    destruct (I2 _ _ H) as [Hc' _]. congruence.
  + destruct (Nat.eq_dec t0 t) as [->|Hne].
    * rewrite upd_same in H. injection H as <-. exact Hb.
    * rewrite upd_other in H by exact Hne.
      destruct (I2 _ _ H) as [Hc' _]. congruence.
  + intros t' Ht'. injection Ht' as <-. exists d. apply upd_same.
  + destruct (Nat.eq_dec t0 t) as [->|Hne].
    * rewrite upd_same in H. discriminate.
    * rewrite upd_other in H by exact Hne. apply (I4 _ _ _ H).
  + destruct (Nat.eq_dec t0 t) as [->|Hne].
    * rewrite upd_same in H. discriminate.
    * rewrite upd_other in H by exact Hne. apply (I4 _ _ _ H).
  + destruct (output_lock s) as [t0|]; [|exact I5].
    destruct I5 as (d0 & k & m & Hd & Hn & Hb0 & Hlog).
    exists d0, k, m. repeat split; try assumption.
    rewrite upd_other; [exact Hd|]. intros ->. congruence.
Qed.

Lemma inv_after_lock (s : State) (n t : nat) (d : OutputData) :
  inv sink_open s n ->
  pc s t = WaitLock d -> output_lock s = None ->
  inv sink_open (after_lock s t d) (S n).
Proof.
  intros I Hpc Hl.
  destruct I as (I1 & I2 & I3 & I4 & I5).
  destruct (I2 _ _ Hpc) as [Hc Hb].
  unfold OutputOrder.inv, after_lock; simpl. repeat split.
  + rewrite I1. apply wrap64_succ.
  + destruct (Nat.eq_dec t0 t) as [->|Hne].
    * rewrite upd_same in H. discriminate.
    * rewrite upd_other in H by exact Hne.
      destruct (I2 _ _ H) as [Hc' _]. congruence.
  + destruct (Nat.eq_dec t0 t) as [->|Hne].
    * rewrite upd_same in H. discriminate.
    * rewrite upd_other in H by exact Hne.
      destruct (I2 _ _ H) as [Hc' _]. congruence.
  + discriminate.
  + destruct (Nat.eq_dec t0 t) as [->|Hne]; [reflexivity|].
    rewrite upd_other in H by exact Hne.
    destruct (I4 _ _ _ H) as [Hl' _]. congruence.
  + destruct (Nat.eq_dec t0 t) as [->|Hne].
    * rewrite upd_same in H. injection H as <- <-. lia.
    * rewrite upd_other in H by exact Hne.
      destruct (I4 _ _ _ H) as [Hl' _]. congruence.
  + exists d, 0%nat, n. rewrite upd_same. repeat split.
    * rewrite Hb. exact I1.
    * intros j. simpl. rewrite Hl in I5. apply I5.
Qed.

Lemma inv_after_write (s : State) (n t : nat) (d : OutputData) (k : nat) :
  inv sink_open s n ->
  pc s t = Writing d k -> (k < 5)%nat ->
  inv sink_open (after_write sink_open s t d k) n.
Proof.
  intros I Hpc Hk.
  destruct I as (I1 & I2 & I3 & I4 & I5).
  destruct (I4 _ _ _ Hpc) as [Hl _]. rewrite Hl in I5.
  destruct I5 as (d0 & k0 & m & Hd & Hn & Hb0 & Hlog).
  rewrite Hpc in Hd. injection Hd as <- <-.
  unfold OutputOrder.inv, after_write; simpl. repeat split.
  + exact I1.
  + destruct (Nat.eq_dec t0 t) as [->|Hne].
    * rewrite upd_same in H. discriminate.
    * rewrite upd_other in H by exact Hne. apply (I2 _ _ H).
  + destruct (Nat.eq_dec t0 t) as [->|Hne].
    * rewrite upd_same in H. discriminate.
    * rewrite upd_other in H by exact Hne. apply (I2 _ _ H).
  + intros t' Hc. destruct (I3 _ Hc) as (d' & Hd'). exists d'.
    rewrite upd_other; [exact Hd'|]. intros ->. congruence.
  + destruct (Nat.eq_dec t0 t) as [->|Hne]; [exact Hl|].
    rewrite upd_other in H by exact Hne. apply (I4 _ _ _ H).
  + destruct (Nat.eq_dec t0 t) as [->|Hne].
    * rewrite upd_same in H. injection H as <- <-. lia.
    * rewrite upd_other in H by exact Hne. apply (I4 _ _ _ H).
  + rewrite Hl. exists d, (S k), m. rewrite upd_same.
    repeat split; try assumption.
    intros j. specialize (Hlog j). unfold OutputOrder.log_is in *.
    simpl. unfold write_sink.
    destruct (Nat.eq_dec j k) as [->|Hjk].
    * rewrite Nat.ltb_irrefl in Hlog.
      destruct (Nat.ltb_spec k (S k)) as [_|]; [|lia].
      destruct (Nat.ltb_spec k 5) as [_|]; [|lia]. simpl in *.
      destruct (sink_open k).
      -- rewrite upd_same, Hlog, Hb0, Hn. symmetry. apply ids_succ.
      -- exact Hlog.
    * assert (E : (j <? S k)%nat = (j <? k)%nat).
      { destruct (Nat.ltb_spec j (S k)), (Nat.ltb_spec j k);
          try reflexivity; lia. }
      rewrite E.
      destruct (sink_open k); [rewrite upd_other by exact Hjk|];
        exact Hlog.
Qed.

Lemma inv_after_unlock (s : State) (n t : nat) (d : OutputData) :
  inv sink_open s n ->
  pc s t = Writing d 5 ->
  inv sink_open (after_unlock s t) n.
Proof.
  intros I Hpc.
  destruct I as (I1 & I2 & I3 & I4 & I5).
  destruct (I4 _ _ _ Hpc) as [Hl _]. rewrite Hl in I5.
  destruct I5 as (d0 & k0 & m & Hd & Hn & Hb0 & Hlog).
  rewrite Hpc in Hd. injection Hd as <- <-.
  unfold OutputOrder.inv, after_unlock; simpl. repeat split.
  + exact I1.
  + destruct (Nat.eq_dec t0 t) as [->|Hne].
    * rewrite upd_same in H. discriminate.
    * rewrite upd_other in H by exact Hne. apply (I2 _ _ H).
  + destruct (Nat.eq_dec t0 t) as [->|Hne].
    * rewrite upd_same in H. discriminate.
    * rewrite upd_other in H by exact Hne. apply (I2 _ _ H).
  + intros t' Hc. destruct (I3 _ Hc) as (d' & Hd'). exists d'.
    rewrite upd_other; [exact Hd'|]. intros ->. congruence.
  + destruct (Nat.eq_dec t0 t) as [->|Hne].
    * rewrite upd_same in H. discriminate.
    * rewrite upd_other in H by exact Hne.
      destruct (I4 _ _ _ H) as [Hl' _]. congruence.
  + destruct (Nat.eq_dec t0 t) as [->|Hne].
    * rewrite upd_same in H. discriminate.
    * rewrite upd_other in H by exact Hne. apply (I4 _ _ _ H).
  + intros j. specialize (Hlog j). unfold OutputOrder.log_is in *.
    simpl. destruct (Nat.ltb_spec j 5) as [Hj|Hj]; [exact Hlog|].
    simpl in *. destruct (j <? 5)%nat; exact Hlog.
Qed.

Lemma pq_remove_ids (b : Z) (q : list OutputData) :
  NoDup (map block_id q) ->
  forall b', In b' (map block_id (pq_remove b q))
             <-> In b' (map block_id q) /\ b' <> b.
Proof.
  induction q as [|x q IH]; simpl; intros ND b'; [tauto|].
  inversion ND as [|? ? Hx ND']; subst.
  destruct (Z.eqb_spec (block_id x) b) as [E|E].
  - split.
    + intros H. split; [right; exact H|]. intros ->. congruence.
    + intros [[H|H] Hne]; [congruence | exact H].
  - simpl. rewrite (IH ND'). split.
    + intros [H|[H Hne]]; [split; [left; exact H | congruence] | tauto].
    + intros [[H|H] Hne]; [left; exact H | right; tauto].
Qed.

Lemma pq_remove_NoDup (b : Z) (q : list OutputData) :
  NoDup (map block_id q) -> NoDup (map block_id (pq_remove b q)).
Proof.
  induction q as [|x q IH]; simpl; intros ND; [exact ND|].
  inversion ND as [|? ? Hx ND']; subst.
  destruct (block_id x =? b); [exact ND'|].
  simpl. constructor; [|apply IH; exact ND'].
  rewrite (pq_remove_ids b q ND'). tauto.
Qed.

Lemma acc_read (r : nat) (s : State) (n t : nat) :
  Z.of_nat (S r) < 2 ^ 64 ->
  blocks_accounted r false s n -> pc s t = AtRead ->
  blocks_accounted (S r) false
    (after_read s t (Classifying (next_input_block_id s))) n.
Proof.
  intros Hr (J1 & J2 & J3 & J4 & J5 & J6 & J7 & J8) Hpc.
  specialize (J1 eq_refl).
  unfold blocks_accounted, taken_off, queue_ids in *. simpl.
  split; [|split; [|split; [|split; [|split; [|split; [|split]]]]]].
  - intros _. rewrite J1. unfold wrap64. rewrite Z.mod_small; lia.
  - lia.
  - intros b Hb. destruct (J3 b Hb) as (i & -> & Hi). exists i.
    split; [reflexivity | lia].
  - exact J4.
  - intros t' b Ht'. destruct (Nat.eq_dec t' t) as [->|Hne].
    + rewrite upd_same in Ht'. injection Ht' as <-. split.
      * intros Hin. destruct (J3 _ Hin) as (i & E & Hi). lia.
      * exists r. split; [exact J1 | lia].
    + rewrite upd_other in Ht' by exact Hne.
      destruct (J5 _ _ Ht') as (Hq & i & -> & Hi).
      split; [exact Hq|]. exists i. split; [reflexivity | lia].
  - intros t1 t2 b H1 H2.
    destruct (Nat.eq_dec t1 t) as [->|N1];
      destruct (Nat.eq_dec t2 t) as [->|N2]; try reflexivity.
    + rewrite upd_same in H1. rewrite upd_other in H2 by exact N2.
      injection H1 as <-. destruct (J5 _ _ H2) as (_ & i & E & Hi). lia.
    + rewrite upd_same in H2. rewrite upd_other in H1 by exact N1.
      injection H2 as <-. destruct (J5 _ _ H1) as (_ & i & E & Hi). lia.
    + rewrite upd_other in H1 by exact N1.
      rewrite upd_other in H2 by exact N2. eapply J6; eassumption.
  - intros i Hi. destruct (Nat.eq_dec i r) as [->|Hir].
    + right. exists t. rewrite upd_same, J1. reflexivity.
    + destruct (J7 i) as [Hq|(t' & Ht')]; [lia | left; exact Hq|].
      right. exists t'. rewrite upd_other; [exact Ht'|].
      intros ->. congruence.
  - intros _. exists t. rewrite upd_same. exact I.
Qed.

Lemma acc_frame (r : nat) (e e' : bool) (s : State) (n n' t : nat) (p : Pc)
    (ni no : Z) (lk c' : option nat) (lg : nat -> list Z) :
  (e' = false -> e = false /\ ni = next_input_block_id s) ->
  match c' with Some _ => S n' | None => n' end = taken_off s n ->
  blocks_accounted r e s n ->
  (forall b, pc s t <> Classifying b) ->
  (forall b, p <> Classifying b) ->
  (output_queue s <> [] -> busy (pc s t) ->
   busy p \/ exists t', t' <> t /\ busy (pc s t')) ->
  blocks_accounted r e'
    (mkState (output_queue s) ni no lk c' lg (upd (pc s) t p)) n'.
Proof.
  intros He Htk (J1 & J2 & J3 & J4 & J5 & J6 & J7 & J8) Hpc Hp Hbusy.
  unfold blocks_accounted, queue_ids in *.
  unfold taken_off at 1 2 3 4. simpl. rewrite Htk.
  split; [|split; [|split; [|split; [|split; [|split; [|split]]]]]].
  - intros E. destruct (He E) as [E' ->]. apply J1; exact E'.
  - exact J2.
  - exact J3.
  - exact J4.
  - intros t' b Ht'. destruct (Nat.eq_dec t' t) as [->|Hne].
    + rewrite upd_same in Ht'. exfalso. eapply Hp; exact Ht'.
    + rewrite upd_other in Ht' by exact Hne. eapply J5; exact Ht'.
  - intros t1 t2 b H1 H2.
    destruct (Nat.eq_dec t1 t) as [->|N1];
      [rewrite upd_same in H1; exfalso; eapply Hp; exact H1|].
    destruct (Nat.eq_dec t2 t) as [->|N2];
      [rewrite upd_same in H2; exfalso; eapply Hp; exact H2|].
    rewrite upd_other in H1 by exact N1.
    rewrite upd_other in H2 by exact N2. eapply J6; eassumption.
  - intros i Hi. destruct (J7 i Hi) as [Hq|(t' & Ht')]; [left; exact Hq|].
    right. exists t'. rewrite upd_other; [exact Ht'|].
    intros ->. eapply Hpc; exact Ht'.
  - intros Hq. destruct (J8 Hq) as (t' & Ht').
    destruct (Nat.eq_dec t' t) as [->|Hne].
    + destruct (Hbusy Hq Ht') as [Hb|(t'' & Hne & Hb'')].
      * exists t. rewrite upd_same. exact Hb.
      * exists t''. rewrite upd_other by exact Hne. exact Hb''.
    + exists t'. rewrite upd_other by exact Hne. exact Ht'.
Qed.

Lemma acc_push (r : nat) (e : bool) (s : State) (n t : nat) (d : OutputData) :
  blocks_accounted r e s n ->
  pc s t = Classifying (block_id d) ->
  blocks_accounted r e (after_push s t d) n.
Proof.
  intros (J1 & J2 & J3 & J4 & J5 & J6 & J7 & J8) Hpc.
  destruct (J5 _ _ Hpc) as (Hnew & i0 & E0 & Hi0).
  unfold blocks_accounted, taken_off, queue_ids in *. simpl.
  split; [|split; [|split; [|split; [|split; [|split; [|split]]]]]].
  - exact J1.
  - exact J2.
  - intros b [<-|Hb]; [exists i0; split; assumption | apply J3; exact Hb].
  - constructor; assumption.
  - intros t' b Ht'. destruct (Nat.eq_dec t' t) as [->|Hne].
    + rewrite upd_same in Ht'. discriminate.
    + rewrite upd_other in Ht' by exact Hne.
      destruct (J5 _ _ Ht') as (Hq & Hi). split; [|exact Hi].
      intros [E|Hin]; [|contradiction].
      apply Hne. apply (J6 t' t b); [exact Ht' | rewrite Hpc, E; reflexivity].
  - intros t1 t2 b H1 H2.
    destruct (Nat.eq_dec t1 t) as [->|N1];
      [rewrite upd_same in H1; discriminate|].
    destruct (Nat.eq_dec t2 t) as [->|N2];
      [rewrite upd_same in H2; discriminate|].
    rewrite upd_other in H1 by exact N1.
    rewrite upd_other in H2 by exact N2. eapply J6; eassumption.
  - intros i Hi. destruct (J7 i Hi) as [Hq|(t' & Ht')];
      [left; right; exact Hq|].
    destruct (Nat.eq_dec t' t) as [->|Hne].
    + left; left. rewrite Hpc in Ht'. injection Ht' as ->. reflexivity.
    + right. exists t'. rewrite upd_other by exact Hne. exact Ht'.
  - intros _. exists t. rewrite upd_same. exact I.
Qed.

Lemma acc_pop (r : nat) (e : bool) (s : State) (n t : nat) (d : OutputData) :
  Z.of_nat r < 2 ^ 64 ->
  inv sink_open s n -> blocks_accounted r e s n ->
  pc s t = AtDrain -> in_critical s = None ->
  pq_top (output_queue s) = Some d ->
  block_id d = next_output_block_id s ->
  blocks_accounted r e (after_pop s t d) n.
Proof.
  intros Hr (I1 & _) (J1 & J2 & J3 & J4 & J5 & J6 & J7 & J8) Hpc Hc Ht Hb.
  unfold blocks_accounted, taken_off, queue_ids in *.
  rewrite Hc in J2, J3, J5, J7. simpl.
  assert (Hin : In (block_id d) (map block_id (output_queue s)))
    by (apply in_map, pq_top_In; exact Ht).
  assert (Hn : block_id d = Z.of_nat n).
  { destruct (J3 _ Hin) as (i & E & Hi). rewrite Hb, I1 in E |- *.
    unfold wrap64 in *. rewrite Z.mod_small in E |- * by lia. reflexivity. }
  assert (Hlt : (n < r)%nat).
  { destruct (J3 _ Hin) as (i & E & Hi). rewrite Hn in E. lia. }
  unfold pq_pop. rewrite Ht.
  split; [|split; [|split; [|split; [|split; [|split; [|split]]]]]].
  - exact J1.
  - lia.
  - intros b Hq. apply (pq_remove_ids _ _ J4) in Hq. destruct Hq as [Hq Hne].
    destruct (J3 _ Hq) as (i & -> & Hi). exists i. split; [reflexivity|].
    rewrite Hn in Hne. lia.
  - apply pq_remove_NoDup; exact J4.
  - intros t' b Ht'. destruct (Nat.eq_dec t' t) as [->|Hne].
    + rewrite upd_same in Ht'. discriminate.
    + rewrite upd_other in Ht' by exact Hne.
      destruct (J5 _ _ Ht') as (Hq & i & -> & Hi). split.
      * intros H. apply (pq_remove_ids _ _ J4) in H. tauto.
      * exists i. split; [reflexivity|].
        assert (i <> n) by (intros ->; rewrite <- Hn in Hq; contradiction).
        lia.
  - intros t1 t2 b H1 H2.
    destruct (Nat.eq_dec t1 t) as [->|N1];
      [rewrite upd_same in H1; discriminate|].
    destruct (Nat.eq_dec t2 t) as [->|N2];
      [rewrite upd_same in H2; discriminate|].
    rewrite upd_other in H1 by exact N1.
    rewrite upd_other in H2 by exact N2. eapply J6; eassumption.
  - intros i Hi. destruct (J7 i) as [Hq|(t' & Ht')]; [lia | |].
    + left. apply (pq_remove_ids _ _ J4). split; [exact Hq|].
      rewrite Hn. lia.
    + right. exists t'. rewrite upd_other; [exact Ht'|].
      intros ->. congruence.
  - intros _. exists t. rewrite upd_same. exact I.
Qed.

(** Along a run the invariant of the ordered output and the accounting of
    the blocks hold together. *)
Lemma run_accounted (r : nat) (e : bool) (s : State) :
  run sink_open r e s -> Z.of_nat r < 2 ^ 64 ->
  exists n, inv sink_open s n /\ blocks_accounted r e s n.
Proof.
  induction 1 as [ | r s t _ IH Hpc | r e s t _ IH Hpc
                 | r e s t b d _ IH Hpc Hc Hb | r e s t _ IH Hpc Hc Hq
                 | r e s t d _ IH Hpc Hc Ht Hne | r e s t d _ IH Hpc Hc Ht Hb
                 | r e s t d _ IH Hpc Hl | r e s t d k _ IH Hpc Hk
                 | r e s t d _ IH Hpc ]; intros Hr.
  - exists 0%nat. split; [apply inv_initial|].
    unfold blocks_accounted, taken_off, queue_ids. simpl.
    split; [|split; [|split; [|split; [|split; [|split; [|split]]]]]].
    + reflexivity.
    + lia.
    + intros b [].
    + constructor.
    + discriminate.
    + discriminate.
    + intros i Hi. lia.
    + intros Hq. contradiction.
  - destruct IH as (n & I & J); [lia|]. exists n. split.
    + apply (inv_quiet_move sink_open); [exact I | rewrite Hpc | ];
        exact Logic.I.
    + apply acc_read; assumption.
  - destruct (IH Hr) as (n & I & J). exists n. split.
    + apply (inv_quiet_move sink_open); [exact I | rewrite Hpc | ];
        exact Logic.I.
    + apply (acc_frame r e true s n n t); try assumption.
      * discriminate.
      * reflexivity.
      * intros b. rewrite Hpc. discriminate.
      * discriminate.
      * intros _ Hb. rewrite Hpc in Hb. destruct Hb.
  - destruct (IH Hr) as (n & I & J). exists n. split.
    + apply (inv_quiet_move sink_open); [exact I | rewrite Hpc | ];
        exact Logic.I.
    + apply acc_push; [exact J | rewrite Hpc, Hb; reflexivity].
  - destruct (IH Hr) as (n & I & J). exists n. split.
    + apply (inv_quiet_move sink_open); [exact I | rewrite Hpc | ];
        exact Logic.I.
    + apply (acc_frame r e e s n n t); try assumption.
      * intros E. split; [exact E | reflexivity].
      * reflexivity.
      * intros b. rewrite Hpc. discriminate.
      * discriminate.
      * intros Hq'. contradiction.
  - destruct (IH Hr) as (n & I & J). exists n. split.
    + apply (inv_quiet_move sink_open); [exact I | rewrite Hpc | ];
        exact Logic.I.
    + apply (acc_frame r e e s n n t); try assumption.
      * intros E. split; [exact E | reflexivity].
      * reflexivity.
      * intros b. rewrite Hpc. discriminate.
      * discriminate.
      * (* the block that is next is still being classified *)
        intros _ _. right.
        destruct I as (I1 & _).
        destruct J as (J1 & J2 & J3 & J4 & J5 & J6 & J7 & J8).
        unfold taken_off, queue_ids in *. rewrite Hc in J2, J3, J5, J7.
        assert (Hin : In (block_id d) (map block_id (output_queue s)))
          by (apply in_map, pq_top_In; exact Ht).
        destruct (J3 _ Hin) as (i & E & Hi).
        assert (Hn : next_output_block_id s = Z.of_nat n)
          by (rewrite I1; unfold wrap64; apply Z.mod_small; lia).
        assert (Hlt : (n < i)%nat) by (rewrite Hn, E in Hne; lia).
        destruct (J7 n) as [Hq|(t' & Ht')]; [lia | |].
        -- exfalso. apply in_map_iff in Hq. destruct Hq as (d' & Ed & Hd').
           pose proof (pq_top_min _ _ Ht d' Hd'). lia.
        -- exists t'. split; [intros ->; congruence|].
           rewrite Ht'. exact Logic.I.
  - destruct (IH Hr) as (n & I & J). exists n. split.
    + apply inv_after_pop; assumption.
    + apply acc_pop; assumption.
  - destruct (IH Hr) as (n & I & J). exists (S n). split.
    + apply inv_after_lock; assumption.
    + destruct I as (_ & I2 & _). destruct (I2 _ _ Hpc) as [Hc _].
      apply (acc_frame r e e s n (S n) t); try assumption.
      * intros E. split; [exact E | reflexivity].
      * unfold taken_off. rewrite Hc. reflexivity.
      * intros b. rewrite Hpc. discriminate.
      * discriminate.
      * intros _ _. left. exact Logic.I.
  - destruct (IH Hr) as (n & I & J). exists n. split.
    + apply inv_after_write; assumption.
    + apply (acc_frame r e e s n n t); try assumption.
      * intros E. split; [exact E | reflexivity].
      * reflexivity.
      * intros b. rewrite Hpc. discriminate.
      * discriminate.
      * intros _ _. left. exact Logic.I.
  - destruct (IH Hr) as (n & I & J). exists n. split.
    + apply (inv_after_unlock s n t d); assumption.
    + apply (acc_frame r e e s n n t); try assumption.
      * intros E. split; [exact E | reflexivity].
      * reflexivity.
      * intros b. rewrite Hpc. discriminate.
      * discriminate.
      * intros _ _. left. exact Logic.I.
Qed.

End BlocksAccounted.

Lemma ids_exact (r : nat) :
  Z.of_nat r <= 2 ^ 64 ->
  OutputOrder.ids r = map Z.of_nat (List.seq 0 r).
Proof.
  intros Hr. unfold OutputOrder.ids. apply map_ext_in.
  intros i Hi. apply in_seq in Hi. unfold wrap64. apply Z.mod_small. lia.
Qed.

(** X13: the five output streams are written by one thread at a time: in
    every state the workers can reach, at most one thread is between
    [omp_set_lock] and [omp_unset_lock], at most one thread waits for the
    lock inside the critical section, and a thread that waits holds the
    block that follows the one being written. *)
Theorem writers_exclusive (sink_open : nat -> bool) (s : OutputOrder.State) :
  OutputOrder.reachable sink_open s ->
  (forall t1 t2 d1 d2 k1 k2,
     OutputOrder.pc s t1 = OutputOrder.Writing d1 k1 ->
     OutputOrder.pc s t2 = OutputOrder.Writing d2 k2 -> t1 = t2)
  /\ (forall t1 t2 d1 d2,
        OutputOrder.pc s t1 = OutputOrder.WaitLock d1 ->
        OutputOrder.pc s t2 = OutputOrder.WaitLock d2 -> t1 = t2)
  /\ (forall t1 t2 d1 d2 k,
        OutputOrder.pc s t1 = OutputOrder.WaitLock d1 ->
        OutputOrder.pc s t2 = OutputOrder.Writing d2 k ->
        block_id d1 = wrap64 (block_id d2 + 1)).
Proof.
  intros R. destruct (reachable_inv sink_open s R)
    as (n & I1 & I2 & I3 & I4 & I5).
  split; [|split].
  - intros t1 t2 d1 d2 k1 k2 H1 H2.
    destruct (I4 _ _ _ H1) as [L1 _]. destruct (I4 _ _ _ H2) as [L2 _].
    congruence.
  - intros t1 t2 d1 d2 H1 H2.
    destruct (I2 _ _ H1) as [C1 _]. destruct (I2 _ _ H2) as [C2 _].
    congruence.
  - intros t1 t2 d1 d2 k H1 H2.
    destruct (I2 _ _ H1) as [_ B1]. destruct (I4 _ _ _ H2) as [L2 _].
    rewrite L2 in I5. destruct I5 as (d & k' & m & Hd & Hn & Hb & _).
    rewrite H2 in Hd. injection Hd as <- <-.
    rewrite B1, I1, Hn, Hb. symmetry. apply wrap64_succ.
Qed.

Lemma writers_exclusive_witness :
  OutputOrder.reachable Examples.all_open ExclusionExample.both7
  /\ OutputOrder.pc ExclusionExample.both7 0
     = OutputOrder.Writing Examples.block0 0
  /\ OutputOrder.pc ExclusionExample.both7 1
     = OutputOrder.WaitLock PoolExample.block1
  /\ block_id PoolExample.block1 = wrap64 (block_id Examples.block0 + 1).
Proof.
  assert (R : OutputOrder.reachable Examples.all_open
                ExclusionExample.both7).
  { apply OutputOrder.reach_step with (s := ExclusionExample.both6);
      [|apply (OutputOrder.step_drain_pop Examples.all_open
                 ExclusionExample.both6 1 PoolExample.block1);
        reflexivity].
    apply OutputOrder.reach_step with (s := ExclusionExample.both5);
      [|apply (OutputOrder.step_lock Examples.all_open
                 ExclusionExample.both5 0 Examples.block0); reflexivity].
    apply OutputOrder.reach_step with (s := ExclusionExample.both4);
      [|apply (OutputOrder.step_drain_pop Examples.all_open
                 ExclusionExample.both4 0 Examples.block0); reflexivity].
    apply OutputOrder.reach_step with (s := ExclusionExample.both3);
      [|apply (OutputOrder.step_push Examples.all_open
                 ExclusionExample.both3 1 1 PoolExample.block1);
        reflexivity].
    apply OutputOrder.reach_step with (s := ExclusionExample.both2);
      [|apply (OutputOrder.step_push Examples.all_open
                 ExclusionExample.both2 0 0 Examples.block0); reflexivity].
    apply OutputOrder.reach_step with (s := ExclusionExample.both1);
      [|apply (OutputOrder.step_read Examples.all_open
                 ExclusionExample.both1 1); reflexivity].
    apply OutputOrder.reach_step with (s := OutputOrder.initial);
      [apply OutputOrder.reach_initial|].
    apply (OutputOrder.step_read Examples.all_open OutputOrder.initial 0).
    reflexivity. }
  split; [exact R|]. split; [reflexivity|]. split; [reflexivity|].
  apply (proj2 (proj2 (writers_exclusive Examples.all_open
                         ExclusionExample.both7 R))
           1%nat 0%nat PoolExample.block1 Examples.block0 0%nat);
    reflexivity.
Defined.

(** X14: no block is lost.  In a run in which the readers stay at end of
    input once a read has failed, and fewer than 2^64 batches are read:
    whenever no worker holds a block or is about to look at the queue
    (every worker is at the top of its loop or has left it), the queue is
    empty and every open stream has received the blocks 0, 1, ..., r-1 of
    all [r] batches read, in this order. *)
Theorem no_block_lost (sink_open : nat -> bool) (r : nat) (e : bool)
    (s : OutputOrder.State) :
  run sink_open r e s ->
  Z.of_nat r < 2 ^ 64 ->
  (forall t, ~ busy (OutputOrder.pc s t)) ->
  OutputOrder.output_queue s = []
  /\ OutputOrder.output_lock s = None
  /\ forall k,
       OutputOrder.sink_log s k
       = if (k <? 5)%nat && sink_open k
         then map Z.of_nat (List.seq 0 r) else [].
Proof.
  intros Hrun Hr Hidle.
  destruct (run_accounted sink_open r e s Hrun Hr)
    as (n & (I1 & I2 & I3 & I4 & I5)
          & (J1 & J2 & J3 & J4 & J5 & J6 & J7 & J8)).
  assert (Hq : OutputOrder.output_queue s = []).
  { destruct (OutputOrder.output_queue s) as [|d q] eqn:E; [reflexivity|].
    destruct J8 as (t & Ht); [discriminate|]. destruct (Hidle t Ht). }
  assert (Hc : OutputOrder.in_critical s = None).
  { destruct (OutputOrder.in_critical s) as [t|] eqn:E; [|reflexivity].
    destruct (I3 t eq_refl) as (d & Hd). exfalso. apply (Hidle t).
    rewrite Hd. exact I. }
  assert (Hl : OutputOrder.output_lock s = None).
  { destruct (OutputOrder.output_lock s) as [t|] eqn:E; [|reflexivity].
    destruct I5 as (d & k & m & Hd & _). exfalso. apply (Hidle t).
    rewrite Hd. exact I. }
  unfold taken_off, queue_ids in *. rewrite Hc in J2, J7. rewrite Hq in J7.
  assert (Hn : n = r).
  { destruct (Nat.eq_dec n r) as [E|E]; [exact E|].
    destruct (J7 n) as [[]|(t & Ht)]; [lia|].
    exfalso. apply (Hidle t). rewrite Ht. exact I. }
  subst n. split; [exact Hq|]. split; [exact Hl|].
  intros k. rewrite Hl in I5. specialize (I5 k).
  unfold OutputOrder.log_is in I5. rewrite I5.
  destruct ((k <? 5)%nat && sink_open k); [|reflexivity].
  apply ids_exact. lia.
Qed.

Lemma no_block_lost_witness :
  run Examples.all_open 1 false RunExample.run11
  /\ OutputOrder.output_queue RunExample.run11 = []
  /\ OutputOrder.sink_log RunExample.run11 4%nat = [0].
Proof.
  assert (R : run Examples.all_open 1 false RunExample.run11).
  { apply (run_drain_empty _ _ _ RunExample.run10 0);
      [|reflexivity|reflexivity|reflexivity].
    apply (run_unlock _ _ _ RunExample.run9 0 Examples.block0);
      [|reflexivity].
    apply (run_write _ _ _ RunExample.run8 0 Examples.block0 4);
      [|reflexivity|lia].
    apply (run_write _ _ _ RunExample.run7 0 Examples.block0 3);
      [|reflexivity|lia].
    apply (run_write _ _ _ RunExample.run6 0 Examples.block0 2);
      [|reflexivity|lia].
    apply (run_write _ _ _ Examples.run5 0 Examples.block0 1);
      [|reflexivity|lia].
    apply (run_write _ _ _ Examples.run4 0 Examples.block0 0);
      [|reflexivity|lia].
    apply (run_lock _ _ _ Examples.run3 0 Examples.block0);
      [|reflexivity|reflexivity].
    apply (run_drain_pop _ _ _ Examples.run2 0 Examples.block0);
      [|reflexivity|reflexivity|reflexivity|reflexivity].
    apply (run_push _ _ _ Examples.run1 0 0 Examples.block0);
      [|reflexivity|reflexivity|reflexivity].
    apply (run_read _ _ OutputOrder.initial 0);
      [apply run_initial | reflexivity]. }
  split; [exact R|].
  destruct (no_block_lost Examples.all_open 1 false RunExample.run11 R)
    as (Hq & _ & Hlog).
  - vm_compute; reflexivity.
  - intros [|t] H; exact H.
  - split; [exact Hq|]. rewrite Hlog. reflexivity.
Defined.

(** ** ProcessFiles: the pool of spare buffers *)

Lemma remove_NoDup (t : nat) (l : list nat) :
  NoDup l -> NoDup (remove Nat.eq_dec t l).
Proof.
  induction 1 as [|x l Hx ND IH]; simpl; [constructor|].
  destruct (Nat.eq_dec t x); [exact IH|].
  constructor; [|exact IH]. intros H. apply in_remove in H. tauto.
Qed.

Lemma remove_NoDup_length (t : nat) (l : list nat) :
  NoDup l -> In t l ->
  S (List.length (remove Nat.eq_dec t l)) = List.length l.
Proof.
  induction 1 as [|x l Hx ND IH]; simpl; [tauto|].
  intros [->|Ht].
  - destruct (Nat.eq_dec t t); [|congruence].
    rewrite notin_remove by exact Hx. reflexivity.
  - destruct (Nat.eq_dec t x) as [->|]; [contradiction|].
    simpl. rewrite IH by exact Ht. reflexivity.
Qed.

Lemma pq_remove_length (d : OutputData) (q : list OutputData) :
  In d q ->
  S (List.length (OutputOrder.pq_remove (block_id d) q)) = List.length q.
Proof.
  induction q as [|x q IH]; simpl; [tauto|].
  destruct (Z.eqb_spec (block_id x) (block_id d)) as [E|E];
    [reflexivity|].
  intros [->|H]; [congruence|]. simpl. rewrite IH by exact H. reflexivity.
Qed.

Lemma pq_pop_length (d : OutputData) (q : list OutputData) :
  OutputOrder.pq_top q = Some d ->
  S (List.length (OutputOrder.pq_pop q)) = List.length q.
Proof.
  intros H. unfold OutputOrder.pq_pop. rewrite H.
  apply pq_remove_length. apply pq_top_In. exact H.
Qed.

Section PoolFacts.
Import OutputOrder.
Variable sink_open : nat -> bool.
Variable max_threads : nat.

(** A move of worker [t] that neither starts nor ends empty-handed and
    does not lower the number of spare and queued objects keeps the
    invariant with the same workers. *)
Lemma pool_frame (s s' : BufferPool.Pool) (ws : list nat) (t : nat)
    (p : Pc) :
  BufferPool.pool_inv max_threads s ws ->
  pc (BufferPool.shared s') = upd (pc (BufferPool.shared s)) t p ->
  (forall t', BufferPool.borrowed_buffer s' t'
              = BufferPool.borrowed_buffer s t') ->
  ~ BufferPool.empty_handed s t ->
  (p = AtDrain -> BufferPool.borrowed_buffer s t = true) ->
  (forall d, p = WaitLock d -> BufferPool.borrowed_buffer s t = true) ->
  (forall d k, p = Writing d k -> BufferPool.borrowed_buffer s t = true) ->
  (BufferPool.buffers_size s
   + List.length (output_queue (BufferPool.shared s))
   <= BufferPool.buffers_size s'
      + List.length (output_queue (BufferPool.shared s')))%nat ->
  BufferPool.pool_inv max_threads s' ws.
Proof.
  intros (ND & Hws & Hw & Hr & Hn) Hpc Hb Hnot Hd Hwl Hwr Hsz.
  unfold BufferPool.pool_inv, BufferPool.empty_handed in *.
  rewrite Hpc.
  split; [exact ND|]. split; [|split; [|split]].
  - intros t'. rewrite Hb, Hws. destruct (Nat.eq_dec t' t) as [->|Ne].
    + rewrite upd_same. split; [intros H; contradiction|].
      intros [H1 H2]. rewrite (Hd H1) in H2. discriminate.
    + rewrite upd_other by exact Ne. tauto.
  - intros t' d. rewrite Hb. destruct (Nat.eq_dec t' t) as [->|Ne].
    + rewrite upd_same. intros ->. eapply Hwl. reflexivity.
    + rewrite upd_other by exact Ne. apply Hw.
  - intros t' d k. rewrite Hb. destruct (Nat.eq_dec t' t) as [->|Ne].
    + rewrite upd_same. intros ->. eapply Hwr. reflexivity.
    + rewrite upd_other by exact Ne. apply Hr.
  - lia.
Qed.

(** An empty-handed worker [t] leaves the top of the drain loop: it goes
    out of the list, and one spare or queued object may go with it. *)
Lemma pool_leave (s s' : BufferPool.Pool) (ws : list nat) (t : nat)
    (p : Pc) (b : bool) :
  BufferPool.pool_inv max_threads s ws ->
  BufferPool.empty_handed s t ->
  pc (BufferPool.shared s') = upd (pc (BufferPool.shared s)) t p ->
  (forall t', BufferPool.borrowed_buffer s' t'
              = upd (BufferPool.borrowed_buffer s) t b t') ->
  (p = AtDrain -> b = true) ->
  (forall d, p = WaitLock d -> b = true) ->
  (forall d k, p = Writing d k -> b = true) ->
  (BufferPool.buffers_size s
   + List.length (output_queue (BufferPool.shared s))
   <= S (BufferPool.buffers_size s'
         + List.length (output_queue (BufferPool.shared s'))))%nat ->
  BufferPool.pool_inv max_threads s' (remove Nat.eq_dec t ws).
Proof.
  intros (ND & Hws & Hw & Hr & Hn) Ht Hpc Hb Hd Hwl Hwr Hsz.
  assert (Hin : In t ws) by (apply Hws; exact Ht).
  pose proof (remove_NoDup_length t ws ND Hin) as Hlen.
  unfold BufferPool.pool_inv, BufferPool.empty_handed in *.
  rewrite Hpc.
  split; [apply remove_NoDup; exact ND|]. split; [|split; [|split]].
  - intros t'. rewrite Hb. destruct (Nat.eq_dec t' t) as [->|Ne].
    + rewrite !upd_same. split.
      * intros H. apply in_remove in H. tauto.
      * intros [H1 H2]. rewrite (Hd H1) in H2. discriminate.
    + rewrite !upd_other by exact Ne. rewrite <- Hws. split.
      * intros H. apply in_remove in H. tauto.
      * intros H. apply in_in_remove; assumption.
  - intros t' d. rewrite Hb. destruct (Nat.eq_dec t' t) as [->|Ne].
    + rewrite !upd_same. intros ->. eapply Hwl. reflexivity.
    + rewrite !upd_other by exact Ne. apply Hw.
  - intros t' d k. rewrite Hb. destruct (Nat.eq_dec t' t) as [->|Ne].
    + rewrite !upd_same. intros ->. eapply Hwr. reflexivity.
    + rewrite !upd_other by exact Ne. apply Hr.
  - lia.
Qed.

Lemma pool_inv_initial :
  BufferPool.pool_inv max_threads (BufferPool.initial max_threads) [].
Proof.
  unfold BufferPool.pool_inv, BufferPool.empty_handed. simpl.
  split; [constructor|]. split; [|split; [|split]].
  - intros t. split; [tauto | intros [H _]; discriminate].
  - intros t d H. discriminate.
  - intros t d k H. discriminate.
  - lia.
Qed.

Lemma pool_inv_step (s s' : BufferPool.Pool) (ws : list nat) :
  BufferPool.pool_inv max_threads s ws ->
  BufferPool.step sink_open s s' ->
  exists ws', BufferPool.pool_inv max_threads s' ws'.
Proof.
  intros I St. pose proof I as (ND & Hws & Hw & Hr & Hn).
  destruct St as [s t Hpc | s t Hpc | s t b d Hpc Hc Hb | s t Hpc Hc Hq
                 | s t d Hpc Hc Htop Hne | s t d Hpc Hc Htop Heq
                 | s t d Hpc Hl | s t d k Hpc Hk | s t d Hpc].
  - exists ws.
    apply (pool_frame s _ ws t (Classifying (next_input_block_id
                                               (BufferPool.shared s))));
      pool_side.
  - exists ws. apply (pool_frame s _ ws t Left); pool_side.
  - exists (t :: ws).
    assert (Hnin : ~ In t ws).
    { intros H. apply Hws in H. destruct H as [H _]. congruence. }
    unfold BufferPool.pool_inv, BufferPool.empty_handed in *. simpl.
    split; [constructor; assumption|]. split; [|split; [|split]].
    + intros t'. destruct (Nat.eq_dec t' t) as [->|Ne].
      * rewrite !upd_same. split; [auto | intros _; left; reflexivity].
      * rewrite !upd_other by exact Ne. rewrite <- Hws.
        split; [intros [H|H]; [congruence | exact H] | auto].
    + intros t' d'. destruct (Nat.eq_dec t' t) as [->|Ne].
      * rewrite !upd_same. discriminate.
      * rewrite !upd_other by exact Ne. apply Hw.
    + intros t' d' k. destruct (Nat.eq_dec t' t) as [->|Ne].
      * rewrite !upd_same. discriminate.
      * rewrite !upd_other by exact Ne. apply Hr.
    + lia.
  - destruct (BufferPool.borrowed_buffer s t) eqn:B.
    + exists ws. apply (pool_frame s _ ws t AtRead); pool_side.
    + exists (remove Nat.eq_dec t ws).
      apply (pool_leave s _ ws t AtRead false); pool_side.
  - destruct (BufferPool.borrowed_buffer s t) eqn:B.
    + exists ws. apply (pool_frame s _ ws t AtRead); pool_side.
    + exists (remove Nat.eq_dec t ws).
      apply (pool_leave s _ ws t AtRead false); pool_side.
  - pose proof (pq_pop_length d _ Htop) as Hlen.
    destruct (BufferPool.borrowed_buffer s t) eqn:B.
    + exists ws. apply (pool_frame s _ ws t (WaitLock d)); pool_side.
    + exists (remove Nat.eq_dec t ws).
      apply (pool_leave s _ ws t (WaitLock d) true); pool_side.
  - exists ws. apply (pool_frame s _ ws t (Writing d 0)); pool_side.
  - exists ws. apply (pool_frame s _ ws t (Writing d (S k))); pool_side.
  - exists ws. apply (pool_frame s _ ws t AtDrain); pool_side.
Qed.

End PoolFacts.

Lemma pool_reachable_inv (sink_open : nat -> bool) (max_threads : nat)
    (s : BufferPool.Pool) :
  BufferPool.reachable sink_open max_threads s ->
  exists ws, BufferPool.pool_inv max_threads s ws.
Proof.
  induction 1 as [|s s' _ [ws IH] St].
  - exists []. apply (pool_inv_initial sink_open max_threads).
  - apply (pool_inv_step sink_open max_threads s s' ws IH St).
Qed.

(** X15: [buffers.back()] at line 638 is never called on an empty vector.
    Whenever a worker is about to take a spare buffer without the guard
    (it is at the top of the drain loop, has popped nothing since its
    push, and finds the queue empty), the pool holds more spares than it
    started with, whatever [omp_get_max_threads()] was; in every
    reachable state the spares and the queued blocks together are at
    least the initial pool plus one for each worker that has pushed and
    popped nothing yet. *)
Theorem spare_buffer_available (sink_open : nat -> bool)
    (max_threads : nat) (s : BufferPool.Pool) (t : nat) :
  BufferPool.reachable sink_open max_threads s ->
  BufferPool.takes_unguarded s t ->
  (max_threads * 2 < BufferPool.buffers_size s)%nat.
Proof.
  intros R (Ht & _ & Hq).
  destruct (pool_reachable_inv sink_open max_threads s R)
    as (ws & ND & Hws & _ & _ & Hn).
  rewrite Hq in Hn. simpl in Hn.
  assert (Hin : In t ws) by (apply Hws; exact Ht).
  destruct ws as [|w ws]; [destruct Hin|]. simpl in Hn. lia.
Qed.

Lemma spare_buffer_available_witness :
  BufferPool.reachable Examples.all_open 1 PoolExample.pool14
  /\ BufferPool.takes_unguarded PoolExample.pool14 0
  /\ (2 < BufferPool.buffers_size PoolExample.pool14)%nat.
Proof.
  assert (R : BufferPool.reachable Examples.all_open 1 PoolExample.pool14).
  { apply BufferPool.reach_step with (s := PoolExample.pool13);
      [|apply (BufferPool.pool_lock Examples.all_open PoolExample.pool13 1
                 PoolExample.block1); reflexivity].
    apply BufferPool.reach_step with (s := PoolExample.pool12);
      [|apply (BufferPool.pool_drain_pop Examples.all_open
                 PoolExample.pool12 1 PoolExample.block1); reflexivity].
    apply BufferPool.reach_step with (s := PoolExample.pool11);
      [|apply (BufferPool.pool_unlock Examples.all_open PoolExample.pool11
                 1 Examples.block0); reflexivity].
    apply BufferPool.reach_step
      with (s := PoolExample.written
                   (PoolExample.written
                      (PoolExample.written
                         (PoolExample.written PoolExample.pool6 0) 1) 2) 3);
      [|apply (BufferPool.pool_write Examples.all_open _ 1 Examples.block0
                 4); [reflexivity | lia]].
    apply BufferPool.reach_step
      with (s := PoolExample.written
                   (PoolExample.written
                      (PoolExample.written PoolExample.pool6 0) 1) 2);
      [|apply (BufferPool.pool_write Examples.all_open _ 1 Examples.block0
                 3); [reflexivity | lia]].
    apply BufferPool.reach_step
      with (s := PoolExample.written
                   (PoolExample.written PoolExample.pool6 0) 1);
      [|apply (BufferPool.pool_write Examples.all_open _ 1 Examples.block0
                 2); [reflexivity | lia]].
    apply BufferPool.reach_step
      with (s := PoolExample.written PoolExample.pool6 0);
      [|apply (BufferPool.pool_write Examples.all_open _ 1 Examples.block0
                 1); [reflexivity | lia]].
    apply BufferPool.reach_step with (s := PoolExample.pool6);
      [|apply (BufferPool.pool_write Examples.all_open _ 1 Examples.block0
                 0); [reflexivity | lia]].
    apply BufferPool.reach_step with (s := PoolExample.pool5);
      [|apply (BufferPool.pool_lock Examples.all_open PoolExample.pool5 1
                 Examples.block0); reflexivity].
    apply BufferPool.reach_step with (s := PoolExample.pool4);
      [|apply (BufferPool.pool_drain_pop Examples.all_open
                 PoolExample.pool4 1 Examples.block0); reflexivity].
    apply BufferPool.reach_step with (s := PoolExample.pool3);
      [|apply (BufferPool.pool_push Examples.all_open PoolExample.pool3 1 1
                 PoolExample.block1); reflexivity].
    apply BufferPool.reach_step with (s := PoolExample.pool2);
      [|apply (BufferPool.pool_read Examples.all_open PoolExample.pool2 1);
        reflexivity].
    apply BufferPool.reach_step with (s := PoolExample.pool1);
      [|apply (BufferPool.pool_push Examples.all_open PoolExample.pool1 0 0
                 Examples.block0); reflexivity].
    apply BufferPool.reach_step with (s := PoolExample.pool0);
      [apply BufferPool.reach_initial|].
    apply (BufferPool.pool_read Examples.all_open PoolExample.pool0 0).
    reflexivity. }
  assert (U : BufferPool.takes_unguarded PoolExample.pool14 0).
  { repeat split. }
  split; [exact R|]. split; [exact U|].
  apply (spare_buffer_available Examples.all_open 1 PoolExample.pool14 0 R U).
Defined.

(** ** classify: the loop over the input files *)

Section FileFacts.
Variable St : Type.
Variable ProcessFiles : option string -> option string -> St -> Run St.

Lemma process_stuck (calls : list (option string * option string))
    (r : Run St) :
  r = Exited \/ r = OutOfFuel ->
  fold_left (fun r c => run_bind r (ProcessFiles (fst c) (snd c))) calls r
  = r.
Proof.
  revert r. induction calls as [|c calls IH]; intros r Hr; simpl;
    [reflexivity|].
  rewrite IH; destruct Hr as [-> | ->]; auto.
Qed.

Lemma process_all_cons (c : option string * option string)
    (calls : list (option string * option string)) (st : St) :
  process_all St ProcessFiles (c :: calls) st
  = run_bind (ProcessFiles (fst c) (snd c) st)
      (process_all St ProcessFiles calls).
Proof.
  unfold process_all. simpl.
  destruct (ProcessFiles (fst c) (snd c) st) as [st'| |]; simpl;
    [reflexivity | |]; apply process_stuck; auto.
Qed.

Lemma run_bind_assoc (A B C : Type) (r : Run A) (f : A -> Run B)
    (g : B -> Run C) :
  run_bind (run_bind r f) g = run_bind r (fun a => run_bind (f a) g).
Proof. destruct r; reflexivity. Qed.

Lemma file_loop_pairs (opts : Options) (ps : list (string * string))
    (last : option string) :
  paired_end_processing opts = true ->
  single_file_pairs opts = false ->
  forall (pre : list string) (fuel : nat) (st : St),
    (List.length (flatten_pairs ps ++ option_list last) < fuel)%nat ->
    file_loop St ProcessFiles fuel opts
      (pre ++ flatten_pairs ps ++ option_list last) (List.length pre) st
    = run_bind
        (process_all St ProcessFiles
           (map (fun p => (Some (fst p), Some (snd p))) ps) st)
        (fun st' => match last with
                    | None => Finished st'
                    | Some _ => Exited
                    end).
Proof.
  intros Hp Hs. induction ps as [|[a b] ps IH]; intros pre fuel st Hf.
  - destruct fuel as [|fuel]; [simpl in Hf; lia|].
    simpl. rewrite Hp, Hs. simpl. rewrite List.length_app.
    destruct last as [f|]; simpl.
    + destruct (Nat.ltb_spec (List.length pre) (List.length pre + 1));
        [|lia].
      rewrite Nat.eqb_refl. reflexivity.
    + destruct (Nat.ltb_spec (List.length pre) (List.length pre + 0));
        [lia | reflexivity].
  - destruct fuel as [|fuel]; [simpl in Hf; lia|].
    cbn [map fst snd]. rewrite process_all_cons, run_bind_assoc.
    cbn [file_loop fst snd]. rewrite Hp, Hs. cbn [negb andb].
    assert (Hlen : List.length
                     (pre ++ flatten_pairs ((a, b) :: ps) ++ option_list last)
                   = (List.length pre + 2
                      + List.length (flatten_pairs ps ++ option_list last))%nat).
    { rewrite List.length_app. simpl. lia. }
    rewrite Hlen.
    destruct (Nat.ltb_spec (List.length pre)
                (List.length pre + 2
                 + List.length (flatten_pairs ps ++ option_list last)));
      [|lia].
    destruct (Nat.eqb_spec (List.length pre + 1)
                (List.length pre + 2
                 + List.length (flatten_pairs ps ++ option_list last)));
      [lia|].
    assert (Ha : nth (List.length pre)
                   (pre ++ flatten_pairs ((a, b) :: ps) ++ option_list last)
                   EmptyString = a).
    { rewrite app_nth2 by lia. rewrite Nat.sub_diag. reflexivity. }
    assert (Hb : nth (List.length pre + 1)
                   (pre ++ flatten_pairs ((a, b) :: ps) ++ option_list last)
                   EmptyString = b).
    { rewrite app_nth2 by lia.
      replace (List.length pre + 1 - List.length pre)%nat with 1%nat by lia.
      reflexivity. }
    rewrite Ha, Hb. apply run_bind_ext. intros st'.
    assert (Hpre : List.length (pre ++ [a; b]) = (List.length pre + 1 + 1)%nat).
    { rewrite List.length_app. simpl. lia. }
    specialize (IH (pre ++ [a; b]) fuel st').
    rewrite Hpre, <- List.app_assoc in IH.
    apply IH. simpl in Hf. rewrite List.length_app in *. lia.
Qed.

Lemma file_loop_singles (opts : Options) (fs : list string) :
  paired_end_processing opts && negb (single_file_pairs opts) = false ->
  forall (pre : list string) (fuel : nat) (st : St),
    (List.length fs < fuel)%nat ->
    file_loop St ProcessFiles fuel opts (pre ++ fs) (List.length pre) st
    = process_all St ProcessFiles (map (fun f => (Some f, None)) fs) st.
Proof.
  intros Hm. induction fs as [|f fs IH]; intros pre fuel st Hf.
  - destruct fuel as [|fuel]; [simpl in Hf; lia|].
    simpl. rewrite List.app_nil_r, Nat.ltb_irrefl. reflexivity.
  - destruct fuel as [|fuel]; [simpl in Hf; lia|].
    cbn [map]. rewrite process_all_cons. cbn [file_loop fst snd].
    rewrite Hm.
    assert (Hlen : List.length (pre ++ f :: fs)
                   = (List.length pre + 1 + List.length fs)%nat).
    { rewrite List.length_app. simpl. lia. }
    rewrite Hlen.
    destruct (Nat.ltb_spec (List.length pre)
                (List.length pre + 1 + List.length fs)); [|lia].
    assert (Ha : nth (List.length pre) (pre ++ f :: fs) EmptyString = f).
    { rewrite app_nth2 by lia. rewrite Nat.sub_diag. reflexivity. }
    rewrite Ha. apply run_bind_ext. intros st'.
    assert (Hpre : List.length (pre ++ [f]) = (List.length pre + 1)%nat).
    { rewrite List.length_app. simpl. lia. }
    specialize (IH (pre ++ [f]) fuel st').
    rewrite Hpre, <- List.app_assoc in IH.
    apply IH. simpl in Hf. lia.
Qed.

(** X16: with paired reads in two files, [classify] hands the file names
    to [ProcessFiles] two by two, in order.  A name left over at the end
    (an odd number of files) ends the process through [errx], but only
    after every complete pair before it has been processed; no file name
    at all ends it at once. *)
Theorem classify_files_pairs (opts : Options) (ps : list (string * string))
    (last : option string) (st : St) :
  paired_end_processing opts = true ->
  single_file_pairs opts = false ->
  classify_files St ProcessFiles opts
    (flatten_pairs ps ++ option_list last) st
  = run_bind
      (process_all St ProcessFiles
         (map (fun p => (Some (fst p), Some (snd p))) ps) st)
      (fun st' => match ps, last with
                  | _ :: _, None => Finished st'
                  | _, _ => Exited
                  end).
Proof.
  intros Hp Hs. unfold classify_files.
  destruct (flatten_pairs ps ++ option_list last) as [|f0 fs0] eqn:E.
  - rewrite Hp, Hs. destruct ps as [|[a b] ps]; [|discriminate].
    destruct last; [discriminate | reflexivity].
  - rewrite <- E.
    rewrite (file_loop_pairs opts ps last Hp Hs [] _ st) by lia.
    apply run_bind_ext. intros st'.
    destruct ps as [|p ps]; destruct last; try reflexivity.
    discriminate.
Qed.

(** X17: with single reads, or pairs interleaved in one file, [classify]
    calls [ProcessFiles] once for every file name, in order, with no
    second file; with no file name it calls it once with no file at all
    (standard input). *)
Theorem classify_files_singles (opts : Options) (fs : list string)
    (st : St) :
  paired_end_processing opts && negb (single_file_pairs opts) = false ->
  classify_files St ProcessFiles opts fs st
  = match fs with
    | [] => ProcessFiles None None st
    | _ :: _ =>
        process_all St ProcessFiles (map (fun f => (Some f, None)) fs) st
    end.
Proof.
  intros Hm. unfold classify_files. rewrite Hm.
  destruct fs as [|f fs]; [reflexivity|].
  apply (file_loop_singles opts (f :: fs) Hm [] _ st). lia.
Qed.

End FileFacts.

Lemma classify_files_pairs_witness :
  classify_files FilesExample.Calls FilesExample.log_call
    (Examples.paired_opts false)
    ["a_1.fq"; "a_2.fq"; "b_1.fq"; "b_2.fq"]%string []
  = Finished [(Some "a_1.fq", Some "a_2.fq");
              (Some "b_1.fq", Some "b_2.fq")]%string
  /\ classify_files FilesExample.Calls FilesExample.log_call
       (Examples.paired_opts false)
       ["a_1.fq"; "a_2.fq"; "b_1.fq"]%string []
     = Exited.
Proof.
  split.
  - exact (classify_files_pairs FilesExample.Calls FilesExample.log_call
             (Examples.paired_opts false)
             [("a_1.fq", "a_2.fq"); ("b_1.fq", "b_2.fq")]%string None []
             eq_refl eq_refl).
  - exact (classify_files_pairs FilesExample.Calls FilesExample.log_call
             (Examples.paired_opts false)
             [("a_1.fq", "a_2.fq")]%string (Some "b_1.fq"%string) []
             eq_refl eq_refl).
Defined.

Lemma classify_files_singles_witness :
  classify_files FilesExample.Calls FilesExample.log_call
    (Examples.paired_opts true) ["a.fq"; "b.fq"; "c.fq"]%string []
  = Finished [(Some "a.fq", None); (Some "b.fq", None);
              (Some "c.fq", None)]%string.
Proof.
  exact (classify_files_singles FilesExample.Calls FilesExample.log_call
           (Examples.paired_opts true) ["a.fq"; "b.fq"; "c.fq"]%string []
           eq_refl).
Defined.

(** ** Options::reset and ParseCommandLine *)

Section ParseFacts.
Import CommandLine.
Variable stod : string -> option Q.
Variable atoi : string -> Z.

Lemma on_option_effect (c : ascii) (a : string) (o o' : CommandOptions) :
  on_option stod atoi c a o = Ret o' -> option_effect c o o'.
Proof.
  unfold on_option, option_effect, opt_is.
  repeat match goal with
         | |- context [Ascii.eqb c ?x] =>
             destruct (Ascii.eqb_spec c x) as [->|?]
         end;
    cbn [orb andb Ascii.eqb Bool.eqb]; try discriminate;
    try (destruct (stod a) as [q|]; [|discriminate];
         destruct (negb (Qle_bool 0 q) || negb (Qle_bool q 1));
         [discriminate|]);
    try (destruct (Z.ltb_spec (atoi a) 1); [discriminate|]);
    intros Hret; injection Hret as <-; simpl;
    rewrite ?orb_false_r, ?orb_true_r;
    repeat split; auto; intros; try discriminate; try lia.
Qed.

Lemma option_loop_effect (found : list (ascii * string)) :
  forall o o',
    option_loop stod atoi found o = Ret o' ->
    single_file_pairs (core o')
    = single_file_pairs (core o) || given "S" found
    /\ paired_end_processing (core o')
       = paired_end_processing (core o) || given "P" found
         || given "S" found
    /\ (1 <= num_threads o -> 1 <= num_threads o')
    /\ use_translated_search (core o') = use_translated_search (core o)
    /\ filenames o' = filenames o
    /\ (given "H" found = false -> index_filename o' = index_filename o)
    /\ (given "t" found = false
        -> taxonomy_filename o' = taxonomy_filename o)
    /\ (given "o" found = false -> options_filename o' = options_filename o)
    /\ given "h" found = false
    /\ given "?" found = false.
Proof.
  induction found as [|[c a] found IH]; intros o o' H.
  - simpl in H. injection H as <-. unfold given. simpl.
    rewrite !orb_false_r. repeat split; auto.
  - simpl in H.
    destruct (on_option stod atoi c a o) as [o1| |] eqn:E;
      try discriminate.
    simpl in H.
    destruct (on_option_effect c a o o1 E)
      as (A1 & A2 & A3 & A4 & A5 & A6 & A7 & A8 & A9 & A10).
    destruct (IH o1 o' H)
      as (B1 & B2 & B3 & B4 & B5 & B6 & B7 & B8 & B9 & B10).
    unfold given in *. cbn [existsb fst].
    rewrite B1, B2, B4, B5, A1, A2, A4, A5, A9, A10, B9, B10.
    split; [rewrite orb_assoc; reflexivity|].
    split.
    { destruct (paired_end_processing (core o)), (opt_is c "P"),
        (opt_is c "S"),
        (existsb (fun a0 => opt_is (fst a0) "P") found),
        (existsb (fun a0 => opt_is (fst a0) "S") found); reflexivity. }
    split; [auto|]. split; [reflexivity|]. split; [reflexivity|].
    split; [|split; [|split]].
    + intros G. apply orb_false_iff in G. destruct G as [G1 G2].
      rewrite (B6 G2). apply A6. exact G1.
    + intros G. apply orb_false_iff in G. destruct G as [G1 G2].
      rewrite (B7 G2). apply A7. exact G1.
    + intros G. apply orb_false_iff in G. destruct G as [G1 G2].
      rewrite (B8 G2). apply A8. exact G1.
    + split; reflexivity.
Qed.

(** X18: the configuration that [main] and the daemon obtain by
    [reset] followed by [ParseCommandLine], when the parser returns: the
    three mandatory file names are non-empty and were given by -H, -t and
    -o; neither -h nor an option unknown to [getopt] was met; an
    MPA-style report has a report file; at least one thread is asked for;
    pairs are looked for exactly under -P or -S, in one file exactly
    under -S, so single-file pairing implies pairing; the translated
    search is off (it is switched on by the index only); and the input
    files are the operands, in order. *)
Theorem ParseCommandLine_validated (found : list (ascii * string))
    (operands : list string) (o0 o : CommandOptions) :
  ParseCommandLine stod atoi found operands (reset o0) = Ret o ->
  (index_filename o <> EmptyString /\ given "H" found = true)
  /\ (taxonomy_filename o <> EmptyString /\ given "t" found = true)
  /\ (options_filename o <> EmptyString /\ given "o" found = true)
  /\ given "h" found = false
  /\ given "?" found = false
  /\ (mpa_style_report o = true -> report_filename (core o) <> EmptyString)
  /\ 1 <= num_threads o
  /\ paired_end_processing (core o) = given "P" found || given "S" found
  /\ single_file_pairs (core o) = given "S" found
  /\ (single_file_pairs (core o) = true ->
      paired_end_processing (core o) = true)
  /\ use_translated_search (core o) = false
  /\ filenames o = operands.
Proof.
  unfold ParseCommandLine. intros H.
  destruct (option_loop stod atoi found (reset o0)) as [o1| |] eqn:E;
    try discriminate.
  simpl in H.
  destruct (option_loop_effect found _ _ E)
    as (B1 & B2 & B3 & B4 & B5 & B6 & B7 & B8 & B9 & B10).
  simpl in B1, B2, B3, B4, B5, B6, B7, B8.
  destruct (str_empty (index_filename o1)) eqn:E1; [discriminate|].
  destruct (str_empty (taxonomy_filename o1)) eqn:E2; [discriminate|].
  destruct (str_empty (options_filename o1)) eqn:E3; [discriminate|].
  simpl in H.
  destruct (mpa_style_report o1 && str_empty (report_filename (core o1)))
    eqn:E4; [discriminate|].
  injection H as <-. simpl.
  assert (Hgiven : forall c (f : CommandOptions -> string),
            str_empty (f o1) = false ->
            (given c found = false -> f o1 = EmptyString) ->
            f o1 <> EmptyString /\ given c found = true).
  { intros c f He Hg. split.
    - intros Hf. rewrite Hf in He. discriminate.
    - destruct (given c found); [reflexivity|].
      rewrite Hg in He by reflexivity. discriminate. }
  split; [apply (Hgiven "H"%char index_filename E1 B6)|].
  split; [apply (Hgiven "t"%char taxonomy_filename E2 B7)|].
  split; [apply (Hgiven "o"%char options_filename E3 B8)|].
  split; [exact B9|]. split; [exact B10|].
  split.
  { intros Hm. rewrite Hm in E4. simpl in E4. intros Hf.
    rewrite Hf in E4. discriminate. }
  split; [apply B3; lia|].
  split; [exact B2|]. split; [exact B1|].
  split; [rewrite B1, B2; intros ->; apply orb_true_r|].
  split; [exact B4|]. rewrite B5. reflexivity.
Qed.

End ParseFacts.

Lemma ParseCommandLine_validated_witness :
  CommandLine.ParseCommandLine ParseExample.toy_stod ParseExample.toy_atoi
    ParseExample.found ParseExample.operands
    (CommandLine.reset ParseExample.blank)
  = Ret ParseExample.parsed
  /\ 1 <= CommandLine.num_threads ParseExample.parsed
  /\ paired_end_processing (CommandLine.core ParseExample.parsed) = true.
Proof.
  assert (E : CommandLine.ParseCommandLine ParseExample.toy_stod
                ParseExample.toy_atoi ParseExample.found
                ParseExample.operands
                (CommandLine.reset ParseExample.blank)
              = Ret ParseExample.parsed) by reflexivity.
  split; [exact E|].
  destruct (ParseCommandLine_validated ParseExample.toy_stod
              ParseExample.toy_atoi ParseExample.found
              ParseExample.operands ParseExample.blank
              ParseExample.parsed E)
    as (_ & _ & _ & _ & _ & _ & Hn & _ & Hs & Hp & _).
  split; [exact Hn|]. apply Hp. rewrite Hs. reflexivity.
Defined.

(** ** TokenizeString *)

Lemma skip_seps_length (s : string) :
  (String.length (skip_seps s) <= String.length s)%nat.
Proof.
  induction s as [|c s IH]; simpl; [lia|].
  destruct (is_sep c); simpl; lia.
Qed.

Lemma skip_seps_drop (s : string) : drop_seps (skip_seps s) = drop_seps s.
Proof.
  induction s as [|c s IH]; simpl; [reflexivity|].
  destruct (is_sep c) eqn:E; simpl; [exact IH|]. rewrite E. reflexivity.
Qed.

Lemma skip_seps_head (s : string) (c : ascii) (s' : string) :
  skip_seps s = String c s' -> is_sep c = false.
Proof.
  induction s as [|x s IH]; simpl; [discriminate|].
  destruct (is_sep x) eqn:E; [exact IH|].
  intros H. injection H as <- _. exact E.
Qed.

Lemma take_token_spec (s : string) :
  forall token saved,
    take_token s = (token, saved) ->
    no_sep token = true
    /\ drop_seps s = (token ++ drop_seps saved)%string
    /\ (String.length saved <= String.length s)%nat.
Proof.
  induction s as [|c s IH]; simpl; intros token saved H.
  - injection H as <- <-. auto.
  - destruct (is_sep c) eqn:E.
    + injection H as <- <-. simpl. auto.
    + destruct (take_token s) as [t r]. injection H as <- <-.
      destruct (IH t r eq_refl) as (H1 & H2 & H3).
      simpl. rewrite E, H1, H2. simpl. auto.
Qed.

Lemma strtok_spec (saved token saved' : string) :
  strtok saved = Some (token, saved') ->
  is_word token = true
  /\ drop_seps saved = (token ++ drop_seps saved')%string
  /\ (String.length saved' < String.length saved)%nat.
Proof.
  unfold strtok. pose proof (skip_seps_length saved) as Hl.
  pose proof (skip_seps_drop saved) as Hd.
  destruct (skip_seps saved) as [|c s] eqn:E; [discriminate|].
  pose proof (skip_seps_head saved c s E) as Hc.
  intros H. injection H as H. simpl in H. rewrite Hc in H.
  destruct (take_token s) as [t r] eqn:T. injection H as <- <-.
  destruct (take_token_spec s t r T) as (H1 & H2 & H3).
  unfold is_word. simpl. rewrite Hc, H1. simpl in Hl.
  split; [reflexivity|]. split; [|lia].
  rewrite <- Hd. simpl. rewrite Hc, H2. reflexivity.
Qed.

Lemma strtok_none (saved : string) :
  strtok saved = None -> drop_seps saved = EmptyString.
Proof.
  unfold strtok. pose proof (skip_seps_drop saved) as Hd.
  destruct (skip_seps saved) as [|c s]; [|discriminate].
  intros _. rewrite <- Hd. reflexivity.
Qed.

Lemma tokenize_loop_spec (fuel : nat) :
  forall saved argv,
    (String.length saved < fuel)%nat ->
    exists out,
      tokenize_loop fuel saved argv = Some (argv ++ out)
      /\ forallb is_word out = true
      /\ String.concat EmptyString out = drop_seps saved.
Proof.
  induction fuel as [|fuel IH]; intros saved argv Hf; [lia|].
  simpl. destruct (strtok saved) as [[token saved']|] eqn:E.
  - destruct (strtok_spec saved token saved' E) as (Hw & Hd & Hl).
    destruct (IH saved' (argv ++ [token])) as (out & H1 & H2 & H3); [lia|].
    exists (token :: out). rewrite H1, <- List.app_assoc.
    split; [reflexivity|]. simpl. rewrite Hw, H2.
    split; [reflexivity|]. rewrite Hd, <- H3.
    destruct out; simpl; [rewrite append_nil_r|]; reflexivity.
  - exists []. rewrite List.app_nil_r. split; [reflexivity|].
    split; [reflexivity|]. simpl. symmetry. apply strtok_none. exact E.
Qed.

(** X19: [TokenizeString] returns for every string; every token it
    pushes is non-empty and holds no blank, and the tokens put together
    are the string without its blanks: no other character is lost, added
    or moved. *)
Theorem TokenizeString_tokens (str : string) :
  exists argv,
    TokenizeString str = Some argv
    /\ forallb is_word argv = true
    /\ String.concat EmptyString argv = drop_seps str.
Proof.
  unfold TokenizeString.
  destruct (tokenize_loop_spec (S (String.length str)) str [])
    as (out & H1 & H2 & H3); [lia|].
  exists out. auto.
Qed.

Lemma skip_seps_seps (n : nat) (s : string) :
  skip_seps (seps n ++ s) = skip_seps s.
Proof. induction n as [|n IH]; simpl; [reflexivity | exact IH]. Qed.

Lemma take_token_word (w rest : string) :
  no_sep w = true ->
  take_token (w ++ String " " rest) = (w, rest).
Proof.
  induction w as [|c w IH]; simpl; intros H; [reflexivity|].
  apply andb_prop in H. destruct H as [Hc Hw].
  destruct (is_sep c); [discriminate|]. rewrite (IH Hw). reflexivity.
Qed.

Lemma strtok_word (n : nat) (w rest : string) :
  is_word w = true ->
  strtok (seps n ++ w ++ String " " rest) = Some (w, rest).
Proof.
  unfold is_word, strtok. intros H. apply andb_prop in H.
  destruct H as [Hne Hw]. rewrite skip_seps_seps.
  destruct w as [|c w]; [discriminate|].
  pose proof Hw as Hw'. simpl in Hw'. apply andb_prop in Hw'.
  destruct Hw' as [Hc _].
  change ((String c w ++ String " " rest)%string)
    with (String c (w ++ String " " rest)).
  cbn [skip_seps]. destruct (is_sep c) eqn:E; [discriminate|].
  change (String c (w ++ String " " rest))
    with ((String c w ++ String " " rest)%string).
  rewrite take_token_word by exact Hw. reflexivity.
Qed.

Lemma tokenize_loop_line (ws : list (nat * string)) :
  forallb is_word (map snd ws) = true ->
  forall fuel argv,
    (String.length (line_of ws) < fuel)%nat ->
    tokenize_loop fuel (line_of ws) argv = Some (argv ++ map snd ws).
Proof.
  induction ws as [|[n w] ws IH]; intros Hw fuel argv Hf.
  - destruct fuel as [|fuel]; [simpl in Hf; lia|].
    simpl. rewrite List.app_nil_r. reflexivity.
  - destruct fuel as [|fuel]; [simpl in Hf; lia|].
    simpl in Hw. apply andb_prop in Hw. destruct Hw as [Hw Hws].
    cbn [tokenize_loop line_of]. rewrite strtok_word by exact Hw.
    rewrite IH.
    + rewrite <- List.app_assoc. reflexivity.
    + exact Hws.
    + cbn [line_of] in Hf. rewrite !string_length_app in Hf.
      simpl in Hf. lia.
Qed.

(** X20: a line of blank-free, non-empty words, each followed by a blank
    (as the daemon passes its command line, the newline replaced by a
    blank) and preceded by any number of further blanks, is split into
    exactly these words, in order. *)
Theorem TokenizeString_round_trip (ws : list (nat * string)) :
  forallb is_word (map snd ws) = true ->
  TokenizeString (line_of ws) = Some (map snd ws).
Proof.
  intros Hw. unfold TokenizeString.
  apply (tokenize_loop_line ws Hw _ []). lia.
Qed.

Lemma TokenizeString_round_trip_witness :
  TokenizeString "classify -H  hash.k2d -q "
  = Some ["classify"; "-H"; "hash.k2d"; "-q"]%string.
Proof.
  exact (TokenizeString_round_trip
           [(0%nat, "classify"); (0%nat, "-H"); (1%nat, "hash.k2d");
            (0%nat, "-q")]%string eq_refl).
Defined.

(** ** ReportStats *)

(** X21: for two times of day as [gettimeofday] gives them (microseconds
    in [0, 10^6)), the elapsed time that [ReportStats] computes is again
    normalised (microseconds in [0, 10^6)), it is the exact difference of
    the two times, and its seconds are not negative when the second time
    is not before the first.  With counters as a run leaves them
    ([total_classified <= total_sequences < 2^64]) the unclassified count
    is their difference, without wrap-around. *)
Theorem ReportStats_elapsed_normal (time1 time2 : timeval)
    (stats : ClassificationStats) :
  0 <= tv_usec time1 < 1000000 ->
  0 <= tv_usec time2 < 1000000 ->
  0 <= total_classified stats <= total_sequences stats ->
  total_sequences stats < 2 ^ 64 ->
  let e := ReportStats_elapsed time1 time2 in
  0 <= tv_usec e < 1000000
  /\ microseconds e = microseconds time2 - microseconds time1
  /\ (microseconds time1 <= microseconds time2 -> 0 <= tv_sec e)
  /\ total_classified stats + ReportStats_unclassified stats
     = total_sequences stats.
Proof.
  intros H1 H2 Hc Hs. unfold ReportStats_elapsed, microseconds,
    ReportStats_unclassified, wrap64. cbv zeta.
  rewrite Z.mod_small by lia.
  destruct (Z.ltb_spec (tv_usec time2 - tv_usec time1) 0); simpl;
    repeat split; lia.
Qed.

Lemma ReportStats_elapsed_normal_witness :
  ReportStats_elapsed (mkTimeval 10 900000) (mkTimeval 12 100000)
  = mkTimeval 1 200000
  /\ microseconds (ReportStats_elapsed (mkTimeval 10 900000)
                     (mkTimeval 12 100000)) = 1200000.
Proof.
  split; [reflexivity|].
  destruct (ReportStats_elapsed_normal (mkTimeval 10 900000)
              (mkTimeval 12 100000) (mkStats 5 700 3))
    as (_ & H & _); simpl; try lia.
  rewrite H. reflexivity.
Defined.
